(** * mock_go_k8s_helm: the configuration loader and the chart product manager

    A shallow embedding of the Go packages [configloader] and
    [chartconfigmanager] and the properties their specification states.

    Go strings are byte sequences: they are modelled by [string] (a list of
    8-bit [ascii] characters).  Go maps are modelled by stdpp's [gmap]; a nil
    map reads like an empty one. *)

From Stdlib Require Import Ascii String.
From stdpp Require Import gmap strings list fin_maps sorting.

(** ** The Go [strings] functions used by the packages *)

Module strings.

Fixpoint drop (n : nat) (s : string) : string :=
  match n, s with
  | O, _ => s
  | S n', String _ s' => drop n' s'
  | S _, EmptyString => EmptyString
  end.

(** [strings.HasPrefix(s, prefix)]:
    [len(s) >= len(prefix) && s[:len(prefix)] == prefix]. *)
Definition HasPrefix (s prefix : string) : bool :=
  (String.length prefix <=? String.length s)%nat
  && String.eqb (String.substring 0 (String.length prefix) s) prefix.

(** [strings.HasSuffix(s, suffix)]:
    [len(s) >= len(suffix) && s[len(s)-len(suffix):] == suffix]. *)
Definition HasSuffix (s suffix : string) : bool :=
  (String.length suffix <=? String.length s)%nat
  && String.eqb
       (String.substring (String.length s - String.length suffix)
                         (String.length suffix) s)
       suffix.

(** [strings.TrimPrefix]: [s] without the leading [prefix], or [s] itself
    when it does not start with [prefix]. *)
Definition TrimPrefix (s prefix : string) : string :=
  if HasPrefix s prefix then drop (String.length prefix) s else s.

(** [strings.TrimSuffix]: [s] without the trailing [suffix], or [s] itself
    when it does not end with [suffix]. *)
Definition TrimSuffix (s suffix : string) : string :=
  if HasSuffix s suffix
  then String.substring 0 (String.length s - String.length suffix) s
  else s.

(** [strings.Contains(s, substr)]. *)
Fixpoint Contains (s substr : string) : bool :=
  HasPrefix s substr
  || match s with
     | EmptyString => false
     | String _ s' => Contains s' substr
     end.

(** [strings.Split(s, sep)] for a separator of one byte, which is what every
    caller in these packages passes: the pieces of [s] between the
    occurrences of [sep], empty ones included. *)
Fixpoint Split (s : string) (sep : ascii) : list string :=
  match s with
  | EmptyString => [EmptyString]
  | String c s' =>
      if Ascii.eqb c sep then EmptyString :: Split s' sep
      else match Split s' sep with
           | e :: es => String c e :: es
           | [] => [String c EmptyString]
           end
  end.

(** The text before and after the first occurrence of [sep] in [s]. *)
Fixpoint cut (s : string) (sep : ascii) : option (string * string) :=
  match s with
  | EmptyString => None
  | String c s' =>
      if Ascii.eqb c sep then Some (EmptyString, s')
      else match cut s' sep with
           | Some (a, b) => Some (String c a, b)
           | None => None
           end
  end.

(** [strings.SplitN(s, sep, n)] for a separator of one byte and [n >= 0]: at
    most [n] pieces, the last one being the unsplit remainder. *)
Fixpoint SplitN (s : string) (sep : ascii) (n : nat) : list string :=
  match n with
  | 0 => []
  | 1 => [s]
  | S n' =>
      match cut s sep with
      | Some (a, b) => a :: SplitN b sep n'
      | None => [s]
      end
  end.

(** [strings.TrimRight(s, cutset)] for a cutset of one byte: [s] without
    its trailing occurrences of that byte. *)
Fixpoint TrimRight (s : string) (cutset : ascii) : string :=
  match s with
  | EmptyString => EmptyString
  | String a s' =>
      match TrimRight s' cutset with
      | EmptyString =>
          if Ascii.eqb a cutset then EmptyString else String a EmptyString
      | t => String a t
      end
  end.

(** [strings.Join(elems, sep)]. *)
Fixpoint Join (elems : list string) (sep : string) : string :=
  match elems with
  | [] => ""
  | [e] => e
  | e :: elems' => e +:+ sep +:+ Join elems' sep
  end.

End strings.

(** ** The Go [path/filepath] functions used by the packages (Unix paths) *)

Module filepath.

Definition Separator : ascii := "/"%char.

(** The elements of a path between its separators, empty ones included. *)
Fixpoint elements (path : string) : list string :=
  match path with
  | EmptyString => [EmptyString]
  | String c path' =>
      if Ascii.eqb c Separator then EmptyString :: elements path'
      else match elements path' with
           | e :: es => String c e :: es
           | [] => [String c EmptyString]
           end
  end.

Definition nonempty (e : string) : bool := negb (String.eqb e "").

(** [filepath.Base]: the last element of the path, trailing separators
    removed; "." for the empty path and "/" for a path of separators. *)
Definition Base (path : string) : string :=
  if String.eqb path "" then "."
  else match last (filter (λ e, nonempty e = true) (elements path)) with
       | Some e => e
       | None => "/"
       end.

(** One element of the path handed to [Clean]; [out] holds the elements
    kept so far, the last one first. *)
Definition clean_step (rooted : bool) (out : list string) (e : string)
  : list string :=
  if String.eqb e "" || String.eqb e "." then out
  else if String.eqb e ".." then
    match out with
    | top :: out' => if String.eqb top ".." then e :: out else out'
    | [] => if rooted then [] else [e]
    end
  else e :: out.

Fixpoint join_elements (es : list string) : string :=
  match es with
  | [] => ""
  | [e] => e
  | e :: es' => e +:+ "/" +:+ join_elements es'
  end.

(** [filepath.Clean]: the shortest path equivalent to [path] by purely
    lexical processing. *)
Definition Clean (path : string) : string :=
  let rooted := strings.HasPrefix path "/" in
  let out := foldl (clean_step rooted) [] (elements path) in
  let body := join_elements (rev out) in
  if rooted then "/" +:+ body
  else if String.eqb body "" then "." else body.

(** [filepath.Join]: the elements are joined by separators and the result
    is cleaned; leading empty elements are ignored. *)
Fixpoint Join (elem : list string) : string :=
  match elem with
  | [] => ""
  | e :: elem' =>
      if nonempty e then Clean (join_elements elem) else Join elem'
  end.

End filepath.

(** ** Values and environment

    [any] holds the dynamically typed values ([interface{}]) the packages
    store: strings, booleans, string slices, and the three kinds of maps. *)

#[warnings="-register-all"]
Inductive any : Type :=
  | AString (s : string)
  | ABool (b : bool)
  | AStrings (l : list string)
  | AStringMap (m : gmap string string)
  | ANestedMap (m : gmap string (gmap string string))
  | AMap (m : gmap string any).

(** A Go [error] is carried by its message; [None] is the nil error. *)
Definition error : Type := string.

(** What the code can observe and change outside its own variables: the files
    (path to content), the reading of the clock as
    [time.Now().UTC().Format(time.RFC3339)] gives it, and the lines written to
    standard output. *)
Record world : Type := World {
  files : gmap string string;
  clock : string;
  stdout : list string
}.

(** ** The regular expression of [resolveValue]

    [regexp.MustCompile(`\${(.*?)}`)]: a literal dollar sign, a literal
    opening brace (a brace that starts no repetition count is a literal in
    Go's syntax), a lazy group of characters other than a line break, and a
    closing brace. *)

Module re.

Definition newline : ascii := "010"%char.

(** The tail [(.*?)}] of the pattern, anchored at the head of [s]: the lazy
    star takes the shortest run of characters, none of them a line break,
    that a closing brace follows.  The result is the captured group and the
    text after the closing brace. *)
Fixpoint lazy_group (s : string) : option (string * string) :=
  match s with
  | EmptyString => None
  | String c s' =>
      if Ascii.eqb c "}"%char then Some (EmptyString, s')
      else if Ascii.eqb c newline then None
      else match lazy_group s' with
           | Some (g, rest) => Some (String c g, rest)
           | None => None
           end
  end.

(** The whole pattern anchored at the head of [s]: the matched text and the
    text after it. *)
Definition match_prefix (s : string) : option (string * string) :=
  match s with
  | String c1 (String c2 s') =>
      if Ascii.eqb c1 "$"%char && Ascii.eqb c2 "{"%char
      then match lazy_group s' with
           | Some (g, rest) => Some ("${" +:+ g +:+ "}", rest)
           | None => None
           end
      else None
  | _ => None
  end.

(** [re.ReplaceAllStringFunc(src, repl)]: the matches are searched from
    left to right, each one starting at the first position after the
    previous match where the pattern matches; the text between matches is
    copied and each match [m] is replaced by [repl m].  [skip] counts the
    characters of [src] that still belong to the match replaced last. *)
Fixpoint replace_from (repl : string → string) (skip : nat) (src : string)
  : string :=
  match src with
  | EmptyString => EmptyString
  | String c src' =>
      match skip with
      | S k => replace_from repl k src'
      | O =>
          match match_prefix src with
          | Some (m, _) =>
              repl m +:+ replace_from repl (String.length m - 1) src'
          | None => String c (replace_from repl 0 src')
          end
      end
  end.

Definition ReplaceAllStringFunc (src : string) (repl : string → string)
  : string :=
  replace_from repl 0 src.

End re.

(** ** Package configloader *)

Module configloader.

Record Options : Type := mkOptions {
  BasePath : string;
  CustomFilePaths : list string;
  Environment : string;
  EnableDatabaseGrouping : bool
}.

Record LoadedConfig : Type := mkLoadedConfig {
  Main : gmap string string;
  DatabaseConfigs : gmap string (gmap string string);
  Metadata : gmap string any;
  rawMainConfig : gmap string string;
  rawDatabaseConfigs : gmap string (gmap string string);
  opts : Options
}.

Definition with_Main (v : gmap string string) (lc : LoadedConfig)
  : LoadedConfig :=
  mkLoadedConfig v (DatabaseConfigs lc) (Metadata lc) (rawMainConfig lc)
                 (rawDatabaseConfigs lc) (opts lc).

Definition with_DatabaseConfigs (v : gmap string (gmap string string))
  (lc : LoadedConfig) : LoadedConfig :=
  mkLoadedConfig (Main lc) v (Metadata lc) (rawMainConfig lc)
                 (rawDatabaseConfigs lc) (opts lc).

Definition with_Metadata (v : gmap string any) (lc : LoadedConfig)
  : LoadedConfig :=
  mkLoadedConfig (Main lc) (DatabaseConfigs lc) v (rawMainConfig lc)
                 (rawDatabaseConfigs lc) (opts lc).

Definition newLoadedConfig (opts : Options) : LoadedConfig :=
  {| Main := ∅; DatabaseConfigs := ∅; Metadata := ∅;
     rawMainConfig := ∅; rawDatabaseConfigs := ∅; opts := opts |}.

(** [resolveValue]: every match of the pattern is looked up, stripped of
    its delimiters, in [context]; a known name is replaced by its value, an
    unknown one is left as it stands. *)
Definition resolveValue (rawValue : string) (context : gmap string string)
  : string :=
  let resolvedValue :=
    re.ReplaceAllStringFunc rawValue (λ match_,
      let varName :=
        strings.TrimSuffix (strings.TrimPrefix match_ "${") "}" in
      match context !! varName with
      | Some val => val
      | None => match_
      end) in
  resolvedValue.

(** [resolveConfigMap] on map values.  The parameters [sectionName] and
    [logPrefix] of the Go function are never read and are left out.  Each
    [range] loop is a [map_fold]: the order in which Go visits the keys is
    not fixed, and none of the loops depends on it. *)
Definition resolveConfigMap (rawConfig primaryContext : gmap string string)
  : gmap string string :=
  let resolved : gmap string string := ∅ in
  let combinedContext : gmap string string := ∅ in
  let combinedContext :=
    map_fold (λ k v cc, <[k := v]> cc) combinedContext primaryContext in
  let combinedContext :=
    map_fold (λ k v cc, <[k := v]> cc) combinedContext rawConfig in
  let resolved :=
    map_fold (λ k v r, <[k := resolveValue v combinedContext]> r)
             resolved rawConfig in
  resolved.

(** [Load].  The result pointer is [Some], the nil error is [None]. *)
Definition Load (w : world) (opts : Options)
  : option LoadedConfig * option error :=
  let lc := newLoadedConfig opts in
  let lc := with_Main (<["mock_key_main" := "mock_value_main"]> (Main lc)) lc in
  let lc := with_Main (<["another_key" := "another_value"]> (Main lc)) lc in
  let lc := with_Main (<["var1" := "value1"]> (Main lc)) lc in
  let lc := with_Main (<["var2" := "${var1}_value2"]> (Main lc)) lc in
  let lc :=
    if EnableDatabaseGrouping opts
    then with_DatabaseConfigs
           (<["mockdb" := <["port" := "5432"]> (<["host" := "localhost"]> ∅)]>
              (DatabaseConfigs lc)) lc
    else lc in
  let lc := with_Metadata
              (<["source_type" := AString "mock_load"]> (Metadata lc)) lc in
  let lc := with_Metadata
              (<["parsed_files" := AStrings ["/fake/path/mock.conf"]]>
                 (Metadata lc)) lc in
  let lc := with_Metadata
              (<["database_grouping_enabled" :=
                   ABool (EnableDatabaseGrouping opts)]> (Metadata lc)) lc in
  let lc := with_Metadata
              (<["extraction_date" := AString (clock w)]> (Metadata lc)) lc in
  let lc := with_Main (resolveConfigMap (rawMainConfig lc) (Main lc)) lc in
  let lc :=
    if EnableDatabaseGrouping opts
    then map_fold
           (λ dbType rawDbConf lc,
              with_DatabaseConfigs
                (<[dbType := resolveConfigMap rawDbConf (Main lc)]>
                   (DatabaseConfigs lc)) lc)
           lc (rawDatabaseConfigs lc)
    else lc in
  (Some lc, None).

Definition LoadWithDefaults (w : world) (basePath env : string)
  (enableDBGrouping : bool) : option LoadedConfig * option error :=
  let basePath := if String.eqb basePath "" then "/mock/base" else basePath in
  let opts := {| BasePath := basePath; CustomFilePaths := [];
                 Environment := env;
                 EnableDatabaseGrouping := enableDBGrouping |} in
  Load w opts.

(** [DiscoverDefaultPaths]: the primary file, the configuration directory
    and the error. *)
Definition DiscoverDefaultPaths (basePath env : string)
  : string * string * option error :=
  let basePath := if String.eqb basePath "" then "/mock/base" else basePath in
  if negb (String.eqb env "")
  then (filepath.Join [basePath; "install-" +:+ env +:+ ".conf"],
        filepath.Join [basePath; "conf-" +:+ env], None)
  else (filepath.Join [basePath; "install.conf"],
        filepath.Join [basePath; "conf"], None).

(** [parseConfFile] writes into [targetConfig]: the map after the call is
    returned with the error.  [sectionName] and [logPrefix] are not read. *)
Definition parseConfFile (filePath : string)
  (targetConfig : gmap string string)
  : gmap string string * option error :=
  let targetConfig :=
    <["mock_parsed_key_from_" +:+ filepath.Base filePath := "mock_value"]>
      targetConfig in
  let targetConfig := <["input_var" := "hello"]> targetConfig in
  let targetConfig := <["another_input" := "world_${input_var}"]> targetConfig in
  let targetConfig := <["to_be_resolved" := "original_value"]> targetConfig in
  (targetConfig, None).

(** [ToMap]. *)
Definition ToMap (lc : LoadedConfig) : gmap string any :=
  let outputMap : gmap string any := ∅ in
  let outputMap := <["main" := AStringMap (Main lc)]> outputMap in
  let outputMap :=
    if EnableDatabaseGrouping (opts lc) && (0 <? size (DatabaseConfigs lc))
    then <["database_configs" := ANestedMap (DatabaseConfigs lc)]> outputMap
    else outputMap in
  let outputMap := <["metadata" := AMap (Metadata lc)]> outputMap in
  outputMap.

(** The map [ToJSON] builds and hands to the encoder. *)
Definition ToJSON_outputMap (lc : LoadedConfig) : gmap string any :=
  let outputMap : gmap string any := ∅ in
  let outputMap := <["main" := AStringMap (Main lc)]> outputMap in
  let outputMap :=
    if EnableDatabaseGrouping (opts lc) && (0 <? size (DatabaseConfigs lc))
    then <["database_configs" := ANestedMap (DatabaseConfigs lc)]> outputMap
    else outputMap in
  let outputMap := <["metadata" := AMap (Metadata lc)]> outputMap in
  outputMap.

Section JSON.

(** [json.MarshalIndent(v, prefix, indent)] of the standard library: it
    writes a map as one JSON object with one member for each key.  It is
    a parameter of the model; the result is the text and the error. *)
Variable json_MarshalIndent :
  gmap string any → string → string → string * option error.

Definition ToJSON (lc : LoadedConfig) : string * option error :=
  json_MarshalIndent (ToJSON_outputMap lc) "" "  ".

End JSON.

End configloader.

(** ** [resolveConfigMap] with the maps as shared objects

    Go maps are references.  Here a store holds the content of every map at
    its address, [make] allocates an empty map at an unused address, an
    assignment [m[k] = v] updates the content at the address of [m], and a
    [range] loop visits the content its map has when the loop starts. *)

Module mapstore.

Definition make (σ : gmap nat (gmap string string))
  : nat * gmap nat (gmap string string) :=
  let a := fresh (dom σ) in (a, <[a := ∅]> σ).

Definition content (σ : gmap nat (gmap string string)) (a : nat)
  : gmap string string :=
  default ∅ (σ !! a).

Definition assign (a : nat) (k v : string)
  (σ : gmap nat (gmap string string)) : gmap nat (gmap string string) :=
  <[a := <[k := v]> (content σ a)]> σ.

Definition range (a : nat)
  (body : string → string → gmap nat (gmap string string)
          → gmap nat (gmap string string))
  (σ : gmap nat (gmap string string)) : gmap nat (gmap string string) :=
  map_fold body σ (content σ a).

(** [resolveConfigMap] called with the addresses of its two arguments; it
    returns the address of the map it built and the store it leaves. *)
Definition resolveConfigMap (rawConfig primaryContext : nat)
  (σ : gmap nat (gmap string string))
  : nat * gmap nat (gmap string string) :=
  let '(resolved, σ) := make σ in
  let '(combinedContext, σ) := make σ in
  let σ := range primaryContext (λ k v, assign combinedContext k v) σ in
  let σ := range rawConfig (λ k v, assign combinedContext k v) σ in
  let σ :=
    range rawConfig
      (λ k v σ,
         assign resolved k
           (configloader.resolveValue v (content σ combinedContext)) σ)
      σ in
  (resolved, σ).

End mapstore.

(** ** Package chartconfigmanager *)

Module chartconfigmanager.

Definition UnassignedVarError : string := "error".
Definition UnassignedVarEmpty : string := "empty".
Definition UnassignedVarKeep : string := "keep".

(** A [*log.Logger] that writes to standard output: its prefix. *)
Record Logger : Type := mkLogger { prefix : string }.

(** The mock manager: its base path, its logger ([None] is the nil pointer)
    and the optional replacement of [InstantiateProduct] ([None] is the nil
    function).  A call returns [None] when it panics. *)
Record FileSystemProductManager : Type := mkManager {
  baseProductsPath : string;
  log : option Logger;
  InstantiateProductFunc :
    option (string → gmap string any → string → string → world
            → option ((string * option error) * world))
}.

Definition NewFileSystemProductManager (baseProductsPath : string)
  (logDirectoryPath : string)
  : option FileSystemProductManager * option error :=
  if String.eqb baseProductsPath ""
  then (None, Some "baseProductsPath cannot be empty")
  else
    let logger := mkLogger "MOCK_CHARTCONFIGMAN: " in
    (Some {| baseProductsPath := baseProductsPath;
             log := Some logger;
             InstantiateProductFunc := None |}, None).

(** [l.Printf]: one line on standard output (the time stamp the logger puts
    after its prefix is left out); a nil logger panics. *)
Definition Logger_Printf (l : option Logger) (line : string) (w : world)
  : option world :=
  match l with
  | Some l =>
      Some {| files := files w; clock := clock w;
              stdout := stdout w ++ [prefix l +:+ line] |}
  | None => None
  end.

Definition InstantiateProduct (m : FileSystemProductManager)
  (productNameOrPath : string) (variables : gmap string any)
  (outputPath : string) (unassignedVarAction : string) (w : world)
  : option ((string * option error) * world) :=
  match InstantiateProductFunc m with
  | Some f => f productNameOrPath variables outputPath unassignedVarAction w
  | None =>
      if String.eqb outputPath ""
      then Some (("", Some "outputPath cannot be empty"), w)
      else
        let instantiatedPath :=
          filepath.Join [outputPath; filepath.Base productNameOrPath] in
        match
          Logger_Printf (log m)
            ("Mock InstantiateProduct: productNameOrPath="
             +:+ productNameOrPath +:+ ", outputPath=" +:+ outputPath
             +:+ ", instantiatedPath=" +:+ instantiatedPath) w
        with
        | Some w => Some ((instantiatedPath, None), w)
        | None => None
        end
  end.

Module VariableDefinition.
Record t : Type := mk {
  Name : string;
  Description : string;
  Default : string
}.
End VariableDefinition.

Module Product.
Record t : Type := mk {
  Name : string;
  Description : string;
  ChartPath : string;
  Variables : list VariableDefinition.t
}.
End Product.

Module ChartInfo.
Record t : Type := mk {
  APIVersion : string;
  Name : string;
  Version : string;
  AppVersion : string;
  Description : string
}.
End ChartInfo.

(** The other function fields of [FileSystemProductManager]; [None] is the
    nil function.  A replacement may read and change the environment, and
    returns [None] when it panics. *)
Record MethodFuncs : Type := mkMethodFuncs {
  ListProductsFunc :
    option (world → option ((list Product.t * option error) * world));
  GetProductFunc :
    option (string → world
            → option ((option Product.t * option error) * world));
  ExtractVariablesFromPathFunc :
    option (string → world
            → option ((list VariableDefinition.t * option error) * world));
  ValidateChartFilesFunc :
    option (string → world → option (option error * world));
  DefineProductFunc :
    option (string → string → option Product.t → world
            → option (option error * world));
  GetChartInfoFunc :
    option (string → world
            → option ((option ChartInfo.t * option error) * world))
}.

(** The function fields as [NewFileSystemProductManager] leaves them. *)
Definition no_funcs : MethodFuncs :=
  {| ListProductsFunc := None; GetProductFunc := None;
     ExtractVariablesFromPathFunc := None; ValidateChartFilesFunc := None;
     DefineProductFunc := None; GetChartInfoFunc := None |}.

Definition ListProducts (m : FileSystemProductManager) (fs : MethodFuncs)
  (w : world) : option ((list Product.t * option error) * world) :=
  match ListProductsFunc fs with
  | Some f => f w
  | None =>
      Some (([ {| Product.Name := "mock-product-1";
                  Product.ChartPath := "/mock/path/product-1/chart";
                  Product.Description := "Mock Product 1";
                  Product.Variables := [] |};
               {| Product.Name := "mock-product-2";
                  Product.ChartPath := "/mock/path/product-2/chart";
                  Product.Description := "Mock Product 2";
                  Product.Variables := [] |} ], None), w)
  end.

Definition GetProduct (m : FileSystemProductManager) (fs : MethodFuncs)
  (productName : string) (w : world)
  : option ((option Product.t * option error) * world) :=
  match GetProductFunc fs with
  | Some f => f productName w
  | None =>
      if String.eqb productName "non-existent-product"
      then Some ((None, Some ("product '" +:+ productName +:+ "' not found")),
                 w)
      else
        Some ((Some {| Product.Name := productName;
                       Product.ChartPath :=
                         filepath.Join
                           [baseProductsPath m; productName; "chart"];
                       Product.Description := "Mock product " +:+ productName;
                       Product.Variables :=
                         [ {| VariableDefinition.Name := "image.tag";
                              VariableDefinition.Description := "";
                              VariableDefinition.Default := "latest" |} ] |},
               None), w)
  end.

Definition ExtractVariablesFromPath (m : FileSystemProductManager)
  (fs : MethodFuncs) (path : string) (w : world)
  : option ((list VariableDefinition.t * option error) * world) :=
  match ExtractVariablesFromPathFunc fs with
  | Some f => f path w
  | None =>
      Some (([ {| VariableDefinition.Name := "replicaCount";
                  VariableDefinition.Description := "Number of replicas";
                  VariableDefinition.Default := "" |};
               {| VariableDefinition.Name := "service.port";
                  VariableDefinition.Description := "";
                  VariableDefinition.Default := "80" |} ], None), w)
  end.

Definition ValidateChartFiles (m : FileSystemProductManager)
  (fs : MethodFuncs) (chartPath : string) (w : world)
  : option (option error * world) :=
  match ValidateChartFilesFunc fs with
  | Some f => f chartPath w
  | None =>
      if strings.Contains chartPath "invalid-chart"
      then Some (Some ("mock validation error: chart at " +:+ chartPath
                       +:+ " is invalid"), w)
      else Some (None, w)
  end.

Definition DefineProduct (m : FileSystemProductManager) (fs : MethodFuncs)
  (productName baseChartPath : string) (productMetadata : option Product.t)
  (w : world) : option (option error * world) :=
  match DefineProductFunc fs with
  | Some f => f productName baseChartPath productMetadata w
  | None =>
      if String.eqb productName ""
      then Some (Some "productName cannot be empty", w)
      else
        match
          Logger_Printf (log m)
            ("Mock DefineProduct: productName=" +:+ productName
             +:+ ", baseChartPath=" +:+ baseChartPath) w
        with
        | Some w => Some (None, w)
        | None => None
        end
  end.

Definition GetChartInfo (m : FileSystemProductManager) (fs : MethodFuncs)
  (productName : string) (w : world)
  : option ((option ChartInfo.t * option error) * world) :=
  match GetChartInfoFunc fs with
  | Some f => f productName w
  | None =>
      if String.eqb productName "product-without-chartinfo"
      then Some ((None, Some ("Chart.yaml not found for product "
                              +:+ productName)), w)
      else
        Some ((Some {| ChartInfo.APIVersion := "v2";
                       ChartInfo.Name := productName +:+ "-chart";
                       ChartInfo.Version := "0.1.0";
                       ChartInfo.AppVersion := "1.0.0";
                       ChartInfo.Description :=
                         "Mock chart info for " +:+ productName |},
               None), w)
  end.

(** [LoadVariables]: the map ([None] is the nil map) and the error. *)
Definition LoadVariables (filePath arg2 arg3 : string)
  : option (gmap string any) * option error :=
  if String.eqb filePath "non-existent-vars.yaml"
  then (None, Some ("mock error: file not found " +:+ filePath))
  else
    (Some (<["globalVar1" := AString "globalValue1FromMock"]>
             (<["fromFilePath" := AString filePath]>
                (<["arg2_val" := AString arg2]>
                   (<["arg3_val" := AString arg3]>
                      (<["nested" :=
                           AMap (<["key" := AString "nestedValueFromMock"]> ∅)]>
                         ∅))))),
     None).

End chartconfigmanager.

(** ** Package backupmanager *)

Module backupmanager.

(** The values the package puts in a [Values] map. *)
Inductive value : Type :=
  | VString (s : string)
  | VInt (n : Z).

(** A [time.Time] is the number of nanoseconds since the Unix epoch; the zero
    [time.Time] is the first instant of the year 1. *)
Definition zero_time : Z := (-62135596800 * 1000000000)%Z.

Definition Millisecond : Z := 1000000%Z.

Record BackupMetadata : Type := mkBackupMetadata {
  BackupID : string;
  Timestamp : Z;
  ReleaseName : string;
  ChartName : string;
  ChartVersion : string;
  AppVersion : string;
  Description : string;
  Status : string;
  Size : Z;
  Tags : list string;
  CustomMeta : gmap string string;
  Values : gmap string value
}.

(** The zero [BackupMetadata{}]. *)
Definition no_metadata : BackupMetadata :=
  {| BackupID := ""; Timestamp := zero_time; ReleaseName := "";
     ChartName := ""; ChartVersion := ""; AppVersion := "";
     Description := ""; Status := ""; Size := 0%Z; Tags := [];
     CustomMeta := ∅; Values := ∅ |}.

Section manager.

(** [ReleaseInfo] is the type of the Helm client's results and [cluster] the
    state the Helm client and the logger act on. *)
Context {ReleaseInfo cluster : Type}.

(** The three methods of [helmutils.HelmClient] the package calls.  A method
    returns its results and the state it leaves. *)
Record HelmClient : Type := mkHelmClient {
  UninstallRelease :
    string → string → bool → Z → cluster
    → (string * option error) * cluster;
  InstallChart :
    string → string → string → string → gmap string value → bool → bool → Z
    → cluster → (option ReleaseInfo * option error) * cluster;
  UpgradeRelease :
    string → string → string → string → gmap string value → bool → Z → bool
    → bool → cluster → (option ReleaseInfo * option error) * cluster
}.

(** The mock manager.  [logger] receives the format and the arguments, each
    argument by its text; [None] is a nil function.  A replacement function
    returns [None] when it panics. *)
Record FileSystemBackupManager : Type := mkManager {
  baseBackupPath : string;
  logger : option (string → list string → cluster → cluster);
  BackupReleaseFunc :
    option (string → string → gmap string value → cluster
            → option ((string * option error) * cluster));
  ListBackupsFunc :
    option (string → cluster
            → option ((list BackupMetadata * option error) * cluster));
  GetBackupDetailsFunc :
    option (string → string → cluster
            → option ((string * string * BackupMetadata * option error)
                      * cluster));
  RestoreReleaseFunc :
    option (HelmClient → string → string → string → bool → bool → Z
            → cluster
            → option ((option ReleaseInfo * option error) * cluster));
  UpgradeToBackupFunc :
    option (HelmClient → string → string → string → bool → Z → bool
            → cluster
            → option ((option ReleaseInfo * option error) * cluster));
  DeleteBackupFunc :
    option (string → string → cluster → option (option error * cluster));
  PruneBackupsFunc :
    option (string → Z → cluster → option ((Z * option error) * cluster))
}.

Definition NewFileSystemBackupManager (baseBackupPath : string)
  (logger : option (string → list string → cluster → cluster))
  : option FileSystemBackupManager * option error :=
  if String.eqb baseBackupPath ""
  then (None, Some "baseBackupPath cannot be empty")
  else
    let mockMgr :=
      {| baseBackupPath := baseBackupPath; logger := logger;
         BackupReleaseFunc := None; ListBackupsFunc := None;
         GetBackupDetailsFunc := None; RestoreReleaseFunc := None;
         UpgradeToBackupFunc := None; DeleteBackupFunc := None;
         PruneBackupsFunc := None |} in
    (Some mockMgr, None).

Definition BackupRelease (m : FileSystemBackupManager)
  (releaseName chartSourcePath : string) (values : gmap string value)
  (c : cluster) : option ((string * option error) * cluster) :=
  match BackupReleaseFunc m with
  | Some f => f releaseName chartSourcePath values c
  | None =>
      if String.eqb releaseName ""
      then Some (("", Some "releaseName cannot be empty"), c)
      else if String.eqb chartSourcePath ""
      then Some (("", Some "chartSourcePath cannot be empty"), c)
      else Some (("mock-backup-id-" +:+ releaseName, None), c)
  end.

(** [ListBackups]; [now] is the reading of [time.Now()]. *)
Definition ListBackups (m : FileSystemBackupManager) (releaseName : string)
  (now : Z) (c : cluster)
  : option ((list BackupMetadata * option error) * cluster) :=
  match ListBackupsFunc m with
  | Some f => f releaseName c
  | None =>
      let listed id t :=
        {| BackupID := id; Timestamp := t; ReleaseName := releaseName;
           ChartName := "listchart"; ChartVersion := "1.0.0";
           AppVersion := "1.0"; Description := ""; Status := "";
           Size := 0%Z; Tags := []; CustomMeta := ∅; Values := ∅ |} in
      if String.eqb releaseName "list-test-release"
      then
        Some (([ listed "mock-backup-id-3" now;
                 listed "mock-backup-id-2" (now + -10 * Millisecond)%Z;
                 listed "mock-backup-id-1" (now + -20 * Millisecond)%Z ],
               None), c)
      else
        Some (([ {| BackupID := "default-mock-id"; Timestamp := now;
                    ReleaseName := releaseName; ChartName := "mock-chart";
                    ChartVersion := "0.1.0"; AppVersion := "";
                    Description := ""; Status := ""; Size := 0%Z;
                    Tags := []; CustomMeta := ∅; Values := ∅ |} ], None), c)
  end.

(** [GetBackupDetails]: the chart path, the values file path, the metadata
    and the error. *)
Definition GetBackupDetails (m : FileSystemBackupManager)
  (releaseName backupID : string) (now : Z) (c : cluster)
  : option ((string * string * BackupMetadata * option error) * cluster) :=
  match GetBackupDetailsFunc m with
  | Some f => f releaseName backupID c
  | None =>
      if String.eqb releaseName "non-existent-release"
         || String.eqb backupID "non-existent-backup-id"
      then Some (("", "", no_metadata,
                  Some ("backup " +:+ releaseName +:+ "/" +:+ backupID
                        +:+ " not found")), c)
      else
        let chartName := "detailschart" in
        let chartName :=
          if negb (String.eqb releaseName "details-test-release")
          then "mock-chart-details" else chartName in
        let mockValues : gmap string value :=
          <["mockKey" := VString "mockValueFromGetDetails"]> ∅ in
        let '(chartName, mockValues) :=
          if String.eqb releaseName "restore-test-release"
             && String.eqb backupID "mock-restore-backup-id"
          then ("restorechart", <["replicaCount" := VInt 3]> ∅)
          else if String.eqb releaseName "upgrade-test-release"
                  && String.eqb backupID "mock-upgrade-backup-id"
          then ("upgradechart", <["image" := VString "newimage"]> ∅)
          else (chartName, mockValues) in
        let metadata :=
          {| BackupID := backupID; Timestamp := now;
             ReleaseName := releaseName; ChartName := chartName;
             ChartVersion := "0.2.0"; AppVersion := "2.0";
             Description := ""; Status := ""; Size := 0%Z; Tags := [];
             CustomMeta := ∅; Values := mockValues |} in
        Some (("/mocked/chart/path/" +:+ backupID,
               "/mocked/values/path/" +:+ backupID +:+ ".yaml",
               metadata, None), c)
  end.

(** [m.logger(format, v...)]: a nil function panics. *)
Definition call_logger (m : FileSystemBackupManager) (format : string)
  (args : list string) (c : cluster) : option cluster :=
  match logger m with
  | Some f => Some (f format args c)
  | None => None
  end.

(** [RestoreRelease].  The context argument is not read and is left out;
    [helmClient] is a client that is not nil. *)
Definition RestoreRelease (m : FileSystemBackupManager)
  (helmClient : HelmClient) (namespace releaseName backupID : string)
  (createNamespace wait : bool) (timeout : Z) (now : Z) (c : cluster)
  : option ((option ReleaseInfo * option error) * cluster) :=
  match RestoreReleaseFunc m with
  | Some f =>
      f helmClient namespace releaseName backupID createNamespace wait
        timeout c
  | None =>
      match GetBackupDetails m releaseName backupID now c with
      | None => None
      | Some ((chartPath, _, metadata, Some err), c) =>
          Some ((None,
                 Some ("failed to get backup details for restore: " +:+ err)),
                c)
      | Some ((chartPath, _, metadata, None), c) =>
          let '((_, err), c) :=
            UninstallRelease helmClient namespace releaseName false timeout
              c in
          let logged :=
            match err with
            | Some err =>
                call_logger m
                  "Mock Restore: UninstallRelease failed (continuing for mock): %v"
                  [err] c
            | None => Some c
            end in
          match logged with
          | None => None
          | Some c =>
              Some (InstallChart helmClient namespace releaseName chartPath
                      (ChartVersion metadata) (Values metadata)
                      createNamespace wait timeout c)
          end
      end
  end.

(** [UpgradeToBackup]. *)
Definition UpgradeToBackup (m : FileSystemBackupManager)
  (helmClient : HelmClient) (namespace releaseName backupID : string)
  (wait : bool) (timeout : Z) (force : bool) (now : Z) (c : cluster)
  : option ((option ReleaseInfo * option error) * cluster) :=
  match UpgradeToBackupFunc m with
  | Some f =>
      f helmClient namespace releaseName backupID wait timeout force c
  | None =>
      match GetBackupDetails m releaseName backupID now c with
      | None => None
      | Some ((chartPath, _, metadata, Some err), c) =>
          Some ((None,
                 Some ("failed to get backup details for upgrade: " +:+ err)),
                c)
      | Some ((chartPath, _, metadata, None), c) =>
          Some (UpgradeRelease helmClient namespace releaseName chartPath
                  (ChartVersion metadata) (Values metadata) wait timeout
                  true force c)
      end
  end.

Definition DeleteBackup (m : FileSystemBackupManager)
  (releaseName backupID : string) (c : cluster)
  : option (option error * cluster) :=
  match DeleteBackupFunc m with
  | Some f => f releaseName backupID c
  | None =>
      if String.eqb releaseName "non-existent-release-del"
         || String.eqb backupID "non-existent-id-del"
      then Some (Some "mock error: backup not found for deletion", c)
      else Some (None, c)
  end.

Definition PruneBackups (m : FileSystemBackupManager) (releaseName : string)
  (keepCount : Z) (c : cluster) : option ((Z * option error) * cluster) :=
  match PruneBackupsFunc m with
  | Some f => f releaseName keepCount c
  | None =>
      if String.eqb releaseName "prune-test-release" && (keepCount =? 2)%Z
      then Some ((3%Z, None), c)
      else Some ((1%Z, None), c)
  end.

End manager.

Arguments HelmClient : clear implicits.
Arguments FileSystemBackupManager : clear implicits.

End backupmanager.

(** ** The command line tools: values for charts

    [loadValues] of backupctl and [loadValuesForInstantiation] of productctl
    read a values file and then apply the [--set] pairs.  A values map is a
    tree of [AMap] nodes; the map at the root may be nil ([None]), which an
    assignment into it turns into a panic. *)

Module setflag.

(** The loop over the keys of one pair, on a map that is not nil: the walk
    down the nested maps, creating the missing ones, and the assignment at
    the last key.  [conflict kv0 k] is the error for a key that holds
    something other than a map.  The result is the updated map or the
    error. *)
Fixpoint set_keys (conflict : string → string → error) (kv0 : string)
  (keys : list string) (value : string) (currentMap : gmap string any)
  : gmap string any + error :=
  match keys with
  | [] => inl currentMap
  | [k] => inl (<[k := AString value]> currentMap)
  | k :: keys' =>
      let currentMap :=
        match currentMap !! k with
        | None => <[k := AMap ∅]> currentMap
        | Some _ => currentMap
        end in
      match currentMap !! k with
      | Some (AMap child) =>
          match set_keys conflict kv0 keys' value child with
          | inl child' => inl (<[k := AMap child']> currentMap)
          | inr err => inr err
          end
      | _ => inr (conflict kv0 k)
      end
  end.

(** One pair.  [None] is a panic: an assignment into the nil map. *)
Definition set_pair (malformed : string → error)
  (conflict : string → string → error) (pair : string)
  (base : option (gmap string any))
  : option (option (gmap string any) + error) :=
  match strings.SplitN pair "="%char 2 with
  | [kv0; kv1] =>
      let keys := strings.Split kv0 "."%char in
      match base with
      | Some currentMap =>
          match set_keys conflict kv0 keys kv1 currentMap with
          | inl m => Some (inl (Some m))
          | inr err => Some (inr err)
          end
      | None =>
          match keys with
          | [] => Some (inl None)
          | _ :: _ => None
          end
      end
  | _ => Some (inr (malformed pair))
  end.

(** The loop over the pairs; it stops at the first error. *)
Fixpoint set_pairs (malformed : string → error)
  (conflict : string → string → error) (pairs : list string)
  (base : option (gmap string any))
  : option (option (gmap string any) + error) :=
  match pairs with
  | [] => Some (inl base)
  | kv :: pairs' =>
      match set_pair malformed conflict kv base with
      | Some (inl base) => set_pairs malformed conflict pairs' base
      | Some (inr err) => Some (inr err)
      | None => None
      end
  end.

End setflag.

Module productctl.

Definition malformed (pair : string) : error :=
  "invalid --set format: '" +:+ pair +:+ "'. Expected key=value".

(** The error for a key that holds no map.  The failed type assertion has
    left [currentMap] nil by then, so the value the message prints is the nil
    interface, whatever the key holds. *)
Definition conflict (kv0 k : string) : error :=
  "invalid key structure in --set '" +:+ kv0 +:+ "': '" +:+ k
  +:+ "' is not a map, but holds value '<nil>'".

Section files.

(** [os.ReadFile], and [yaml.Unmarshal] and [json.Unmarshal] into a pointer
    to a map: from the bytes and the map the pointer holds, the map it holds
    afterwards and the error. *)
Variable os_ReadFile : string → string * option error.
Variable yaml_Unmarshal json_Unmarshal :
  string → option (gmap string any)
  → option (gmap string any) * option error.

(** [loadValuesForInstantiation]: the map and the error, or [None] for a
    panic. *)
Definition loadValuesForInstantiation (valuesFile setValues : string)
  : option (option (gmap string any) * option error) :=
  let base : option (gmap string any) := Some ∅ in
  let loaded : option (gmap string any) + error :=
    if negb (String.eqb valuesFile "")
    then
      let '(bytes, err) := os_ReadFile valuesFile in
      match err with
      | Some err =>
          inr ("failed to read values file " +:+ valuesFile +:+ ": " +:+ err)
      | None =>
          let '(base, errYaml) := yaml_Unmarshal bytes base in
          match errYaml with
          | Some errYaml =>
              let base : option (gmap string any) := Some ∅ in
              let '(base, errJson) := json_Unmarshal bytes base in
              match errJson with
              | Some errJson =>
                  inr ("failed to parse values file " +:+ valuesFile
                       +:+ " as YAML or JSON. YAML err: " +:+ errYaml
                       +:+ ", JSON err: " +:+ errJson)
              | None => inl base
              end
          | None => inl base
          end
      end
    else inl base in
  match loaded with
  | inr err => Some (None, Some err)
  | inl base =>
      if negb (String.eqb setValues "")
      then
        let pairs := strings.Split setValues ","%char in
        match setflag.set_pairs malformed conflict pairs base with
        | Some (inl base) => Some (base, None)
        | Some (inr err) => Some (None, Some err)
        | None => None
        end
      else Some (base, None)
  end.

End files.

(** The scan of the arguments in [main]: the global flags, the command and
    the arguments of the command. *)
Fixpoint scan_args (inputArgs : list string)
  : list string * string * list string :=
  match inputArgs with
  | [] => ([], "", [])
  | arg :: rest =>
      if strings.HasPrefix arg "-"
      then
        if negb (strings.Contains arg "=")
           && (String.eqb arg "--products-dir" || String.eqb arg "--output")
        then
          match rest with
          | next :: rest' =>
              if negb (strings.HasPrefix next "-")
              then let '(globalArgs, command, commandArgs) := scan_args rest' in
                   (arg :: next :: globalArgs, command, commandArgs)
              else let '(globalArgs, command, commandArgs) := scan_args rest in
                   (arg :: globalArgs, command, commandArgs)
          | [] => ([arg], "", [])
          end
        else let '(globalArgs, command, commandArgs) := scan_args rest in
             (arg :: globalArgs, command, commandArgs)
      else ([], arg, rest)
  end.

End productctl.

Module backupctl.

Definition malformed (pair : string) : error :=
  "invalid --set format: " +:+ pair +:+ ". Expected key=value".

Definition conflict (kv0 k : string) : error :=
  "invalid --set key structure: " +:+ kv0 +:+ " creates conflict at " +:+ k.

Section files.

Variable os_ReadFile : string → string * option error.
Variable yaml_Unmarshal :
  string → option (gmap string any)
  → option (gmap string any) * option error.

(** [loadValues] of backupctl: the pairs are collected in a map of their
    own, whose entries are then assigned into the map of the file. *)
Definition loadValues (valuesFile setValues : string)
  : option (option (gmap string any) * option error) :=
  let base : option (gmap string any) := Some ∅ in
  let loaded : option (gmap string any) + error :=
    if negb (String.eqb valuesFile "")
    then
      let '(bytes, err) := os_ReadFile valuesFile in
      match err with
      | Some err =>
          inr ("failed to read values file " +:+ valuesFile +:+ ": " +:+ err)
      | None =>
          let '(base, err) := yaml_Unmarshal bytes base in
          match err with
          | Some err =>
              inr ("failed to parse values file " +:+ valuesFile +:+ ": "
                   +:+ err)
          | None => inl base
          end
      end
    else inl base in
  match loaded with
  | inr err => Some (None, Some err)
  | inl base =>
      if negb (String.eqb setValues "")
      then
        let vals : option (gmap string any) := Some ∅ in
        let pairs := strings.Split setValues ","%char in
        match setflag.set_pairs malformed conflict pairs vals with
        | Some (inl vals) =>
            let vals := default ∅ vals in
            match base with
            | Some base =>
                Some (Some (map_fold (λ k v base, <[k := v]> base) base vals),
                      None)
            | None =>
                if decide (vals = ∅) then Some (None, None) else None
            end
        | Some (inr err) => Some (None, Some err)
        | None => None
        end
      else Some (base, None)
  end.

End files.

End backupctl.

Module helmctl.

(** [indentString]: every line of [s], the trailing line breaks apart,
    with [indent] before it. *)
Definition indentString (s indent : string) : string :=
  let lines := strings.Split (strings.TrimRight s "010"%char) "010"%char in
  let lines := map (λ line, indent +:+ line) lines in
  strings.Join lines (String "010"%char EmptyString).

End helmctl.

(** ** Shapes of templates

    The predicates the statements about [resolveValue] use to describe a
    template. *)

Module template.

(** A closing brace or a line break occurs in [s]. *)
Fixpoint has_close (s : string) : bool :=
  match s with
  | EmptyString => false
  | String c s' =>
      Ascii.eqb c "}"%char || Ascii.eqb c re.newline || has_close s'
  end.

(** A name a placeholder can hold: no closing brace and no line break. *)
Definition plain_name (name : string) : bool := negb (has_close name).

(** Every opening "${" in [s] is followed, later in [s], by a closing
    brace or a line break: no placeholder is left open at the end. *)
Fixpoint closed_text (s : string) : bool :=
  match s with
  | EmptyString => true
  | String _ s' =>
      (negb (strings.HasPrefix s "${") || has_close s') && closed_text s'
  end.

(** The last character of [s] is [a]. *)
Fixpoint ends_with (a : ascii) (s : string) : bool :=
  match s with
  | EmptyString => false
  | String c EmptyString => Ascii.eqb c a
  | String _ s' => ends_with a s'
  end.

Fixpoint no_char (a : ascii) (s : string) : bool :=
  match s with
  | EmptyString => true
  | String c s' => negb (Ascii.eqb c a) && no_char a s'
  end.

(** A name written after a bare dollar sign: it is not empty, it does not
    start with an opening brace, and it holds no dollar sign. *)
Definition bare_name (name : string) : bool :=
  match name with
  | EmptyString => false
  | String a _ => negb (Ascii.eqb a "{"%char) && no_char "$"%char name
  end.

End template.

(** ** Shapes of paths *)

Module pathshape.

(** An element of a path that names a file or a directory: it is not empty,
    holds no separator, and is neither "." nor "..". *)
Definition plain_element (e : string) : bool :=
  filepath.nonempty e
  && template.no_char filepath.Separator e
  && negb (String.eqb e ".")
  && negb (String.eqb e "..").

End pathshape.

(** ** The Go [unicode/utf8] and [encoding/json] functions behind [ToJSON]

    [json.MarshalIndent] as Go 1.22 writes the values of the package, and
    [json.Unmarshal] into a map of [interface{}], on texts without
    numbers.  Maps and slices are taken as made, not nil. *)

Module utf8.

(** The byte [b] lies in the range from [lo] to [hi]. *)
Definition between (lo hi : N) (b : ascii) : bool :=
  (lo <=? N_of_ascii b)%N && (N_of_ascii b <=? hi)%N.

(** The first byte of an encoding: the number of bytes that follow it and
    the range the first of them lies in; [None] for a byte that starts no
    encoding. *)
Definition first (b : ascii) : option (nat * (N * N)) :=
  let n := N_of_ascii b in
  if (n <? 0x80)%N then Some (0, (0, 0)%N)
  else if (n <? 0xC2)%N then None
  else if (n <? 0xE0)%N then Some (1, (0x80, 0xBF)%N)
  else if (n =? 0xE0)%N then Some (2, (0xA0, 0xBF)%N)
  else if (n =? 0xED)%N then Some (2, (0x80, 0x9F)%N)
  else if (n <? 0xF0)%N then Some (2, (0x80, 0xBF)%N)
  else if (n =? 0xF0)%N then Some (3, (0x90, 0xBF)%N)
  else if (n <? 0xF4)%N then Some (3, (0x80, 0xBF)%N)
  else if (n =? 0xF4)%N then Some (3, (0x80, 0x8F)%N)
  else None.

(** The first [n] bytes of [s] are continuation bytes. *)
Fixpoint continuation (n : nat) (s : string) : bool :=
  match n with
  | 0 => true
  | S n' =>
      match s with
      | String b s' => between 0x80 0xBF b && continuation n' s'
      | EmptyString => false
      end
  end.

(** The width [utf8.DecodeRuneInString] returns for the valid encoding at
    the head of [s]; 0 when [s] is empty or starts with no valid encoding,
    where it returns [RuneError]. *)
Definition size (s : string) : nat :=
  match s with
  | EmptyString => 0
  | String b s' =>
      match first b with
      | None => 0
      | Some (0, _) => 1
      | Some (S n, (lo, hi)) =>
          match s' with
          | String b1 s'' =>
              if between lo hi b1 && continuation n s'' then S (S n) else 0
          | EmptyString => 0
          end
      end
  end.

(** [utf8.ValidString], with the number of bytes of the current encoding
    still to pass. *)
Fixpoint valid_from (skip : nat) (s : string) : bool :=
  match s with
  | EmptyString => true
  | String b s' =>
      match skip with
      | S k => valid_from k s'
      | 0 =>
          match size s with
          | 0 => false
          | S k => valid_from k s'
          end
      end
  end.

Definition ValidString (s : string) : bool := valid_from 0 s.

Definition byte (n : N) : ascii := ascii_of_N n.

(** U+FFFD, the replacement character, encoded. *)
Definition replacement : string :=
  String (byte 0xEF) (String (byte 0xBF) (String (byte 0xBD) EmptyString)).

(** [utf8.EncodeRune], by the bytes it writes. *)
Definition EncodeRune (r : N) : string :=
  if (r <? 0x80)%N then String (byte r) EmptyString
  else if (r <? 0x800)%N
  then String (byte (N.lor 0xC0 (N.shiftr r 6)))
         (String (byte (N.lor 0x80 (N.land r 0x3F))) EmptyString)
  else if (0xD800 <=? r)%N && (r <=? 0xDFFF)%N then replacement
  else if (r <? 0x10000)%N
  then String (byte (N.lor 0xE0 (N.shiftr r 12)))
         (String (byte (N.lor 0x80 (N.land (N.shiftr r 6) 0x3F)))
            (String (byte (N.lor 0x80 (N.land r 0x3F))) EmptyString))
  else if (r <=? 0x10FFFF)%N
  then String (byte (N.lor 0xF0 (N.shiftr r 18)))
         (String (byte (N.lor 0x80 (N.land (N.shiftr r 12) 0x3F)))
            (String (byte (N.lor 0x80 (N.land (N.shiftr r 6) 0x3F)))
               (String (byte (N.lor 0x80 (N.land r 0x3F))) EmptyString)))
  else replacement.

End utf8.

Module json.

(** The values [json.Unmarshal] stores in an [interface{}]: nil, [bool],
    [string], [[]interface{}] and [map[string]interface{}]. *)
#[warnings="-register-all"] Inductive value : Type :=
  | Null
  | Bool (b : bool)
  | Str (s : string)
  | Array (l : list value)
  | Object (m : gmap string value).

Definition quote_mark : ascii := "034"%char.
Definition backslash : ascii := "\"%char.

(** *** The encoder *)

Definition hex_digit (n : N) : ascii :=
  match String.get (N.to_nat n) "0123456789abcdef" with
  | Some c => c
  | None => "0"%char
  end.

(** [htmlSafeSet]: the bytes below 0x80 that are written as they are. *)
Definition htmlSafe (b : ascii) : bool :=
  utf8.between 0x20 0x7F b
  && negb (Ascii.eqb b quote_mark) && negb (Ascii.eqb b backslash)
  && negb (Ascii.eqb b "&") && negb (Ascii.eqb b "<")
  && negb (Ascii.eqb b ">").

(** The escape of a byte below 0x80 that is not written as it is. *)
Definition escape (b : ascii) : string :=
  if Ascii.eqb b backslash || Ascii.eqb b quote_mark
  then String backslash (String b EmptyString)
  else if Ascii.eqb b "008" then "\b"
  else if Ascii.eqb b "012" then "\f"
  else if Ascii.eqb b "010" then "\n"
  else if Ascii.eqb b "013" then "\r"
  else if Ascii.eqb b "009" then "\t"
  else "\u00" +:+ String (hex_digit (N.shiftr (N_of_ascii b) 4))
                    (String (hex_digit (N.land (N_of_ascii b) 0xF))
                       EmptyString).

(** U+2028 and U+2029, encoded. *)
Definition line_separator : string :=
  String (utf8.byte 0xE2) (String (utf8.byte 0x80)
    (String (utf8.byte 0xA8) EmptyString)).
Definition paragraph_separator : string :=
  String (utf8.byte 0xE2) (String (utf8.byte 0x80)
    (String (utf8.byte 0xA9) EmptyString)).

(** The loop of [appendString] with [escapeHTML] set; [skip] counts the
    bytes of the current encoding still to pass. *)
Fixpoint string_from (skip : nat) (s : string) : string :=
  match s with
  | EmptyString => EmptyString
  | String b s' =>
      match skip with
      | S k => string_from k s'
      | 0 =>
          if (N_of_ascii b <? 0x80)%N
          then (if htmlSafe b then String b EmptyString else escape b)
               +:+ string_from 0 s'
          else
            match utf8.size s with
            | 0 => "\ufffd" +:+ string_from 0 s'
            | S k =>
                (if strings.HasPrefix s line_separator then "\u2028"
                 else if strings.HasPrefix s paragraph_separator
                 then "\u2029"
                 else String.substring 0 (S k) s)
                +:+ string_from k s'
            end
      end
  end.

(** [appendString]: the JSON string for [s]. *)
Definition appendString (s : string) : string :=
  String quote_mark (string_from 0 s +:+ String quote_mark EmptyString).

(** [depth] copies of the indent. *)
Fixpoint indents (indent : string) (depth : nat) : string :=
  match depth with
  | 0 => EmptyString
  | S depth' => indent +:+ indents indent depth'
  end.

(** [appendNewline]: a line break, the prefix and [depth] copies of the
    indent. *)
Definition newline (prefix indent : string) (depth : nat) : string :=
  String "010" (prefix +:+ indents indent depth).

(** At which place a member comes: the keys are sorted as byte strings. *)
Fixpoint insert_member {A} (kv : string * A) (l : list (string * A))
  : list (string * A) :=
  match l with
  | [] => [kv]
  | kv' :: l' =>
      if String.leb kv.1 kv'.1 then kv :: l else kv' :: insert_member kv l'
  end.

Definition sort_members {A} (l : list (string * A)) : list (string * A) :=
  foldr insert_member [] l.

Section indent.

Variable prefix indent : string.

(** An object of members already written, as [Indent] lays it out. *)
Definition object_text (depth : nat) (members : list (string * string))
  : string :=
  match members with
  | [] => "{}"
  | _ :: _ =>
      "{" +:+ newline prefix indent (S depth)
      +:+ strings.Join
            ((λ kv, appendString kv.1 +:+ ": " +:+ kv.2) <$> members)
            ("," +:+ newline prefix indent (S depth))
      +:+ newline prefix indent depth +:+ "}"
  end.

(** An array of elements already written. *)
Definition array_text (depth : nat) (elements : list string) : string :=
  match elements with
  | [] => "[]"
  | _ :: _ =>
      "[" +:+ newline prefix indent (S depth)
      +:+ strings.Join elements ("," +:+ newline prefix indent (S depth))
      +:+ newline prefix indent depth +:+ "]"
  end.

(** The text of a value at a depth of nesting. *)
Fixpoint encode (depth : nat) (v : any) : string :=
  match v with
  | AString s => appendString s
  | ABool b => if b then "true" else "false"
  | AStrings l => array_text depth (appendString <$> l)
  | AStringMap m =>
      object_text depth (sort_members (map_to_list (appendString <$> m)))
  | ANestedMap m =>
      object_text depth
        (sort_members
           (map_to_list
              ((λ m',
                  object_text (S depth)
                    (sort_members (map_to_list (appendString <$> m'))))
               <$> m)))
  | AMap m =>
      object_text depth (sort_members (map_to_list (encode (S depth) <$> m)))
  end.

End indent.

(** [json.MarshalIndent] of a map of the values above. *)
Definition MarshalIndent (v : gmap string any) (prefix indent : string)
  : string * option error :=
  (encode prefix indent 0 (AMap v), None).

(** *** The decoder *)

Definition is_space (c : ascii) : bool :=
  Ascii.eqb c " " || Ascii.eqb c "009" || Ascii.eqb c "013"
  || Ascii.eqb c "010".

Fixpoint skip_space (s : string) : string :=
  match s with
  | String c s' => if is_space c then skip_space s' else s
  | EmptyString => EmptyString
  end.

Definition hex_value (c : ascii) : option N :=
  let n := N_of_ascii c in
  if utf8.between 48 57 c then Some (n - 48)%N
  else if utf8.between 97 102 c then Some (n - 87)%N
  else if utf8.between 65 70 c then Some (n - 55)%N
  else None.

(** [getu4] on the text after the backslash: the number the four
    hexadecimal digits after the [u] stand for. *)
Definition getu4 (s : string) : option N :=
  match s with
  | String u (String a (String b (String c (String d _)))) =>
      if Ascii.eqb u "u" then
        match hex_value a, hex_value b, hex_value c, hex_value d with
        | Some a, Some b, Some c, Some d =>
            Some (a * 4096 + b * 256 + c * 16 + d)%N
        | _, _, _, _ => None
        end
      else None
  | _ => None
  end.

Definition prepend (t : string) (r : option (string * string))
  : option (string * string) :=
  match r with
  | Some (d, rest) => Some (t +:+ d, rest)
  | None => None
  end.

(** The escape that starts at the head of [s], the text after a backslash:
    the bytes it stands for and its length. *)
Definition unescape (s : string) : option (string * nat) :=
  match s with
  | EmptyString => None
  | String e s' =>
      if Ascii.eqb e quote_mark || Ascii.eqb e backslash || Ascii.eqb e "/"
      then Some (String e EmptyString, 1)
      else if Ascii.eqb e "b" then Some (String "008" EmptyString, 1)
      else if Ascii.eqb e "f" then Some (String "012" EmptyString, 1)
      else if Ascii.eqb e "n" then Some (String "010" EmptyString, 1)
      else if Ascii.eqb e "r" then Some (String "013" EmptyString, 1)
      else if Ascii.eqb e "t" then Some (String "009" EmptyString, 1)
      else
        match getu4 s with
        | None => None
        | Some rr =>
            if (0xD800 <=? rr)%N && (rr <? 0xE000)%N
            then
              match strings.drop 5 s with
              | String b s'' =>
                  match (if Ascii.eqb b backslash then getu4 s'' else None)
                  with
                  | Some rr1 =>
                      if (rr <? 0xDC00)%N && (0xDC00 <=? rr1)%N
                         && (rr1 <? 0xE000)%N
                      then Some (utf8.EncodeRune
                                   (N.lor (N.shiftl (rr - 0xD800) 10)
                                      (rr1 - 0xDC00) + 0x10000), 11)
                      else Some (utf8.replacement, 5)
                  | None => Some (utf8.replacement, 5)
                  end
              | EmptyString => Some (utf8.replacement, 5)
              end
            else Some (utf8.EncodeRune rr, 5)
        end
  end.

(** The text of a string after its opening quotation mark: the string it
    stands for and the text after the closing quotation mark.  [skip]
    counts the bytes already read. *)
Fixpoint unquote_from (skip : nat) (s : string) : option (string * string) :=
  match s with
  | EmptyString => None
  | String c s' =>
      match skip with
      | S k => unquote_from k s'
      | 0 =>
          if Ascii.eqb c quote_mark then Some (EmptyString, s')
          else if Ascii.eqb c backslash
          then
            match unescape s' with
            | Some (t, n) => prepend t (unquote_from n s')
            | None => None
            end
          else if (N_of_ascii c <? 0x20)%N then None
          else if (N_of_ascii c <? 0x80)%N
          then prepend (String c EmptyString) (unquote_from 0 s')
          else
            match utf8.size s with
            | 0 => prepend utf8.replacement (unquote_from 0 s')
            | S k => prepend (String.substring 0 (S k) s) (unquote_from k s')
            end
      end
  end.

(** [maxNestingDepth]: the scanner refuses an object or array that would
    be nested deeper. *)
Definition maxNestingDepth : N := 10000.

(** The value at the head of [s], and the text after it; [depth] counts the
    objects and arrays that are open.  A number is outside the model and is
    read as an error. *)
Fixpoint parse_value (fuel : nat) (depth : N) (s : string)
  : option (value * string) :=
  match fuel with
  | 0 => None
  | S fuel =>
      match skip_space s with
      | EmptyString => None
      | String c s' =>
          if Ascii.eqb c "{" then
            if (maxNestingDepth <=? depth)%N then None else
            match skip_space s' with
            | String c' s'' =>
                if Ascii.eqb c' "}" then Some (Object ∅, s'')
                else parse_members fuel (N.succ depth) s' ∅
            | EmptyString => None
            end
          else if Ascii.eqb c "[" then
            if (maxNestingDepth <=? depth)%N then None else
            match skip_space s' with
            | String c' s'' =>
                if Ascii.eqb c' "]" then Some (Array [], s'')
                else parse_elements fuel (N.succ depth) s' []
            | EmptyString => None
            end
          else if Ascii.eqb c quote_mark then
            match unquote_from 0 s' with
            | Some (t, rest) => Some (Str t, rest)
            | None => None
            end
          else if strings.HasPrefix (String c s') "true"
          then Some (Bool true, strings.drop 4 (String c s'))
          else if strings.HasPrefix (String c s') "false"
          then Some (Bool false, strings.drop 5 (String c s'))
          else if strings.HasPrefix (String c s') "null"
          then Some (Null, strings.drop 4 (String c s'))
          else None
      end
  end
with parse_members (fuel : nat) (depth : N) (s : string)
  (m : gmap string value)
  : option (value * string) :=
  match fuel with
  | 0 => None
  | S fuel =>
      match skip_space s with
      | EmptyString => None
      | String c s1 =>
          if Ascii.eqb c quote_mark then
            match unquote_from 0 s1 with
            | None => None
            | Some (k, s2) =>
                match skip_space s2 with
                | EmptyString => None
                | String c2 s3 =>
                    if Ascii.eqb c2 ":" then
                      match parse_value fuel depth s3 with
                      | None => None
                      | Some (v, s4) =>
                          match skip_space s4 with
                          | EmptyString => None
                          | String c4 s5 =>
                              if Ascii.eqb c4 ","
                              then parse_members fuel depth s5 (<[k := v]> m)
                              else if Ascii.eqb c4 "}"
                              then Some (Object (<[k := v]> m), s5)
                              else None
                          end
                      end
                    else None
                end
            end
          else None
      end
  end
with parse_elements (fuel : nat) (depth : N) (s : string) (l : list value)
  : option (value * string) :=
  match fuel with
  | 0 => None
  | S fuel =>
      match parse_value fuel depth s with
      | None => None
      | Some (v, s1) =>
          match skip_space s1 with
          | EmptyString => None
          | String c s2 =>
              if Ascii.eqb c ","
              then parse_elements fuel depth s2 (l ++ [v])
              else if Ascii.eqb c "]"
              then Some (Array (l ++ [v]), s2)
              else None
          end
      end
  end.

(** [json.Unmarshal] into a map of [interface{}]: the map, or [None] for an
    error.  The text null leaves the map as it is, nil. *)
Definition Unmarshal (data : string) : option (gmap string value) :=
  match parse_value (S (String.length data)) 0 data with
  | Some (v, rest) =>
      match skip_space rest with
      | EmptyString =>
          match v with
          | Object m => Some m
          | Null => Some ∅
          | _ => None
          end
      | String _ _ => None
      end
  | None => None
  end.

(** The value a value of the package is, with its typed maps and slices
    read as maps and slices of [interface{}]. *)
Fixpoint generic (v : any) : value :=
  match v with
  | AString s => Str s
  | ABool b => Bool b
  | AStrings l => Array (Str <$> l)
  | AStringMap m => Object (Str <$> m)
  | ANestedMap m => Object ((λ m', Object (Str <$> m')) <$> m)
  | AMap m => Object (generic <$> m)
  end.

(** Every string of a value, the keys included, is valid UTF-8. *)
Fixpoint valid (v : any) : bool :=
  match v with
  | AString s => utf8.ValidString s
  | ABool _ => true
  | AStrings l => forallb utf8.ValidString l
  | AStringMap m =>
      map_fold (λ k s ok, utf8.ValidString k && utf8.ValidString s && ok)
        true m
  | ANestedMap m =>
      map_fold
        (λ k m' ok,
           utf8.ValidString k
           && map_fold
                (λ k' s ok', utf8.ValidString k' && utf8.ValidString s && ok')
                true m'
           && ok)
        true m
  | AMap m => map_fold (λ k v' ok, utf8.ValidString k && valid v' && ok) true m
  end.

(** The text [t] is read as the value [v], whatever follows it, when no
    more than [maxNestingDepth] objects and arrays are open at a time; [h]
    is how deep those of [t] nest. *)
Definition reads (t : string) (v : value) (h : nat) : Prop :=
  ∀ (fuel : nat) (depth : N) (rest : string),
    String.length t ≤ fuel →
    (depth + N.of_nat h ≤ maxNestingDepth)%N →
    parse_value fuel depth (t +:+ rest) = Some (v, rest).

(** How deep the objects and arrays of a value nest. *)
Fixpoint height (v : any) : nat :=
  match v with
  | AString _ | ABool _ => 0
  | AStrings _ | AStringMap _ => 1
  | ANestedMap m => S (map_fold (λ _ _ h, 1 `max` h) 0 m)
  | AMap m => S (map_fold (λ _ v' h, height v' `max` h) 0 m)
  end.

(** The number of constructors of a value. *)
Fixpoint weight (v : any) : nat :=
  match v with
  | AMap m => S (map_fold (λ _ v' n, weight v' + n) 0 m)
  | _ => 1
  end.

End json.

(** ** Package [k8sutils] (the mock) *)

Module k8sutils.

Module GroupVersionResource.
Record t : Type := mk { Group : string; Version : string; Resource : string }.
End GroupVersionResource.

(** The resource attributes of a [SelfSubjectAccessReview]. *)
Module ResourceAttributes.
Record t : Type := mk {
  Namespace : string;
  Verb : string;
  Group : string;
  Version : string;
  Resource : string
}.
End ResourceAttributes.

(** [rest.Config], by its host. *)
Module Config.
Record t : Type := mk { Host : string }.
End Config.

(** What [clientcmd] reads from a kubeconfig file: the current context and
    the contexts, a map of pointers, by their namespace. *)
Module RawConfig.
Record t : Type := mk {
  CurrentContext : string;
  Contexts : gmap string (option string)
}.
End RawConfig.

(** The double quote of a message. *)
Definition quote : string := String (Ascii.ascii_of_nat 34) EmptyString.

(** The process environment [GetCurrentNamespace] reads: the variables, the
    home directory, whether [os.Stat] reports a path as not existing, and
    the kubeconfig loaded from a path. *)
Record env : Type := mkEnv {
  Getenv : string → string;
  UserHomeDir : string * option error;
  IsNotExist : string → bool;
  LoadRawConfig : string → RawConfig.t * option error
}.

Section auth.

(** The state of the cluster the reviews are created in. *)
Context {cluster : Type}.

(** A [kubernetes.Interface], by the one call the package makes: the
    creation of a [SelfSubjectAccessReview], which answers with the
    [Status.Allowed] of the response and the error. *)
Record Clientset : Type := mkClientset {
  Create : ResourceAttributes.t → cluster → (bool * option error) * cluster
}.

(** [fake.NewSimpleClientset()]. *)
Variable fake_NewSimpleClientset : Clientset.

Record AuthUtil : Type := mkAuthUtil {
  clientset : option Clientset;
  config : option Config.t;
  inCluster : bool;
  GetKubeConfigFunc : option (option Config.t * option error);
  GetClientsetFunc : option (option Clientset * option error);
  IsRunningInClusterFunc : option bool;
  GetCurrentNamespaceFunc : option (string * option error);
  CheckNamespacePermissionsFunc :
    option (string → GroupVersionResource.t → list string → cluster
            → (option (gmap string bool) * option error) * cluster);
  CanPerformClusterActionFunc :
    option (GroupVersionResource.t → string → cluster
            → (bool * option error) * cluster)
}.

Definition NewAuthUtil : option AuthUtil * option error :=
  (Some {| clientset := Some fake_NewSimpleClientset;
           config := Some (Config.mk "mock-kube-api-server");
           inCluster := false;
           GetKubeConfigFunc := None;
           GetClientsetFunc := None;
           IsRunningInClusterFunc := None;
           GetCurrentNamespaceFunc := None;
           CheckNamespacePermissionsFunc := None;
           CanPerformClusterActionFunc := None |},
   None).

Definition GetKubeConfig (u : AuthUtil) : option Config.t * option error :=
  match GetKubeConfigFunc u with
  | Some f => f
  | None =>
      match config u with
      | None => (Some (Config.mk "mock-host-default"), None)
      | Some cfg => (Some cfg, None)
      end
  end.

Definition GetClientset (u : AuthUtil) : option Clientset * option error :=
  match GetClientsetFunc u with
  | Some f => f
  | None =>
      match clientset u with
      | None => (Some fake_NewSimpleClientset, None)
      | Some cs => (Some cs, None)
      end
  end.

Definition IsRunningInCluster (u : AuthUtil) : bool :=
  match IsRunningInClusterFunc u with
  | Some f => f
  | None => inCluster u
  end.

Definition GetCurrentNamespace (u : AuthUtil) (e : env)
  : string * option error :=
  match GetCurrentNamespaceFunc u with
  | Some f => f
  | None =>
      if IsRunningInCluster u
         && negb (String.eqb (Getenv e "KUBERNETES_SERVICE_HOST") "")
      then ("kube-system", None)
      else
        let kubeconfigPath := Getenv e "KUBECONFIG" in
        let located : string + error :=
          if String.eqb kubeconfigPath ""
          then
            let '(home, err) := UserHomeDir e in
            match err with
            | Some err => inr err
            | None => inl (filepath.Join [home; ".kube"; "config"])
            end
          else inl kubeconfigPath in
        match located with
        | inr err =>
            ("default",
             Some ("mock: failed to get user home directory: " +:+ err))
        | inl kubeconfigPath =>
            if IsNotExist e kubeconfigPath then ("default", None)
            else
              let '(kcfg, err) := LoadRawConfig e kubeconfigPath in
              match err with
              | Some err =>
                  ("default",
                   Some ("mock: error loading kubeconfig for namespace: "
                         +:+ err +:+ ", falling back to " +:+ quote
                         +:+ "default" +:+ quote))
              | None =>
                  if String.eqb (RawConfig.CurrentContext kcfg) ""
                  then ("default", None)
                  else
                    match
                      RawConfig.Contexts kcfg
                        !! RawConfig.CurrentContext kcfg
                    with
                    | Some (Some namespace) =>
                        if String.eqb namespace "" then ("default", None)
                        else (namespace, None)
                    | _ => ("default", None)
                    end
              end
        end
  end.

(** One round of the loop over the verbs. *)
Definition review_verb (cs : Clientset) (namespace : string)
  (resourceGV : GroupVersionResource.t)
  (acc : gmap string bool * cluster) (verb : string)
  : gmap string bool * cluster :=
  let '(results, c) := acc in
  let sar :=
    ResourceAttributes.mk namespace verb
      (GroupVersionResource.Group resourceGV)
      (GroupVersionResource.Version resourceGV)
      (GroupVersionResource.Resource resourceGV) in
  let '((allowed, errAuth), c) := Create cs sar c in
  match errAuth with
  | Some _ => (<[verb := false]> results, c)
  | None => (<[verb := allowed]> results, c)
  end.

Definition CheckNamespacePermissions (u : AuthUtil) (namespace : string)
  (resourceGV : GroupVersionResource.t) (verbs : list string) (c : cluster)
  : (option (gmap string bool) * option error) * cluster :=
  match CheckNamespacePermissionsFunc u with
  | Some f => f namespace resourceGV verbs c
  | None =>
      let '(cs, err) := GetClientset u in
      match err with
      | Some err =>
          ((None,
            Some ("mock AuthUtil: failed to get clientset for CheckNamespacePermissions: "
                  +:+ err)), c)
      | None =>
          match cs with
          | None =>
              ((None,
                Some "mock AuthUtil: clientset is nil in CheckNamespacePermissions"),
               c)
          | Some cs =>
              let '(results, c) :=
                foldl (review_verb cs namespace resourceGV) (∅, c) verbs in
              ((Some results, None), c)
          end
      end
  end.

Definition CanPerformClusterAction (u : AuthUtil)
  (resourceGV : GroupVersionResource.t) (verb : string) (c : cluster)
  : (bool * option error) * cluster :=
  match CanPerformClusterActionFunc u with
  | Some f => f resourceGV verb c
  | None =>
      let '(cs, err) := GetClientset u in
      match err with
      | Some err =>
          ((false,
            Some ("mock AuthUtil: failed to get clientset for CanPerformClusterAction: "
                  +:+ err)), c)
      | None =>
          match cs with
          | None =>
              ((false,
                Some "mock AuthUtil: clientset is nil in CanPerformClusterAction"),
               c)
          | Some cs =>
              let sar :=
                ResourceAttributes.mk "" verb
                  (GroupVersionResource.Group resourceGV)
                  (GroupVersionResource.Version resourceGV)
                  (GroupVersionResource.Resource resourceGV) in
              let '((allowed, errAuth), c) := Create cs sar c in
              match errAuth with
              | Some errAuth =>
                  ((false,
                    Some ("mock: failed to perform SelfSubjectAccessReview for verb 	"
                          +:+ verb +:+ " on cluster resource 	"
                          +:+ GroupVersionResource.Resource resourceGV
                          +:+ ": " +:+ errAuth)), c)
              | None => ((allowed, None), c)
              end
          end
      end
  end.

End auth.

Arguments Clientset : clear implicits.
Arguments AuthUtil : clear implicits.

End k8sutils.

(** ** Paths into nested values, and the pairs of a [--set] flag *)

Module valuepath.

(** The value at a path of keys in nested maps, as [m[k1][k2]...] reads
    it. *)
Fixpoint get (keys : list string) (m : gmap string any) : option any :=
  match keys with
  | [] => None
  | [k] => m !! k
  | k :: keys' =>
      match m !! k with
      | Some (AMap child) => get keys' child
      | _ => None
      end
  end.

(** Two paths part ways: they agree up to a position where both have a key
    and the keys differ. *)
Fixpoint diverge (p q : list string) : bool :=
  match p, q with
  | k :: p', j :: q' => if String.eqb k j then diverge p' q' else true
  | _, _ => false
  end.

End valuepath.

Module flagshape.

(** A key without comma, equals sign and dot, and a value without comma. *)
Definition plain_key (k : string) : bool :=
  template.no_char ","%char k && template.no_char "="%char k
  && template.no_char "."%char k.

Definition plain_value (v : string) : bool := template.no_char ","%char v.

Definition plain_pair (kv : string * string) : bool :=
  plain_key kv.1 && plain_value kv.2.

(** The text [key=value] of a pair. *)
Definition encode (kv : string * string) : string := kv.1 +:+ "=" +:+ kv.2.

(** The entry a pair with a plain key stands for. *)
Definition assign (m : gmap string any) (kv : string * string)
  : gmap string any :=
  <[kv.1 := AString kv.2]> m.

End flagshape.

(** ** Concrete inputs *)

Module examples.

(** The chained references of [TestResolveValue]. *)
Definition chain_context : gmap string string :=
  <["A" := "${B}"]> (<["B" := "${C}"]> (<["C" := "resolved_c"]> ∅)).

Definition self_context : gmap string string := <["SELF" := "${SELF}"]> ∅.

Definition name_context : gmap string string := <["NAME" := "x"]> ∅.

Definition server_context : gmap string string :=
  <["SERVER_HOST" := "example.org"]> ∅.

(** A store with a raw map at address 0 and a primary context at address
    1; the key [a] is bound in both. *)
Definition raw_map : gmap string string := <["a" := "${b}${a}${c}"]> ∅.

Definition primary_map : gmap string string :=
  <["b" := "B"]> (<["a" := "x"]> ∅).

Definition two_maps : gmap nat (gmap string string) :=
  <[0 := raw_map]> (<[1 := primary_map]> ∅).

(** The configuration directory of [TestLoad_DatabaseGrouping]. *)
Definition database_files : gmap string string :=
  <["/cfg/install.conf" := "MAIN_SETTING=abc"]>
    (<["/cfg/conf/database_mysql.conf" := "MYSQL_HOST=mysqlserver"]>
       (<["/cfg/conf/database_postgres.conf" := "PG_HOST=pgserver"]> ∅)).

Definition database_world : world :=
  {| files := database_files; clock := "2024-05-01T12:00:00Z"; stdout := [] |}.

Definition grouping_enabled : configloader.Options :=
  configloader.mkOptions "/cfg" [] "" true.

Definition grouping_disabled : configloader.Options :=
  configloader.mkOptions "/cfg" [] "" false.

(** A chart with one placeholder, and the manager
    [NewFileSystemProductManager] builds for "/products". *)
Definition chart_world : world :=
  {| files := <["/products/prod/chart/values.yaml" :=
                  "replicaCount: '@{replicaCountVar}'"]> ∅;
     clock := "2024-05-01T12:00:00Z";
     stdout := [] |}.

Definition mock_manager : chartconfigmanager.FileSystemProductManager :=
  chartconfigmanager.mkManager "/products"
    (Some (chartconfigmanager.mkLogger "MOCK_CHARTCONFIGMAN: ")) None.

(** The context of [TestResolveValue]. *)
Definition test_context : gmap string string :=
  <["NAME" := "GoLang"]>
    (<["VERSION" := "1.21"]>
       (<["PROJECT" := "ConfigLoader"]>
          (<["FULLNAME" := "${PROJECT} v${VERSION}"]>
             (<["GREETING" := "Hello, $NAME!"]>
                (<["SELF" := "${SELF}"]> chain_context))))).

(** A Helm client over a log of the calls made: uninstalling fails, and
    installing and upgrading return the chart path they were given. *)
Definition recording_client : backupmanager.HelmClient string (list string) :=
  {| backupmanager.UninstallRelease := λ namespace releaseName _ _ calls,
       (("", Some "release: not found"),
        calls ++ ["uninstall " +:+ releaseName]);
     backupmanager.InstallChart := λ namespace releaseName chart _ _ _ _ _ calls,
       ((Some chart, None), calls ++ ["install " +:+ releaseName]);
     backupmanager.UpgradeRelease :=
       λ namespace releaseName chart _ _ _ _ _ _ calls,
       ((Some chart, None), calls ++ ["upgrade " +:+ releaseName]) |}.

(** A logger that records the format it is given. *)
Definition recording_logger (format : string) (args : list string)
  (calls : list string) : list string :=
  calls ++ ["log " +:+ format].

(** The backup manager [NewFileSystemBackupManager] builds for "/backups"
    with [recording_logger]. *)
Definition backup_manager
  : backupmanager.FileSystemBackupManager string (list string) :=
  backupmanager.mkManager "/backups" (Some recording_logger)
    None None None None None None None.

(** Two values files: "values.yaml", which decodes to a map with a nested
    map, and "null.yaml", whose document is null and decodes to the nil
    map. *)
Definition values_reader (name : string) : string * option error :=
  if String.eqb name "values.yaml"
  then ("image: {tag: old, pull: always}", None)
  else if String.eqb name "null.yaml" then ("null", None)
  else ("", Some ("open " +:+ name +:+ ": no such file or directory")).

Definition values_map : gmap string any :=
  <["image" := AMap (<["tag" := AString "old"]>
                       (<["pull" := AString "always"]> ∅))]> ∅.

Definition values_decoder (bytes : string) (base : option (gmap string any))
  : option (gmap string any) * option error :=
  if String.eqb bytes "image: {tag: old, pull: always}"
  then (Some values_map, None)
  else if String.eqb bytes "null" then (None, None)
  else (base, Some "cannot unmarshal the document").

(** A clientset over a log of the reviews made: reading verbs are allowed,
    "delete" fails, and anything else is refused. *)
Definition review_client : k8sutils.Clientset (list string) :=
  k8sutils.mkClientset
    (λ sar reviews,
       let verb := k8sutils.ResourceAttributes.Verb sar in
       let reviews := reviews ++ [verb] in
       if String.eqb verb "get" || String.eqb verb "list"
       then ((true, None), reviews)
       else if String.eqb verb "delete"
       then ((true, Some "the server is unavailable"), reviews)
       else ((false, None), reviews)).

Definition auth_util : k8sutils.AuthUtil (list string) :=
  k8sutils.mkAuthUtil (Some review_client) None false
    None None None None None None.

Definition pods : k8sutils.GroupVersionResource.t :=
  k8sutils.GroupVersionResource.mk "" "v1" "pods".

(** An environment whose kubeconfig names a context without namespace. *)
Definition kube_env : k8sutils.env :=
  k8sutils.mkEnv (λ _, "") ("/home/dev", None) (λ _, false)
    (λ _, (k8sutils.RawConfig.mk "dev" (<["dev" := Some ""]> ∅), None)).

(** Two lines, each closed by a line break. *)
Definition two_lines : string :=
  "name: web" +:+ String "010"%char ("tag: v2" +:+ String "010"%char "").

(** A configuration with markup, quotation marks, a line break and a
    letter outside ASCII in its strings. *)
Definition text_config : configloader.LoadedConfig :=
  {| configloader.Main := <["greeting" := "a<b & " +:+ String json.quote_mark
                               ("q" +:+ String json.quote_mark
                                  (String "010" (String (utf8.byte 0xC3)
                                     (String (utf8.byte 0xA9) ""))))]> ∅;
     configloader.DatabaseConfigs := <["mockdb" := <["host" := "localhost"]> ∅]> ∅;
     configloader.Metadata := <["parsed_files" := AStrings ["/fake/path/mock.conf"]]>
                   (<["database_grouping_enabled" := ABool true]> ∅);
     configloader.rawMainConfig := ∅;
     configloader.rawDatabaseConfigs := ∅;
     configloader.opts := configloader.mkOptions "/cfg" [] "" true |}.

(** A configuration with a byte that is not UTF-8 in a value. *)
Definition broken_config : configloader.LoadedConfig :=
  {| configloader.Main := <["k" := String (utf8.byte 0xFF) ""]> ∅;
     configloader.DatabaseConfigs := ∅;
     configloader.Metadata := ∅;
     configloader.rawMainConfig := ∅;
     configloader.rawDatabaseConfigs := ∅;
     configloader.opts := configloader.mkOptions "/cfg" [] "" false |}.

End examples.

Import configloader.

(** * Properties *)

(** ** Strings *)

Section string_facts.

Lemma app_cons c (s t : string) : String c s +:+ t = String c (s +:+ t).
Proof. reflexivity. Qed.

Lemma app_empty_l (s : string) : "" +:+ s = s.
Proof. reflexivity. Qed.

Lemma app_empty_r (s : string) : s +:+ "" = s.
Proof. induction s as [|c s IH]; [done|]. by rewrite app_cons, IH. Qed.

Lemma app_assoc_str (s t u : string) : (s +:+ t) +:+ u = s +:+ (t +:+ u).
Proof. induction s as [|c s IH]; [done|]. by rewrite !app_cons, IH. Qed.

Lemma length_app_str (s t : string) :
  String.length (s +:+ t) = String.length s + String.length t.
Proof. induction s as [|c s IH]; [done|]. rewrite app_cons. simpl. lia. Qed.

Lemma substring_skip (g t : string) m :
  String.substring (String.length g) m (g +:+ t) = String.substring 0 m t.
Proof. induction g as [|c g IH]; [done|]. rewrite app_cons. simpl. done. Qed.

Lemma substring_take (g t : string) :
  String.substring 0 (String.length g) (g +:+ t) = g.
Proof.
  induction g as [|c g IH].
  - by destruct t.
  - rewrite app_cons. simpl. by rewrite IH.
Qed.

Lemma TrimPrefix_app (p s : string) : strings.TrimPrefix (p +:+ s) p = s.
Proof.
  unfold strings.TrimPrefix, strings.HasPrefix.
  rewrite substring_take, String.eqb_refl, length_app_str.
  replace (String.length p <=? String.length p + String.length s) with true
    by (symmetry; apply Nat.leb_le; lia).
  simpl. induction p as [|c p IH]; [done|]. by rewrite app_cons.
Qed.

Lemma TrimSuffix_app (s q : string) : strings.TrimSuffix (s +:+ q) q = s.
Proof.
  unfold strings.TrimSuffix, strings.HasSuffix.
  rewrite length_app_str.
  replace (String.length s + String.length q - String.length q)
    with (String.length s) by lia.
  rewrite substring_skip, substring_take.
  replace (String.substring 0 (String.length q) q) with q.
  2:{ rewrite <-(app_empty_r q) at 3. by rewrite substring_take. }
  rewrite String.eqb_refl.
  replace (String.length q <=? String.length s + String.length q) with true
    by (symmetry; apply Nat.leb_le; lia).
  done.
Qed.

(** The name [resolveValue] looks up for the match of a placeholder. *)
Lemma trim_delimiters (g : string) :
  strings.TrimSuffix (strings.TrimPrefix ("${" +:+ g +:+ "}") "${") "}" = g.
Proof. by rewrite TrimPrefix_app, TrimSuffix_app. Qed.

Lemma HasPrefix_open c1 c2 (s : string) :
  strings.HasPrefix (String c1 (String c2 s)) "${"
  = Ascii.eqb c1 "$"%char && Ascii.eqb c2 "{"%char.
Proof.
  unfold strings.HasPrefix. simpl.
  destruct (Ascii.eqb c1 "$"), (Ascii.eqb c2 "{"); try done. by destruct s.
Qed.


Lemma HasPrefix_brace c (s : string) :
  strings.HasPrefix (String c s) "{" = Ascii.eqb c "{"%char.
Proof.
  unfold strings.HasPrefix. simpl.
  destruct (Ascii.eqb c "{"); try done. by destruct s.
Qed.

Lemma HasPrefix_sep c (s : string) :
  strings.HasPrefix (String c s) "/" = Ascii.eqb c "/"%char.
Proof.
  unfold strings.HasPrefix. simpl.
  destruct (Ascii.eqb c "/"); try done. by destruct s.
Qed.

Lemma HasPrefix_brace_dollar (a s : string) :
  strings.HasPrefix (String "$" a +:+ s) "{" = false.
Proof. by rewrite app_cons, HasPrefix_brace. Qed.

End string_facts.

(** ** The pattern and the replacement scan *)

Section pattern_facts.

Import template.

Ltac case_char c a :=
  destruct (Ascii.eqb_spec c a) as [->|?].

Lemma lazy_group_sound (s g r : string) :
  re.lazy_group s = Some (g, r) →
  s = g +:+ "}" +:+ r ∧ has_close g = false.
Proof.
  revert g r. induction s as [|c s IH]; intros g r; cbn; [done|].
  case_char c "}"%char; [intros [= <- <-]; done|].
  case_char c re.newline; [done|].
  destruct (re.lazy_group s) as [[g' r']|] eqn:Hs; [|done].
  intros [= <- <-]. destruct (IH _ _ eq_refl) as [-> Hg].
  split; [done|]. cbn.
  rewrite (proj2 (Ascii.eqb_neq _ _)), (proj2 (Ascii.eqb_neq _ _)); done.
Qed.

Lemma lazy_group_complete (g r : string) :
  has_close g = false → re.lazy_group (g +:+ "}" +:+ r) = Some (g, r).
Proof.
  induction g as [|c g IH]; cbn; [done|].
  rewrite app_cons. cbn.
  destruct (Ascii.eqb c "}"); [done|].
  destruct (Ascii.eqb c re.newline); [done|].
  cbn. intros Hg. by rewrite IH.
Qed.

Lemma lazy_group_app_some (s t g r : string) :
  re.lazy_group s = Some (g, r) → re.lazy_group (s +:+ t) = Some (g, r +:+ t).
Proof.
  intros [-> Hg]%lazy_group_sound.
  rewrite !app_assoc_str. by apply lazy_group_complete.
Qed.

Lemma lazy_group_app_none (s t : string) :
  re.lazy_group s = None → has_close s = true →
  re.lazy_group (s +:+ t) = None.
Proof.
  induction s as [|c s IH]; cbn; [done|].
  rewrite app_cons. cbn.
  destruct (Ascii.eqb c "}"); [done|].
  destruct (Ascii.eqb c re.newline); [done|].
  cbn. destruct (re.lazy_group s) as [[g r]|]; [done|].
  intros _ Hc. by rewrite IH.
Qed.

Lemma match_prefix_sound (s m r : string) :
  re.match_prefix s = Some (m, r) →
  s = m +:+ r ∧ ∃ g, m = "${" +:+ g +:+ "}" ∧ has_close g = false.
Proof.
  destruct s as [|c1 [|c2 s]]; cbn; [done..|].
  case_char c1 "$"%char; [|done].
  case_char c2 "{"%char; [|done]. cbn.
  destruct (re.lazy_group s) as [[g r']|] eqn:Hs; [|done].
  intros [= <- <-]. apply lazy_group_sound in Hs as [-> Hg].
  split; [|by exists g]. by rewrite !app_assoc_str.
Qed.

Lemma match_prefix_token (g r : string) :
  has_close g = false →
  re.match_prefix ("${" +:+ g +:+ "}" +:+ r) = Some ("${" +:+ g +:+ "}", r).
Proof.
  intros Hg. change ("${" +:+ g +:+ "}" +:+ r)
    with (String "$" (String "{" (g +:+ "}" +:+ r))).
  cbn. by rewrite lazy_group_complete.
Qed.

Lemma match_prefix_app_some (s t m r : string) :
  re.match_prefix s = Some (m, r) →
  re.match_prefix (s +:+ t) = Some (m, r +:+ t).
Proof.
  intros (-> & g & -> & Hg)%match_prefix_sound.
  rewrite !app_assoc_str. by apply match_prefix_token.
Qed.

Lemma match_prefix_app_none (s t : string) :
  re.match_prefix s = None →
  (negb (strings.HasPrefix s "${") || has_close (strings.drop 1 s)) = true →
  ends_with "$" s && strings.HasPrefix t "{" = false →
  s ≠ "" →
  re.match_prefix (s +:+ t) = None.
Proof.
  intros Hs Hc Ht Hne.
  destruct s as [|c1 [|c2 s]]; [done| |].
  - rewrite app_cons, app_empty_l. destruct t as [|c2 t]; [done|].
    rewrite HasPrefix_brace in Ht. cbn in *. by rewrite Ht.
  - rewrite !app_cons. rewrite HasPrefix_open in Hc. cbn in *.
    destruct (Ascii.eqb c1 "$" && Ascii.eqb c2 "{") eqn:Ho; [|done].
    cbn in Hc.
    destruct (re.lazy_group s) as [[g r]|] eqn:Hg; [done|].
    rewrite lazy_group_app_none; [done..|].
    apply andb_prop in Ho as [_ Ho]. apply Ascii.eqb_eq in Ho as ->.
    by cbn in Hc.
Qed.

Context (repl : string → string).

(** The characters of a match are passed over. *)
Lemma replace_from_skip (x r : string) k :
  re.replace_from repl (String.length x + k) (x +:+ r)
  = re.replace_from repl k r.
Proof.
  induction x as [|c x IH]; [done|]. rewrite app_cons. cbn. apply IH.
Qed.

(** One step of the scan at a position where the pattern matches. *)
Lemma replace_from_match (s m r : string) :
  re.match_prefix s = Some (m, r) →
  re.replace_from repl 0 s = repl m +:+ re.replace_from repl 0 r.
Proof.
  intros Hm. destruct (match_prefix_sound _ _ _ Hm) as (Hs & g & -> & _).
  destruct s as [|c s]; [done|].
  unfold re.replace_from at 1; fold re.replace_from. rewrite Hm. f_equal.
  rewrite !app_cons in Hs. injection Hs as _ ->.
  rewrite <-(replace_from_skip ("{" +:+ g +:+ "}") r 0).
  rewrite !app_assoc_str. f_equal.
  rewrite !length_app_str. cbn. lia.
Qed.

(** One step of the scan at a position where the pattern does not match. *)
Lemma replace_from_no_match c (s : string) :
  re.match_prefix (String c s) = None →
  re.replace_from repl 0 (String c s) = String c (re.replace_from repl 0 s).
Proof.
  intros Hm. unfold re.replace_from at 1; fold re.replace_from. by rewrite Hm.
Qed.


(** A text in which no placeholder is left open is scanned on its own. *)
Lemma replace_from_app (pre rest : string) k :
  closed_text pre = true →
  ends_with "$" pre && strings.HasPrefix rest "{" = false →
  re.replace_from repl k (pre +:+ rest)
  = re.replace_from repl k pre
    +:+ re.replace_from repl (k - String.length pre) rest.
Proof.
  intros Hpre Hrest. revert k Hpre.
  induction pre as [|c pre IH]; intros k Hpre.
  - rewrite app_empty_l. cbn. by rewrite Nat.sub_0_r.
  - rewrite app_cons. cbn [closed_text] in Hpre.
    apply andb_prop in Hpre as [Hopen Hpre].
    assert (ends_with "$" pre && strings.HasPrefix rest "{" = false) as Hrest'
      by (destruct pre; [done|exact Hrest]).
    specialize (IH Hrest').
    destruct k as [|k].
    + destruct (re.match_prefix (String c pre)) as [[m r]|] eqn:Hm.
      * pose proof (match_prefix_app_some _ rest _ _ Hm) as Hm'.
        rewrite app_cons in Hm'.
        unfold re.replace_from at 1 2; fold re.replace_from.
        rewrite Hm, Hm'. rewrite IH by done.
        rewrite app_assoc_str. do 2 f_equal.
        apply match_prefix_sound in Hm as [Hs _].
        apply (f_equal String.length) in Hs.
        rewrite length_app_str in Hs. cbn in Hs.
        replace (String.length m - 1 - String.length pre) with 0 by lia.
        done.
      * pose proof (match_prefix_app_none _ rest Hm Hopen Hrest) as Hm'.
        rewrite app_cons in Hm'. specialize (Hm' ltac:(done)).
        unfold re.replace_from at 1 2; fold re.replace_from.
        rewrite Hm, Hm'. rewrite IH by done. by rewrite app_cons.
    + cbn. by apply IH.
Qed.

(** A text without any opening "${" is copied. *)
Lemma replace_from_no_open (s : string) :
  strings.Contains s "${" = false → re.replace_from repl 0 s = s.
Proof.
  induction s as [|c s IH]; [done|].
  intros H. cbn [strings.Contains] in H.
  apply orb_false_elim in H as [Hp Hs].
  rewrite replace_from_no_match, IH; [done..|].
  destruct s as [|c2 s]; [done|].
  rewrite HasPrefix_open in Hp. cbn. by rewrite Hp.
Qed.

End pattern_facts.

(** ** [resolveValue] *)

Section resolveValue_facts.

Import template.

Context (c : gmap string string).


Lemma resolveValue_app (pre rest : string) :
  closed_text pre = true →
  ends_with "$" pre && strings.HasPrefix rest "{" = false →
  resolveValue (pre +:+ rest) c = resolveValue pre c +:+ resolveValue rest c.
Proof.
  intros Hpre Hrest. unfold resolveValue, re.ReplaceAllStringFunc.
  by rewrite replace_from_app.
Qed.

Lemma resolveValue_token (g r : string) :
  has_close g = false →
  resolveValue ("${" +:+ g +:+ "}" +:+ r) c
  = match c !! g with
    | Some val => val
    | None => "${" +:+ g +:+ "}"
    end +:+ resolveValue r c.
Proof.
  intros Hg. unfold resolveValue, re.ReplaceAllStringFunc.
  rewrite (replace_from_match _ _ _ _ (match_prefix_token g r Hg)).
  by rewrite trim_delimiters.
Qed.

Lemma resolveValue_no_open (s : string) :
  strings.Contains s "${" = false → resolveValue s c = s.
Proof. apply replace_from_no_open. Qed.

Lemma no_char_Contains_open (s : string) :
  no_char "$" s = true → strings.Contains s "${" = false.
Proof.
  induction s as [|a s IH]; [done|]. cbn [no_char strings.Contains].
  intros [Ha Hs]%andb_prop. rewrite IH, orb_false_r by done.
  destruct s as [|b s]; [done|]. rewrite HasPrefix_open.
  by destruct (Ascii.eqb a "$").
Qed.

Lemma no_char_closed_text (s : string) :
  no_char "$" s = true → closed_text s = true.
Proof.
  induction s as [|a s IH]; [done|]. cbn [no_char closed_text].
  intros [Ha Hs]%andb_prop. rewrite IH, andb_true_r by done.
  destruct s as [|b s]; [done|]. rewrite HasPrefix_open.
  by destruct (Ascii.eqb a "$").
Qed.

Lemma no_char_ends_with a b (s : string) :
  no_char a s = true → s ≠ "" → ends_with a (String b s) = false.
Proof.
  revert b. induction s as [|x s IH]; intros b Hs Hne; [done|].
  cbn [no_char] in Hs. apply andb_prop in Hs as [Hx Hs].
  change (ends_with a (String b (String x s))) with (ends_with a (String x s)).
  destruct s as [|y s]; [|by apply IH].
  cbn. by destruct (Ascii.eqb x a).
Qed.

Lemma Contains_cons a (s sub : string) :
  strings.Contains (String a s) sub
  = strings.HasPrefix (String a s) sub || strings.Contains s sub.
Proof. done. Qed.

Lemma closed_text_cons a (s : string) :
  closed_text (String a s)
  = (negb (strings.HasPrefix (String a s) "${") || has_close s)
    && closed_text s.
Proof. done. Qed.

(** A bare dollar sign and the name after it form a text that is copied and
    that leaves no placeholder open. *)
Lemma bare_name_facts (name : string) :
  bare_name name = true →
  strings.Contains ("$" +:+ name) "${" = false
  ∧ closed_text ("$" +:+ name) = true
  ∧ ends_with "$" ("$" +:+ name) = false.
Proof.
  destruct name as [|a name]; [done|]. unfold bare_name.
  intros [Ha Hd]%andb_prop. apply negb_true_iff in Ha.
  change ("$" +:+ String a name) with (String "$" (String a name)).
  split_and!.
  - rewrite Contains_cons, HasPrefix_open, Ha.
    by rewrite (no_char_Contains_open (String a name) Hd).
  - rewrite closed_text_cons, HasPrefix_open, Ha.
    by rewrite (no_char_closed_text (String a name) Hd).
  - by apply no_char_ends_with.
Qed.

End resolveValue_facts.

(** The assertions of [TestResolveValue] and [TestResolveValue_Mock] hold
    of the model. *)
Example TestResolveValue :
  let context := examples.test_context in
  resolveValue "${NAME}" context = "GoLang"
  ∧ resolveValue "Project: ${PROJECT}" context = "Project: ConfigLoader"
  ∧ resolveValue "${FULLNAME}" context = "${PROJECT} v${VERSION}"
  ∧ resolveValue "$GREETING" context = "$GREETING"
  ∧ resolveValue "Hello, $NAME!" context = "Hello, $NAME!"
  ∧ resolveValue "Value: $NAME" context = "Value: $NAME"
  ∧ resolveValue "NoVar: $UNDEFINED" context = "NoVar: $UNDEFINED"
  ∧ resolveValue "${SELF}" context = "${SELF}"
  ∧ resolveValue "${A}" context = "${B}"
  ∧ resolveValue "Path: /opt/app-$NAME" context = "Path: /opt/app-$NAME"
  ∧ resolveValue "http://${SERVER_HOST}:${SERVER_PORT}/api" context
    = "http://${SERVER_HOST}:${SERVER_PORT}/api".
Proof. vm_compute. split_and!; reflexivity. Qed.

Example TestResolveValue_Mock :
  let ctx : gmap string string := <["A" := "alpha"]> (<["B" := "beta"]> ∅) in
  resolveValue "${A}" ctx = "alpha"
  ∧ resolveValue "X ${A} Y" ctx = "X alpha Y"
  ∧ resolveValue "${C}" ctx = "${C}".
Proof. vm_compute. split_and!; reflexivity. Qed.

(** C1.  With [A] bound to "${B}", [B] to "${C}" and [C] to "resolved_c",
    [resolveValue] turns "${A}" into "${B}": the value put in is not scanned
    again.  A second application gives "${C}", which differs from the result
    of the first, and a third gives "resolved_c". *)
Theorem resolveValue_single_pass :
  let c := examples.chain_context in
  resolveValue "${A}" c = "${B}"
  ∧ resolveValue (resolveValue "${A}" c) c = "${C}"
  ∧ resolveValue (resolveValue "${A}" c) c ≠ resolveValue "${A}" c
  ∧ resolveValue (resolveValue (resolveValue "${A}" c) c) c = "resolved_c".
Proof.
  intros c.
  assert (resolveValue "${A}" c = "${B}") as H1 by (vm_compute; reflexivity).
  assert (resolveValue "${B}" c = "${C}") as H2 by (vm_compute; reflexivity).
  assert (resolveValue "${C}" c = "resolved_c") as H3
    by (vm_compute; reflexivity).
  rewrite H1, H2, H3. split_and!; done.
Qed.

(** C2.  On the binding of [SELF] to "${SELF}", [resolveValue] returns the
    template "${SELF}" itself: the function is total and makes one pass. *)
Theorem resolveValue_self_reference :
  resolveValue "${SELF}" examples.self_context = "${SELF}".
Proof. vm_compute. reflexivity. Qed.

(** C3.  Only text of the form "${...}" is substituted: a template without
    any "${" is returned as it is, and a bare "$NAME" inside any template is
    copied, also when [NAME] is bound in the context. *)
Theorem resolveValue_bare_dollar (c : gmap string string) :
  (∀ s : string, strings.Contains s "${" = false → resolveValue s c = s)
  ∧ (∀ NAME x pre post : string,
       c !! NAME = Some x →
       template.closed_text pre = true →
       template.bare_name NAME = true →
       resolveValue (pre +:+ "$" +:+ NAME +:+ post) c
       = resolveValue pre c +:+ "$" +:+ NAME +:+ resolveValue post c).
Proof.
  split; [apply resolveValue_no_open|].
  intros NAME x pre post _ Hpre (Hno & Hcl & Hend)%bare_name_facts.
  rewrite resolveValue_app
    by (by rewrite ?HasPrefix_brace_dollar, ?andb_false_r).
  rewrite <-(app_assoc_str "$" NAME post).
  rewrite resolveValue_app by (by rewrite ?Hend).
  rewrite (resolveValue_no_open c ("$" +:+ NAME)) by done.
  by rewrite app_assoc_str.
Qed.

Lemma resolveValue_bare_dollar_witness :
  strings.Contains "$NAME" "${" = false
  ∧ examples.name_context !! "NAME" = Some "x"
  ∧ template.closed_text "${NAME} or " = true
  ∧ template.bare_name "NAME" = true
  ∧ resolveValue "$NAME" examples.name_context = "$NAME"
  ∧ resolveValue ("${NAME} or " +:+ "$" +:+ "NAME" +:+ "!")
      examples.name_context
    = resolveValue "${NAME} or " examples.name_context
      +:+ "$" +:+ "NAME" +:+ resolveValue "!" examples.name_context.
Proof.
  pose proof (resolveValue_bare_dollar examples.name_context) as [H1 H2].
  split_and!;
    [reflexivity..
    | apply H1; reflexivity
    | apply (H2 "NAME" "x"); reflexivity].
Defined.

(** C4.  A placeholder "${name}" that follows a text with no placeholder
    left open is replaced by the value of [name] when the context binds it,
    and is left as it stands, braces included, when it does not. *)
Theorem resolveValue_placeholder (c : gmap string string)
  (pre name post : string) :
  template.closed_text pre = true →
  template.plain_name name = true →
  resolveValue (pre +:+ "${" +:+ name +:+ "}" +:+ post) c
  = resolveValue pre c
    +:+ match c !! name with
        | Some val => val
        | None => "${" +:+ name +:+ "}"
        end
    +:+ resolveValue post c.
Proof.
  intros Hpre Hname. apply negb_true_iff in Hname.
  rewrite resolveValue_app; [|done|].
  - by rewrite resolveValue_token.
  - by rewrite HasPrefix_brace_dollar, andb_false_r.
Qed.

Lemma resolveValue_placeholder_witness :
  template.closed_text "http://${SERVER_HOST}:" = true
  ∧ template.plain_name "SERVER_PORT" = true
  ∧ resolveValue ("http://${SERVER_HOST}:" +:+ "${" +:+ "SERVER_PORT" +:+ "}"
                  +:+ "/api") examples.server_context
    = "http://example.org:${SERVER_PORT}/api".
Proof.
  split_and!; [reflexivity..|].
  rewrite resolveValue_placeholder by reflexivity.
  reflexivity.
Defined.

(** ** [resolveConfigMap] *)

Section resolveConfigMap_facts.

Lemma fold_insert_union (m acc : gmap string string) :
  map_fold (λ k v cc, <[k := v]> cc) acc m = m ∪ acc.
Proof.
  apply (map_fold_weak_ind (λ r m, r = m ∪ acc)).
  - by rewrite (left_id_L ∅ (∪)).
  - intros k v m' r _ ->. by rewrite insert_union_l.
Qed.

Lemma fold_insert_fmap (f : string → string) (m : gmap string string) :
  map_fold (λ k v r, <[k := f v]> r) ∅ m = f <$> m.
Proof.
  apply (map_fold_weak_ind (λ r m, r = f <$> m)).
  - by rewrite fmap_empty.
  - intros k v m' r _ ->. by rewrite fmap_insert.
Qed.

(** The loops of [resolveConfigMap] in closed form. *)
Lemma resolveConfigMap_fmap (rawConfig primaryContext : gmap string string) :
  resolveConfigMap rawConfig primaryContext
  = (λ v, resolveValue v (rawConfig ∪ primaryContext)) <$> rawConfig.
Proof.
  unfold resolveConfigMap.
  by rewrite fold_insert_fmap, !fold_insert_union, (right_id_L ∅ (∪)).
Qed.

Lemma lookup_union_override (R P : gmap string string) k :
  (R ∪ P) !! k = match R !! k with Some v => Some v | None => P !! k end.
Proof.
  destruct (R !! k) as [v|] eqn:HR.
  - by apply lookup_union_Some_l.
  - by rewrite lookup_union_r.
Qed.

Context (σ : gmap nat (gmap string string)).

Lemma content_insert_eq a m : mapstore.content (<[a := m]> σ) a = m.
Proof. unfold mapstore.content. by rewrite lookup_insert_eq. Qed.

(** A loop that assigns every entry of [m] into the map at [a]. *)
Lemma fold_assign a (x m : gmap string string) :
  σ !! a = Some x →
  map_fold (λ k v, mapstore.assign a k v) σ m = <[a := m ∪ x]> σ.
Proof.
  intros Ha.
  apply (map_fold_weak_ind (λ r m, r = <[a := m ∪ x]> σ)).
  - by rewrite (left_id_L ∅ (∪)), insert_id.
  - intros k v m' r _ ->. unfold mapstore.assign.
    by rewrite content_insert_eq, insert_insert_eq, insert_union_l.
Qed.

(** The loop that fills the map at [a] from [m], reading the map at [b]. *)
Lemma fold_assign_resolved a b (C m : gmap string string) :
  a ≠ b → σ !! a = Some ∅ → σ !! b = Some C →
  map_fold
    (λ k v σ', mapstore.assign a k
                 (resolveValue v (mapstore.content σ' b)) σ') σ m
  = <[a := (λ v, resolveValue v C) <$> m]> σ.
Proof.
  intros Hab Ha Hb.
  apply (map_fold_weak_ind
           (λ r m, r = <[a := (λ v, resolveValue v C) <$> m]> σ)).
  - by rewrite fmap_empty, insert_id.
  - intros k v m' r _ ->. unfold mapstore.assign.
    rewrite content_insert_eq, insert_insert_eq, fmap_insert.
    unfold mapstore.content at 1. by rewrite lookup_insert_ne, Hb.
Qed.

End resolveConfigMap_facts.

(** The store [resolveConfigMap] leaves, in closed form. *)
Lemma resolveConfigMap_store (σ : gmap nat (gmap string string))
  (rawConfig primaryContext : nat) (R P : gmap string string) :
  σ !! rawConfig = Some R →
  σ !! primaryContext = Some P →
  let resolved := fresh (dom σ) in
  let combinedContext := fresh (dom (<[resolved := ∅]> σ)) in
  resolved ≠ combinedContext
  ∧ σ !! resolved = None
  ∧ σ !! combinedContext = None
  ∧ mapstore.resolveConfigMap rawConfig primaryContext σ
    = (resolved,
       <[resolved := resolveConfigMap R P]>
         (<[combinedContext := R ∪ P]> σ)).
Proof.
  intros HR HP resolved combinedContext.
  assert (σ !! resolved = None) as Hres
    by (apply not_elem_of_dom, is_fresh).
  assert (<[resolved := ∅]> σ !! combinedContext = None) as Hcomb
    by (apply not_elem_of_dom, is_fresh).
  assert (resolved ≠ combinedContext) as Hne
    by (intros E; rewrite <-E, lookup_insert_eq in Hcomb; done).
  rewrite lookup_insert_ne in Hcomb by done.
  assert (rawConfig ≠ resolved) by congruence.
  assert (rawConfig ≠ combinedContext) by congruence.
  assert (primaryContext ≠ resolved) by congruence.
  assert (primaryContext ≠ combinedContext) by congruence.
  split_and!; [done..|].
  unfold mapstore.resolveConfigMap, mapstore.make, mapstore.range.
  fold resolved. fold combinedContext. f_equal.
  set (σ1 := <[combinedContext := ∅]> (<[resolved := ∅]> σ)).
  assert (mapstore.content σ1 primaryContext = P) as ->.
  { unfold mapstore.content, σ1. by rewrite !lookup_insert_ne, HP. }
  rewrite (fold_assign σ1 combinedContext ∅)
    by (unfold σ1; by rewrite lookup_insert_eq).
  rewrite (right_id_L ∅ (∪)).
  set (σ2 := <[combinedContext := P]> σ1).
  assert (mapstore.content σ2 rawConfig = R) as ->.
  { unfold mapstore.content, σ2, σ1. by rewrite !lookup_insert_ne, HR. }
  rewrite (fold_assign σ2 combinedContext P)
    by (unfold σ2; by rewrite lookup_insert_eq).
  set (σ3 := <[combinedContext := R ∪ P]> σ2).
  assert (mapstore.content σ3 rawConfig = R) as ->.
  { unfold mapstore.content, σ3, σ2, σ1. by rewrite !lookup_insert_ne, HR. }
  rewrite (fold_assign_resolved σ3 resolved combinedContext (R ∪ P)); [|done|..].
  - rewrite resolveConfigMap_fmap. unfold σ3, σ2, σ1.
    rewrite !insert_insert_eq.
    rewrite (insert_insert_ne _ combinedContext resolved) by done.
    by rewrite insert_insert_eq.
  - unfold σ3, σ2, σ1.
    rewrite !lookup_insert_ne by congruence. by rewrite lookup_insert_eq.
  - unfold σ3. by rewrite lookup_insert_eq.
Qed.

(** A key bound in both maps: "${a}" is replaced by the raw value of [a],
    not by the value the primary context gives it. *)
Example resolveConfigMap_override :
  resolveConfigMap examples.raw_map examples.primary_map
  = <["a" := "B${b}${a}${c}${c}"]> ∅.
Proof. vm_compute. reflexivity. Qed.

(** C5.  [resolveConfigMap] builds a map at a new address.  Its keys are
    the keys of [rawConfig]; each value is [resolveValue] of the raw value in
    the combined context, where an entry of [rawConfig] overrides the entry
    of [primaryContext] with the same key.  Every map of the store before
    the call, the two arguments among them, has the content it had. *)
Theorem resolveConfigMap_new_mapping (σ : gmap nat (gmap string string))
  (rawConfig primaryContext : nat) (R P : gmap string string) :
  σ !! rawConfig = Some R →
  σ !! primaryContext = Some P →
  ∃ (resolved : nat) (σ' : gmap nat (gmap string string))
    (result combined : gmap string string),
    mapstore.resolveConfigMap rawConfig primaryContext σ = (resolved, σ')
    ∧ σ !! resolved = None
    ∧ σ' !! resolved = Some result
    ∧ result = resolveConfigMap R P
    ∧ dom result = dom R
    ∧ (∀ k, combined !! k
            = match R !! k with Some v => Some v | None => P !! k end)
    ∧ (∀ k, result !! k = (λ v, resolveValue v combined) <$> R !! k)
    ∧ σ' !! rawConfig = Some R
    ∧ σ' !! primaryContext = Some P
    ∧ (∀ a, is_Some (σ !! a) → σ' !! a = σ !! a).
Proof.
  intros HR HP.
  destruct (resolveConfigMap_store σ _ _ R P HR HP) as (Hne & Hres & Hcomb & E).
  set (resolved := fresh (dom σ)) in *.
  set (combinedContext := fresh (dom (<[resolved := ∅]> σ))) in *.
  assert (∀ a, is_Some (σ !! a) →
    <[resolved := resolveConfigMap R P]>
      (<[combinedContext := R ∪ P]> σ) !! a = σ !! a) as Hframe.
  { intros a [x Ha]. rewrite !lookup_insert_ne; congruence. }
  eexists resolved, _, (resolveConfigMap R P), (R ∪ P).
  split_and!; try done.
  - by rewrite lookup_insert_eq.
  - by rewrite resolveConfigMap_fmap, dom_fmap_L.
  - apply lookup_union_override.
  - intros k. by rewrite resolveConfigMap_fmap, lookup_fmap.
  - rewrite Hframe; eauto.
  - rewrite Hframe; eauto.
Qed.

Lemma resolveConfigMap_new_mapping_witness :
  examples.two_maps !! 0 = Some examples.raw_map
  ∧ examples.two_maps !! 1 = Some examples.primary_map
  ∧ ∃ (resolved : nat) (σ' : gmap nat (gmap string string)),
      mapstore.resolveConfigMap 0 1 examples.two_maps = (resolved, σ')
      ∧ examples.two_maps !! resolved = None
      ∧ σ' !! resolved
        = Some (resolveConfigMap examples.raw_map examples.primary_map)
      ∧ σ' !! 0 = Some examples.raw_map
      ∧ σ' !! 1 = Some examples.primary_map.
Proof.
  assert (examples.two_maps !! 0 = Some examples.raw_map) as H0
    by reflexivity.
  assert (examples.two_maps !! 1 = Some examples.primary_map) as H1
    by reflexivity.
  split_and!; [done..|].
  destruct (resolveConfigMap_new_mapping examples.two_maps 0 1 _ _ H0 H1)
    as (resolved & σ' & result & combined & E & Hnew & Hres & -> & _ & _ & _
        & Hraw & Hprim & _).
  exists resolved, σ'.
  split_and!; [exact E|exact Hnew|exact Hres|exact Hraw|exact Hprim].
Defined.

(** ** [Load] *)

Section Load_facts.

Context (w : world) (o : Options).

Lemma resolveConfigMap_empty (primaryContext : gmap string string) :
  resolveConfigMap ∅ primaryContext = ∅.
Proof. by rewrite resolveConfigMap_fmap, fmap_empty. Qed.

(** The configuration [Load] returns. *)
Lemma Load_result :
  Load w o
  = (Some {| Main := ∅;
             DatabaseConfigs :=
               if EnableDatabaseGrouping o
               then <["mockdb" := <["port" := "5432"]>
                                    (<["host" := "localhost"]> ∅)]> ∅
               else ∅;
             Metadata :=
               <["extraction_date" := AString (clock w)]>
                 (<["database_grouping_enabled" :=
                      ABool (EnableDatabaseGrouping o)]>
                    (<["parsed_files" := AStrings ["/fake/path/mock.conf"]]>
                       (<["source_type" := AString "mock_load"]> ∅)));
             rawMainConfig := ∅;
             rawDatabaseConfigs := ∅;
             opts := o |}, None).
Proof.
  unfold Load.
  destruct (EnableDatabaseGrouping o);
    cbv [with_Main with_Metadata with_DatabaseConfigs newLoadedConfig
         Main DatabaseConfigs Metadata rawMainConfig rawDatabaseConfigs opts];
    rewrite ?map_fold_empty, resolveConfigMap_empty; reflexivity.
Qed.

End Load_facts.

(** The assertions of [TestLoad_Mock] and [TestParseConfFile_Mock] hold of
    the model. *)
Example TestLoad_Mock (w : world) :
  ∃ lc, Load w (mkOptions "" [] "" true) = (Some lc, None)
        ∧ Main lc = ∅
        ∧ (DatabaseConfigs lc !! "mockdb") ≫= (.!! "host") = Some "localhost"
        ∧ (DatabaseConfigs lc !! "mockdb") ≫= (.!! "port") = Some "5432"
        ∧ Metadata lc !! "source_type" = Some (AString "mock_load").
Proof.
  rewrite Load_result. eexists. split; [reflexivity|].
  vm_compute. split_and!; reflexivity.
Qed.

Example TestParseConfFile_Mock :
  let target := (parseConfFile "example.conf" ∅).1 in
  (parseConfFile "example.conf" ∅).2 = None
  ∧ target !! "mock_parsed_key_from_example.conf" = Some "mock_value"
  ∧ target !! "input_var" = Some "hello"
  ∧ target !! "another_input" = Some "world_${input_var}"
  ∧ target !! "to_be_resolved" = Some "original_value".
Proof. vm_compute. split_and!; reflexivity. Qed.

(** C6.  [Load] returns a configuration and the nil error for every
    environment and every options value.  [parseConfFile] returns the nil
    error too, and [resolveConfigMap] gives every raw key a value: a
    placeholder with no binding stays in the value as it was written. *)
Theorem Load_never_fails (w : world) (o : Options) :
  (∃ lc, Load w o = (Some lc, None))
  ∧ (∀ filePath targetConfig, (parseConfFile filePath targetConfig).2 = None)
  ∧ (∀ rawConfig primaryContext,
       dom (resolveConfigMap rawConfig primaryContext) = dom rawConfig)
  ∧ resolveConfigMap (<["API_URL" := "${DEV_API_URL}/v1"]> ∅) ∅
    = <["API_URL" := "${DEV_API_URL}/v1"]> ∅.
Proof.
  split_and!.
  - rewrite Load_result. eauto.
  - done.
  - intros rawConfig primaryContext.
    by rewrite resolveConfigMap_fmap, dom_fmap_L.
  - rewrite resolveConfigMap_fmap, fmap_insert, fmap_empty. f_equal.
Qed.

(** C7, as the specification states it, fails.  With the files
    [database_mysql.conf] and [database_postgres.conf] in place and grouping
    enabled, the configuration [Load] returns has no entry for "mysql" and
    none for "postgres"; with grouping disabled, neither [MYSQL_HOST] nor
    [PG_HOST] is a key of [Main]. *)
Lemma Load_grouping_ignores_database_files :
  is_Some (examples.database_world.(files)
             !! "/cfg/conf/database_mysql.conf")
  ∧ is_Some (examples.database_world.(files)
               !! "/cfg/conf/database_postgres.conf")
  ∧ (∃ lc, Load examples.database_world examples.grouping_enabled
           = (Some lc, None)
           ∧ DatabaseConfigs lc !! "mysql" = None
           ∧ DatabaseConfigs lc !! "postgres" = None)
  ∧ (∃ lc, Load examples.database_world examples.grouping_disabled
           = (Some lc, None)
           ∧ Main lc !! "MYSQL_HOST" = None
           ∧ Main lc !! "PG_HOST" = None).
Proof.
  split_and!; [by eexists..| |]; rewrite Load_result; eexists; done.
Qed.

(** C7, amended.  [Load] reads no file: its result is the same for every
    set of files.  [Main] is empty.  With grouping enabled
    [DatabaseConfigs] holds the one entry "mockdb" with [host] and [port];
    with grouping disabled it is empty. *)
Theorem Load_database_grouping (w : world) (o : Options) :
  (∀ fs out, Load {| files := fs; clock := clock w; stdout := out |} o
             = Load w o)
  ∧ ∃ lc, Load w o = (Some lc, None)
          ∧ Main lc = ∅
          ∧ DatabaseConfigs lc
            = (if EnableDatabaseGrouping o
               then <["mockdb" := <["port" := "5432"]>
                                    (<["host" := "localhost"]> ∅)]> ∅
               else ∅)
          ∧ DatabaseConfigs lc !! "mysql" = None
          ∧ DatabaseConfigs lc !! "postgres" = None.
Proof.
  split; [intros fs out; by rewrite !Load_result|].
  rewrite Load_result. eexists. split; [done|]. cbn.
  split_and!; [done..| |]; by destruct (EnableDatabaseGrouping o).
Qed.

(** ** [ToJSON] and [ToMap] *)

Section output_facts.

Context (lc : LoadedConfig).

(** The condition under which both functions add "database_configs". *)
Lemma grouping_condition :
  EnableDatabaseGrouping (opts lc) && (0 <? size (DatabaseConfigs lc)) = true
  ↔ EnableDatabaseGrouping (opts lc) = true ∧ DatabaseConfigs lc ≠ ∅.
Proof.
  rewrite andb_true_iff, Nat.ltb_lt, <-map_size_non_empty_iff.
  split; intros [Hg Hn]; (split; [exact Hg|lia]).
Qed.

Lemma outputMap_main :
  ToJSON_outputMap lc !! "main" = Some (AStringMap (Main lc)).
Proof.
  unfold ToJSON_outputMap.
  rewrite lookup_insert_ne by done.
  destruct (_ && _); [rewrite lookup_insert_ne by done|];
    by rewrite lookup_insert_eq.
Qed.

Lemma outputMap_metadata :
  ToJSON_outputMap lc !! "metadata" = Some (AMap (Metadata lc)).
Proof. unfold ToJSON_outputMap. by rewrite lookup_insert_eq. Qed.

Lemma outputMap_database_configs :
  ToJSON_outputMap lc !! "database_configs"
  = if EnableDatabaseGrouping (opts lc) && (0 <? size (DatabaseConfigs lc))
    then Some (ANestedMap (DatabaseConfigs lc)) else None.
Proof.
  unfold ToJSON_outputMap.
  rewrite lookup_insert_ne by done.
  destruct (_ && _); [by rewrite lookup_insert_eq|].
  by rewrite lookup_insert_ne, lookup_empty.
Qed.

Lemma outputMap_dom :
  dom (ToJSON_outputMap lc)
  = {["main"; "metadata"]}
    ∪ (if EnableDatabaseGrouping (opts lc) && (0 <? size (DatabaseConfigs lc))
       then {["database_configs"]} else ∅).
Proof.
  unfold ToJSON_outputMap.
  destruct (_ && _); rewrite !dom_insert_L, dom_empty_L; set_solver.
Qed.

End output_facts.

(** C8.  [ToJSON] makes one call of the encoder, on a map whose keys are
    "main", holding [Main], and "metadata", holding [Metadata], and, exactly
    when grouping is enabled in the options and [DatabaseConfigs] is not
    empty, "database_configs", holding [DatabaseConfigs]. *)
Theorem ToJSON_top_level_keys
  (json_MarshalIndent :
     gmap string any → string → string → string * option error)
  (lc : LoadedConfig) :
  ToJSON json_MarshalIndent lc
  = json_MarshalIndent (ToJSON_outputMap lc) "" "  "
  ∧ ToJSON_outputMap lc !! "main" = Some (AStringMap (Main lc))
  ∧ ToJSON_outputMap lc !! "metadata" = Some (AMap (Metadata lc))
  ∧ ("database_configs" ∈ dom (ToJSON_outputMap lc)
     ↔ EnableDatabaseGrouping (opts lc) = true ∧ DatabaseConfigs lc ≠ ∅)
  ∧ (∀ v, ToJSON_outputMap lc !! "database_configs" = Some v
          → v = ANestedMap (DatabaseConfigs lc))
  ∧ (∀ k, k ∈ dom (ToJSON_outputMap lc)
          → k = "main" ∨ k = "metadata" ∨ k = "database_configs").
Proof.
  split_and!.
  - done.
  - apply outputMap_main.
  - apply outputMap_metadata.
  - rewrite <-grouping_condition, elem_of_dom, outputMap_database_configs.
    destruct (_ && _); split; (done || by intros []).
  - intros v. rewrite outputMap_database_configs.
    destruct (_ && _); congruence.
  - intros k. rewrite outputMap_dom, !elem_of_union, !elem_of_singleton.
    destruct (_ && _);
      [rewrite elem_of_singleton|rewrite elem_of_empty]; tauto.
Qed.

(** ** [ToJSON] read back

    The text [json.MarshalIndent] writes for a value is read by
    [json.Unmarshal] as that value. *)

Section utf8_facts.

Lemma substring_zero (s : string) : String.substring 0 0 s = "".
Proof. by destruct s. Qed.

Lemma substring_cons c (s : string) k :
  String.substring 0 (S k) (String c s) = String c (String.substring 0 k s).
Proof. reflexivity. Qed.

Lemma drop_app_length (w t : string) :
  strings.drop (String.length w) (w +:+ t) = t.
Proof. induction w as [|c w IH]; [done|]. by rewrite app_cons. Qed.

Lemma substring_drop k (s : string) :
  String.substring 0 k s +:+ strings.drop k s = s.
Proof.
  revert k. induction s as [|c s IH]; intros [|k]; try done.
  rewrite substring_cons, app_cons. cbn [strings.drop]. by rewrite IH.
Qed.

Lemma HasPrefix_split (s p : string) :
  strings.HasPrefix s p = true → s = p +:+ strings.drop (String.length p) s.
Proof.
  unfold strings.HasPrefix. intros [_ Hp%String.eqb_eq]%andb_prop.
  pose proof (substring_drop (String.length p) s) as Hs.
  by rewrite Hp in Hs.
Qed.

Lemma continuation_prefix n (s : string) :
  utf8.continuation n s = true →
  String.length (String.substring 0 n s) = n
  ∧ ∀ t, utf8.continuation n (String.substring 0 n s +:+ t) = true.
Proof.
  revert s. induction n as [|n IH]; intros s.
  - intros _. by rewrite substring_zero.
  - destruct s as [|b s]; [done|]. cbn [utf8.continuation].
    intros [Hb Hs]%andb_prop. destruct (IH s Hs) as [Hlen Ht].
    rewrite substring_cons. split; [by cbn [String.length]; rewrite Hlen|].
    intros t. rewrite app_cons. cbn [utf8.continuation]. by rewrite Hb, Ht.
Qed.

(** The width of an encoding depends on the bytes of the encoding only. *)
Lemma size_prefix b (s : string) k :
  utf8.size (String b s) = S k →
  String.length (String.substring 0 k s) = k
  ∧ ∀ t, utf8.size (String b (String.substring 0 k s +:+ t)) = S k.
Proof.
  unfold utf8.size. destruct (utf8.first b) as [[[|n] [lo hi]]|]; [| |done].
  - intros [= <-]. by rewrite substring_zero.
  - destruct s as [|b1 s]; [done|].
    destruct (utf8.between lo hi b1 && utf8.continuation n s) eqn:Hc; [|done].
    intros [= <-]. apply andb_prop in Hc as [Hb1 Hs].
    destruct (continuation_prefix n s Hs) as [Hlen Ht].
    rewrite substring_cons. split; [by cbn [String.length]; rewrite Hlen|].
    intros t. by rewrite app_cons, Hb1, Ht.
Qed.

Lemma size_ascii b (s : string) :
  (N_of_ascii b <? 0x80)%N = true → utf8.size (String b s) = 1.
Proof. intros Hb. unfold utf8.size, utf8.first. by rewrite Hb. Qed.

Lemma valid_from_drop k (s : string) :
  utf8.valid_from k s = utf8.valid_from 0 (strings.drop k s).
Proof.
  revert k. induction s as [|b s IH]; intros [|k]; try done.
  cbn [strings.drop]. by rewrite <-IH.
Qed.

Lemma string_from_drop k (s : string) :
  json.string_from k s = json.string_from 0 (strings.drop k s).
Proof.
  revert k. induction s as [|b s IH]; intros [|k]; try done.
  cbn [strings.drop]. by rewrite <-IH.
Qed.

Lemma unquote_from_drop k (s : string) :
  json.unquote_from k s = json.unquote_from 0 (strings.drop k s).
Proof.
  revert k. induction s as [|b s IH]; intros [|k]; try done.
  cbn [strings.drop]. by rewrite <-IH.
Qed.

Lemma hex_value_digit (n : N) :
  (n < 16)%N → json.hex_value (json.hex_digit n) = Some n.
Proof.
  intros Hn. rewrite <-(N2Nat.id n). assert (N.to_nat n < 16) as Hk by lia.
  revert Hk. generalize (N.to_nat n). intros k Hk.
  do 16 (destruct k as [|k]; [vm_compute; reflexivity|]). lia.
Qed.

Lemma nibbles (n : N) : (N.shiftr n 4 * 16 + N.land n 0xF = n)%N.
Proof.
  rewrite N.shiftr_div_pow2. change 0xF%N with (N.ones 4).
  rewrite N.land_ones. change (2 ^ 4)%N with 16%N.
  rewrite N.mul_comm. symmetry. apply N.div_mod. done.
Qed.

Lemma EncodeRune_ascii b :
  (N_of_ascii b <? 0x80)%N = true →
  utf8.EncodeRune (N_of_ascii b) = String b "".
Proof.
  intros Hb. unfold utf8.EncodeRune, utf8.byte.
  by rewrite Hb, ascii_N_embedding.
Qed.

(** A byte below 0x80, written and read back. *)
Lemma unquote_ascii b (t : string) :
  (N_of_ascii b <? 0x80)%N = true →
  json.unquote_from 0
    ((if json.htmlSafe b then String b "" else json.escape b) +:+ t)
  = json.prepend (String b "") (json.unquote_from 0 t).
Proof.
  intros Hb. destruct (json.htmlSafe b) eqn:Hsafe.
  - unfold json.htmlSafe, utf8.between in Hsafe.
    repeat (apply andb_prop in Hsafe as [Hsafe ?]).
    rewrite app_cons, app_empty_l. cbn [json.unquote_from].
    destruct (Ascii.eqb b json.quote_mark); [done|].
    destruct (Ascii.eqb b json.backslash); [done|].
    replace (N_of_ascii b <? 0x20)%N with false
      by (symmetry; apply N.ltb_ge; by apply N.leb_le).
    by rewrite Hb.
  - clear Hsafe. unfold json.escape.
    destruct (Ascii.eqb b json.backslash || Ascii.eqb b json.quote_mark)
      eqn:Hq.
    { rewrite !app_cons, app_empty_l. cbn [json.unquote_from json.unescape].
      change (Ascii.eqb json.backslash json.quote_mark) with false.
      change (Ascii.eqb json.backslash json.backslash) with true.
      cbv iota.
      replace (Ascii.eqb b json.quote_mark || Ascii.eqb b json.backslash
               || Ascii.eqb b "/") with true
        by (by destruct (Ascii.eqb b json.backslash),
                  (Ascii.eqb b json.quote_mark)).
      done. }
    destruct (Ascii.eqb_spec b "008") as [->|_]; [reflexivity|].
    destruct (Ascii.eqb_spec b "012") as [->|_]; [reflexivity|].
    destruct (Ascii.eqb_spec b "010") as [->|_]; [reflexivity|].
    destruct (Ascii.eqb_spec b "013") as [->|_]; [reflexivity|].
    destruct (Ascii.eqb_spec b "009") as [->|_]; [reflexivity|].
    assert (N.shiftr (N_of_ascii b) 4 < 16)%N as Hhi.
    { rewrite N.shiftr_div_pow2. apply N.ltb_lt in Hb.
      apply N.Div0.div_lt_upper_bound. change (2 ^ 4 * 16)%N with 256%N. lia. }
    assert (N.land (N_of_ascii b) 0xF < 16)%N as Hlo.
    { change 0xF%N with (N.ones 4). rewrite N.land_ones.
      by apply N.mod_lt. }
    change ("\u00" +:+ ?x) with (String "\" (String "u" (String "0" (String "0" x)))).
    rewrite !app_cons, app_empty_l.
    cbn [json.unquote_from].
    change (Ascii.eqb json.backslash json.quote_mark) with false.
    change (Ascii.eqb "\" json.quote_mark) with false.
    change (Ascii.eqb "\" json.backslash) with true.
    cbv iota.
    assert (json.unescape
              (String "u" (String "0" (String "0"
                 (String (json.hex_digit (N.shiftr (N_of_ascii b) 4))
                    (String (json.hex_digit (N.land (N_of_ascii b) 0xF)) t)))))
            = Some (String b "", 5)) as ->.
    { unfold json.unescape.
      change (Ascii.eqb "u" json.quote_mark || Ascii.eqb "u" json.backslash
              || Ascii.eqb "u" "/") with false.
      change (Ascii.eqb "u" "b") with false.
      change (Ascii.eqb "u" "f") with false.
      change (Ascii.eqb "u" "n") with false.
      change (Ascii.eqb "u" "r") with false.
      change (Ascii.eqb "u" "t") with false.
      cbv iota. unfold json.getu4.
      change (Ascii.eqb "u" "u") with true. cbv iota.
      change (json.hex_value "0") with (Some 0%N).
      rewrite (hex_value_digit _ Hhi), (hex_value_digit _ Hlo).
      cbv iota beta.
      replace (0 * 4096 + 0 * 256 + N.shiftr (N_of_ascii b) 4 * 16
               + N.land (N_of_ascii b) 0xF)%N with (N_of_ascii b)
        by (rewrite <-(nibbles (N_of_ascii b)) at 1; lia).
      apply N.ltb_lt in Hb.
      replace ((0xD800 <=? N_of_ascii b)%N) with false
        by (symmetry; apply N.leb_gt; lia).
      cbn [andb]. rewrite EncodeRune_ascii; [done|]. by apply N.ltb_lt. }
    reflexivity.
Qed.

Lemma high_byte b :
  (N_of_ascii b <? 0x80)%N = false →
  Ascii.eqb b json.quote_mark = false
  ∧ Ascii.eqb b json.backslash = false
  ∧ (N_of_ascii b <? 0x20)%N = false.
Proof.
  intros Hb. split_and!.
  - destruct (Ascii.eqb_spec b json.quote_mark) as [->|]; done.
  - destruct (Ascii.eqb_spec b json.backslash) as [->|]; done.
  - apply N.ltb_ge in Hb. apply N.ltb_ge. lia.
Qed.

(** A valid string, written and read back. *)
Lemma unquote_string_from (n : nat) :
  ∀ (s rest : string),
    String.length s ≤ n →
    utf8.ValidString s = true →
    json.unquote_from 0
      (json.string_from 0 s +:+ String json.quote_mark rest)
    = Some (s, rest).
Proof.
  induction n as [|n IH]; intros [|b s] rest Hn Hvalid;
    cbn [String.length] in Hn; try lia; try done.
  unfold utf8.ValidString in Hvalid. cbn [utf8.valid_from] in Hvalid.
  cbn [json.string_from].
  destruct (N_of_ascii b <? 0x80)%N eqn:Hb.
  - rewrite (size_ascii _ _ Hb) in Hvalid.
    rewrite app_assoc_str, (unquote_ascii _ _ Hb).
    by rewrite (IH s rest ltac:(lia) Hvalid).
  - destruct (utf8.size (String b s)) as [|k] eqn:Hsize; [done|].
    destruct (size_prefix _ _ _ Hsize) as [Hlen Hprefix].
    rewrite valid_from_drop in Hvalid.
    assert (String.length (strings.drop k s) ≤ n) as Hshort.
    { rewrite <-(substring_drop k s), length_app_str in Hn. lia. }
    pose proof (IH _ rest Hshort Hvalid) as Hrest.
    rewrite string_from_drop, app_assoc_str.
    destruct (strings.HasPrefix (String b s) json.line_separator) eqn:Hl.
    { apply HasPrefix_split in Hl. revert Hl.
      generalize (strings.drop (String.length json.line_separator)
                    (String b s)).
      unfold json.line_separator. intros t. rewrite !app_cons, app_empty_l.
      intros [= -> ->]. injection Hsize as <-.
      cbn [strings.drop] in Hrest |- *.
      transitivity
        (json.prepend json.line_separator
           (json.unquote_from 0
              (json.string_from 0 t +:+ String json.quote_mark rest)));
        [reflexivity|by rewrite Hrest]. }
    destruct (strings.HasPrefix (String b s) json.paragraph_separator) eqn:Hp.
    { apply HasPrefix_split in Hp. revert Hp.
      generalize (strings.drop (String.length json.paragraph_separator)
                    (String b s)).
      unfold json.paragraph_separator. intros t. rewrite !app_cons, app_empty_l.
      intros [= -> ->]. injection Hsize as <-.
      cbn [strings.drop] in Hrest |- *.
      transitivity
        (json.prepend json.paragraph_separator
           (json.unquote_from 0
              (json.string_from 0 t +:+ String json.quote_mark rest)));
        [reflexivity|by rewrite Hrest]. }
    destruct (high_byte _ Hb) as (Hq & Hbs & Hc).
    rewrite substring_cons, app_cons.
    set (w := String.substring 0 k s) in *.
    set (X := json.string_from 0 (strings.drop k s)
              +:+ String json.quote_mark rest) in *.
    pose proof (drop_app_length w X) as Hdrop. rewrite Hlen in Hdrop.
    pose proof (substring_take w X) as Htake. rewrite Hlen in Htake.
    cbn [json.unquote_from].
    rewrite Hq, Hbs, Hc, Hb, Hprefix, unquote_from_drop, Hdrop, Hrest.
    cbn [json.prepend]. rewrite substring_cons, Htake, app_cons.
    unfold w. by rewrite substring_drop.
Qed.

Lemma parse_appendString (s rest : string) :
  utf8.ValidString s = true →
  json.unquote_from 0
    (json.string_from 0 s +:+ String json.quote_mark "" +:+ rest)
  = Some (s, rest).
Proof.
  intros Hs. rewrite app_cons, app_empty_l.
  by apply (unquote_string_from (String.length s)).
Qed.

End utf8_facts.

Section parse_facts.

Import json.

Variable prefix indent : string.
Hypothesis prefix_blank : skip_space prefix = "".
Hypothesis indent_blank : skip_space indent = "".

Lemma parse_value_S fuel depth (s : string) :
  parse_value (S fuel) depth s
  = match skip_space s with
    | EmptyString => None
    | String c s' =>
        if Ascii.eqb c "{" then
          if (maxNestingDepth <=? depth)%N then None else
          match skip_space s' with
          | String c' s'' =>
              if Ascii.eqb c' "}" then Some (Object ∅, s'')
              else parse_members fuel (N.succ depth) s' ∅
          | EmptyString => None
          end
        else if Ascii.eqb c "[" then
          if (maxNestingDepth <=? depth)%N then None else
          match skip_space s' with
          | String c' s'' =>
              if Ascii.eqb c' "]" then Some (Array [], s'')
              else parse_elements fuel (N.succ depth) s' []
          | EmptyString => None
          end
        else if Ascii.eqb c quote_mark then
          match unquote_from 0 s' with
          | Some (t, rest) => Some (Str t, rest)
          | None => None
          end
        else if strings.HasPrefix (String c s') "true"
        then Some (Bool true, strings.drop 4 (String c s'))
        else if strings.HasPrefix (String c s') "false"
        then Some (Bool false, strings.drop 5 (String c s'))
        else if strings.HasPrefix (String c s') "null"
        then Some (Null, strings.drop 4 (String c s'))
        else None
    end.
Proof. reflexivity. Qed.

Lemma parse_members_S fuel depth (s : string) (m : gmap string value) :
  parse_members (S fuel) depth s m
  = match skip_space s with
    | EmptyString => None
    | String c s1 =>
        if Ascii.eqb c quote_mark then
          match unquote_from 0 s1 with
          | None => None
          | Some (k, s2) =>
              match skip_space s2 with
              | EmptyString => None
              | String c2 s3 =>
                  if Ascii.eqb c2 ":" then
                    match parse_value fuel depth s3 with
                    | None => None
                    | Some (v, s4) =>
                        match skip_space s4 with
                        | EmptyString => None
                        | String c4 s5 =>
                            if Ascii.eqb c4 ","
                            then parse_members fuel depth s5 (<[k := v]> m)
                            else if Ascii.eqb c4 "}"
                            then Some (Object (<[k := v]> m), s5)
                            else None
                        end
                    end
                  else None
              end
          end
        else None
    end.
Proof. reflexivity. Qed.

Lemma parse_elements_S fuel depth (s : string) (l : list value) :
  parse_elements (S fuel) depth s l
  = match parse_value fuel depth s with
    | None => None
    | Some (v, s1) =>
        match skip_space s1 with
        | EmptyString => None
        | String c s2 =>
            if Ascii.eqb c ","
            then parse_elements fuel depth s2 (l ++ [v])
            else if Ascii.eqb c "]"
            then Some (Array (l ++ [v]), s2)
            else None
        end
    end.
Proof. reflexivity. Qed.

Lemma skip_space_blank (a t : string) :
  skip_space a = "" → skip_space (a +:+ t) = skip_space t.
Proof.
  induction a as [|c a IH]; [done|]. rewrite app_cons. cbn [skip_space].
  destruct (is_space c); [exact IH|done].
Qed.

Lemma indents_blank d : skip_space (indents indent d) = "".
Proof.
  induction d as [|d IH]; [done|]. cbn [indents].
  by rewrite skip_space_blank.
Qed.

Lemma skip_space_newline d (t : string) :
  skip_space (newline prefix indent d +:+ t) = skip_space t.
Proof.
  unfold newline. rewrite app_cons. cbn [skip_space].
  change (is_space "010") with true. cbv iota.
  rewrite app_assoc_str, skip_space_blank by done.
  by rewrite skip_space_blank by apply indents_blank.
Qed.

Lemma parse_value_blank fuel depth (a t : string) :
  skip_space a = "" →
  parse_value fuel depth (a +:+ t) = parse_value fuel depth t.
Proof.
  intros Ha. destruct fuel as [|fuel]; [done|].
  by rewrite !parse_value_S, skip_space_blank.
Qed.

Lemma reads_mono (t : string) v h h' : reads t v h → h ≤ h' → reads t v h'.
Proof. intros Ht Hh fuel depth rest Hf Hd. apply Ht; [done|lia]. Qed.

Lemma reads_string (s : string) :
  utf8.ValidString s = true → reads (appendString s) (Str s) 0.
Proof.
  intros Hs fuel depth rest Hf _. unfold appendString in *.
  destruct fuel as [|fuel]; [cbn [String.length] in Hf; lia|].
  rewrite parse_value_S, app_cons. cbn [skip_space].
  change (is_space quote_mark) with false. cbv iota.
  change (Ascii.eqb quote_mark "{") with false.
  change (Ascii.eqb quote_mark "[") with false.
  change (Ascii.eqb quote_mark quote_mark) with true. cbv iota.
  by rewrite app_assoc_str, parse_appendString.
Qed.

Lemma HasPrefix_app (p t : string) : strings.HasPrefix (p +:+ t) p = true.
Proof.
  unfold strings.HasPrefix.
  rewrite substring_take, String.eqb_refl, length_app_str, andb_true_r.
  apply Nat.leb_le. lia.
Qed.

Lemma reads_bool (b : bool) :
  reads (if b then "true" else "false") (Bool b) 0.
Proof.
  intros fuel depth rest Hf _.
  destruct fuel as [|fuel]; [destruct b; cbn [String.length] in Hf; lia|].
  rewrite parse_value_S. destruct b.
  - change (skip_space ("true" +:+ rest)) with (String "t" ("rue" +:+ rest)).
    cbv iota. change (String "t" ("rue" +:+ rest)) with ("true" +:+ rest).
    by rewrite HasPrefix_app.
  - change (skip_space ("false" +:+ rest))
      with (String "f" ("alse" +:+ rest)).
    cbv iota. change (String "f" ("alse" +:+ rest)) with ("false" +:+ rest).
    by rewrite HasPrefix_app.
Qed.

Lemma newline_blank d : skip_space (newline prefix indent d) = "".
Proof.
  rewrite <-(app_empty_r (newline prefix indent d)).
  by rewrite skip_space_newline.
Qed.

Lemma Join_cons_cons (e e' : string) (l : list string) (sep : string) :
  strings.Join (e :: e' :: l) sep = e +:+ sep +:+ strings.Join (e' :: l) sep.
Proof. reflexivity. Qed.

(** The text after the first of the items of an object or an array. *)
Lemma Join_head (e : string) (l : list string) (sep tail : string) :
  ∃ R,
    strings.Join (e :: l) sep +:+ tail = e +:+ R
    ∧ (l = [] ∧ R = tail
       ∨ l ≠ [] ∧ R = sep +:+ strings.Join l sep +:+ tail
         ∧ String.length (strings.Join (e :: l) sep)
           = String.length e + String.length sep
             + String.length (strings.Join l sep))
    ∧ String.length e ≤ String.length (strings.Join (e :: l) sep).
Proof.
  destruct l as [|e' l].
  - exists tail. split_and!; [done|by left|done].
  - exists (sep +:+ strings.Join (e' :: l) sep +:+ tail).
    rewrite Join_cons_cons, !app_assoc_str, !length_app_str.
    split_and!; [done|right; split_and!; [done|done|lia]|lia].
Qed.

Lemma parse_members_ok {A} (enc : A → string) (gen : A → value) (h d : nat) :
  ∀ (items : list (string * A)) (fuel : nat) (depth : N) (rest : string)
    (acc : gmap string value),
    items ≠ [] →
    Forall (λ kv, utf8.ValidString kv.1 = true
                  ∧ reads (enc kv.2) (gen kv.2) h) items →
    String.length
      (strings.Join
         ((λ kv, appendString kv.1 +:+ ": " +:+ enc kv.2) <$> items)
         ("," +:+ newline prefix indent (S d))) < fuel →
    (depth + N.of_nat h ≤ maxNestingDepth)%N →
    parse_members fuel depth
      (newline prefix indent (S d)
       +:+ strings.Join
             ((λ kv, appendString kv.1 +:+ ": " +:+ enc kv.2) <$> items)
             ("," +:+ newline prefix indent (S d))
       +:+ newline prefix indent d +:+ "}" +:+ rest) acc
    = Some (Object (foldl (λ m kv, <[kv.1 := gen kv.2]> m) acc items), rest).
Proof.
  induction items as [|[k a] items IH]; [done|].
  intros fuel depth rest acc _ Hall Hfuel Hdepth.
  apply Forall_cons in Hall as [[Hk Ha] Hall]. cbn [fst snd] in Hk, Ha.
  destruct fuel as [|fuel]; [lia|].
  rewrite parse_members_S, skip_space_newline, fmap_cons.
  cbn [fst snd]. rewrite fmap_cons in Hfuel. cbn [fst snd] in Hfuel.
  destruct (Join_head (appendString k +:+ ": " +:+ enc a)
              ((λ kv, appendString kv.1 +:+ ": " +:+ enc kv.2) <$> items)
              ("," +:+ newline prefix indent (S d))
              (newline prefix indent d +:+ "}" +:+ rest))
    as (R & -> & HR & Hlen).
  rewrite !length_app_str in Hlen.
  unfold appendString at 1. rewrite !app_assoc_str, app_cons.
  cbn [skip_space]. change (is_space quote_mark) with false. cbv iota.
  change (Ascii.eqb quote_mark quote_mark) with true. cbv iota.
  rewrite !app_assoc_str, parse_appendString by done.
  change (": " +:+ (enc a +:+ R)) with (String ":" (" " +:+ (enc a +:+ R))).
  cbn [skip_space]. change (is_space ":") with false. cbv iota.
  change (Ascii.eqb ":" ":") with true. cbv iota.
  rewrite parse_value_blank by done.
  rewrite (Ha fuel depth R) by (done || lia).
  destruct HR as [[Hnil ->]|(Hne & -> & Hsum)].
  - apply fmap_nil_inv in Hnil as ->.
    rewrite skip_space_newline.
    change (skip_space ("}" +:+ rest)) with (String "}" rest).
    reflexivity.
  - rewrite app_assoc_str.
    change ("," +:+ ?X) with (String "," X). cbn [skip_space].
    change (is_space ",") with false. cbv iota.
    change (Ascii.eqb "," ",") with true. cbv iota.
    destruct items as [|i items]; [done|].
    rewrite IH; [done|done|done| |done].
    rewrite (length_app_str ",") in Hsum.
    change (String.length ",") with 1 in Hsum. lia.
Qed.

Lemma parse_elements_ok {A} (enc : A → string) (gen : A → value) (h d : nat) :
  ∀ (l : list A) (fuel : nat) (depth : N) (rest : string) (acc : list value),
    l ≠ [] →
    Forall (λ x, reads (enc x) (gen x) h) l →
    String.length
      (strings.Join (enc <$> l) ("," +:+ newline prefix indent (S d))) < fuel →
    (depth + N.of_nat h ≤ maxNestingDepth)%N →
    parse_elements fuel depth
      (newline prefix indent (S d)
       +:+ strings.Join (enc <$> l) ("," +:+ newline prefix indent (S d))
       +:+ newline prefix indent d +:+ "]" +:+ rest) acc
    = Some (Array (acc ++ (gen <$> l)), rest).
Proof.
  induction l as [|x l IH]; [done|].
  intros fuel depth rest acc _ Hall Hfuel Hdepth.
  apply Forall_cons in Hall as [Hx Hall].
  destruct fuel as [|fuel]; [lia|].
  rewrite parse_elements_S, parse_value_blank by apply newline_blank.
  rewrite fmap_cons. rewrite fmap_cons in Hfuel.
  destruct (Join_head (enc x) (enc <$> l)
              ("," +:+ newline prefix indent (S d))
              (newline prefix indent d +:+ "]" +:+ rest))
    as (R & -> & HR & Hlen).
  rewrite (Hx fuel depth R) by (done || lia).
  destruct HR as [[Hnil ->]|(Hne & -> & Hsum)].
  - apply fmap_nil_inv in Hnil as ->.
    rewrite skip_space_newline.
    change (skip_space ("]" +:+ rest)) with (String "]" rest).
    reflexivity.
  - rewrite app_assoc_str.
    change ("," +:+ ?X) with (String "," X). cbn [skip_space].
    change (is_space ",") with false. cbv iota.
    change (Ascii.eqb "," ",") with true. cbv iota.
    destruct l as [|y l]; [done|].
    rewrite IH; [|done|done| |done].
    + by rewrite <-(assoc_L (++)).
    + rewrite (length_app_str ",") in Hsum.
      change (String.length ",") with 1 in Hsum. lia.
Qed.

Lemma members_fmap {A} (enc : A → string) (items : list (string * A)) :
  (λ kv : string * string, appendString kv.1 +:+ ": " +:+ kv.2)
  <$> (prod_map id enc <$> items)
  = (λ kv, appendString kv.1 +:+ ": " +:+ enc kv.2) <$> items.
Proof. by rewrite <-list_fmap_compose. Qed.

Lemma skip_space_appendString (k t : string) :
  ∃ Y, skip_space (appendString k +:+ t) = String quote_mark Y.
Proof. unfold appendString. rewrite app_cons. by eexists. Qed.

Lemma length_newline d : 1 ≤ String.length (newline prefix indent d).
Proof. unfold newline. cbn [String.length]. lia. Qed.

Lemma reads_object {A} (enc : A → string) (gen : A → value) (h d : nat)
  (items : list (string * A)) :
  Forall (λ kv, utf8.ValidString kv.1 = true
                ∧ reads (enc kv.2) (gen kv.2) h) items →
  reads (object_text prefix indent d (prod_map id enc <$> items))
    (Object (foldl (λ m kv, <[kv.1 := gen kv.2]> m) ∅ items)) (S h).
Proof.
  intros Hall fuel depth rest Hfuel Hdepth.
  assert ((maxNestingDepth <=? depth)%N = false) as Hopen
    by (apply N.leb_gt; lia).
  destruct items as [|i items].
  - destruct fuel as [|fuel]; [cbn in Hfuel; lia|].
    rewrite parse_value_S.
    change (skip_space (object_text prefix indent d (prod_map id enc <$> [])
                        +:+ rest))
      with (String "{" (String "}" rest)).
    cbv iota. change (Ascii.eqb "{" "{") with true. cbv iota.
    rewrite Hopen. reflexivity.
  - rewrite fmap_cons in *. unfold object_text in *.
    rewrite <-fmap_cons, members_fmap in *.
    pose proof (length_newline (S d)) as Hnl.
    rewrite !length_app_str in Hfuel.
    change (String.length "{") with 1 in Hfuel.
    destruct fuel as [|fuel]; [lia|].
    rewrite parse_value_S, !app_assoc_str.
    change ("{" +:+ ?X) with (String "{" X).
    cbn [skip_space]. change (is_space "{") with false. cbv iota.
    change (Ascii.eqb "{" "{") with true. cbv iota.
    rewrite Hopen, skip_space_newline, fmap_cons.
    assert (∃ Y,
              skip_space
                (strings.Join
                   ((appendString i.1 +:+ ": " +:+ enc i.2)
                    :: ((λ kv, appendString kv.1 +:+ ": " +:+ enc kv.2)
                        <$> items))
                   ("," +:+ newline prefix indent (S d))
                 +:+ newline prefix indent d +:+ "}" +:+ rest)
              = String quote_mark Y) as [Y ->].
    { destruct (Join_head (appendString i.1 +:+ ": " +:+ enc i.2)
                  ((λ kv, appendString kv.1 +:+ ": " +:+ enc kv.2) <$> items)
                  ("," +:+ newline prefix indent (S d))
                  (newline prefix indent d +:+ "}" +:+ rest))
        as (R & -> & _).
      rewrite !app_assoc_str. apply skip_space_appendString. }
    change (Ascii.eqb quote_mark "}") with false. cbv iota.
    apply (parse_members_ok enc gen h d (i :: items)); [done|done| |lia].
    lia.
Qed.

Lemma HasPrefix_head (c c0 : ascii) (s p : string) :
  Ascii.eqb c c0 = false → strings.HasPrefix (String c s) (String c0 p) = false.
Proof.
  intros Hc. unfold strings.HasPrefix. cbn [String.length String.substring].
  cbn [String.eqb]. by rewrite Hc, andb_false_r.
Qed.

(** A text that is read as a value starts, after its blanks, with a
    character that closes neither an object nor an array. *)
Lemma parse_value_head fuel depth (s : string) r :
  parse_value fuel depth s = Some r →
  ∃ c s', skip_space s = String c s'
          ∧ Ascii.eqb c "]" = false ∧ Ascii.eqb c "}" = false.
Proof.
  destruct fuel as [|fuel]; [done|]. rewrite parse_value_S.
  destruct (skip_space s) as [|c s']; [done|].
  intros Hr. exists c, s'. split; [done|].
  split.
  - destruct (Ascii.eqb_spec c "]") as [->|]; [|done].
    change (Ascii.eqb "]" "{") with false in Hr.
    change (Ascii.eqb "]" "[") with false in Hr.
    change (Ascii.eqb "]" quote_mark) with false in Hr.
    cbv iota in Hr. by rewrite !HasPrefix_head in Hr.
  - destruct (Ascii.eqb_spec c "}") as [->|]; [|done].
    change (Ascii.eqb "}" "{") with false in Hr.
    change (Ascii.eqb "}" "[") with false in Hr.
    change (Ascii.eqb "}" quote_mark) with false in Hr.
    cbv iota in Hr. by rewrite !HasPrefix_head in Hr.
Qed.

Lemma reads_array {A} (enc : A → string) (gen : A → value) (h d : nat)
  (l : list A) :
  Forall (λ x, reads (enc x) (gen x) h) l →
  reads (array_text prefix indent d (enc <$> l)) (Array (gen <$> l)) (S h).
Proof.
  intros Hall fuel depth rest Hfuel Hdepth.
  assert ((maxNestingDepth <=? depth)%N = false) as Hopen
    by (apply N.leb_gt; lia).
  destruct l as [|x l].
  - destruct fuel as [|fuel]; [cbn in Hfuel; lia|].
    rewrite parse_value_S.
    change (skip_space (array_text prefix indent d (enc <$> []) +:+ rest))
      with (String "[" (String "]" rest)).
    cbv iota. change (Ascii.eqb "[" "{") with false.
    change (Ascii.eqb "[" "[") with true. cbv iota.
    rewrite Hopen. reflexivity.
  - rewrite fmap_cons in *. unfold array_text in *.
    rewrite <-fmap_cons in *.
    pose proof (length_newline (S d)) as Hnl.
    rewrite !length_app_str in Hfuel.
    change (String.length "[") with 1 in Hfuel.
    destruct fuel as [|fuel]; [lia|].
    rewrite parse_value_S, !app_assoc_str.
    change ("[" +:+ ?X) with (String "[" X).
    cbn [skip_space]. change (is_space "[") with false. cbv iota.
    change (Ascii.eqb "[" "{") with false.
    change (Ascii.eqb "[" "[") with true. cbv iota.
    rewrite Hopen, skip_space_newline.
    assert (∃ c' s'',
              skip_space
                (strings.Join (enc <$> x :: l)
                   ("," +:+ newline prefix indent (S d))
                 +:+ newline prefix indent d +:+ "]" +:+ rest)
              = String c' s'' ∧ Ascii.eqb c' "]" = false)
      as (c' & s'' & -> & Hc).
    { rewrite fmap_cons.
      destruct (Join_head (enc x) (enc <$> l)
                  ("," +:+ newline prefix indent (S d))
                  (newline prefix indent d +:+ "]" +:+ rest))
        as (R & -> & _).
      apply Forall_cons in Hall as [Hx _].
      specialize (Hx (String.length (enc x)) depth R).
      destruct (parse_value_head _ _ _ _ (Hx ltac:(done) ltac:(lia)))
        as (c0 & s0 & -> & Hc0 & _).
      by exists c0, s0. }
    rewrite Hc.
    apply (parse_elements_ok enc gen h d (x :: l) fuel (N.succ depth) rest []);
      [done|done| |lia].
    lia.
Qed.

End parse_facts.

Section members_facts.

Import json.

Lemma insert_member_fmap {A B} (f : A → B) (kv : string * A)
  (l : list (string * A)) :
  insert_member (prod_map id f kv) (prod_map id f <$> l)
  = prod_map id f <$> insert_member kv l.
Proof.
  induction l as [|kv' l IH]; [done|]. rewrite fmap_cons.
  cbn [insert_member].
  change (prod_map id f kv).1 with kv.1.
  change (prod_map id f kv').1 with kv'.1.
  destruct (String.leb kv.1 kv'.1); [by rewrite !fmap_cons|].
  by rewrite fmap_cons, <-IH.
Qed.

Lemma sort_members_fmap {A B} (f : A → B) (l : list (string * A)) :
  sort_members (prod_map id f <$> l) = prod_map id f <$> sort_members l.
Proof.
  induction l as [|kv l IH]; [done|]. rewrite fmap_cons.
  unfold sort_members in *. cbn [foldr]. by rewrite IH, insert_member_fmap.
Qed.

Lemma insert_member_perm {A} (kv : string * A) (l : list (string * A)) :
  insert_member kv l ≡ₚ kv :: l.
Proof.
  induction l as [|kv' l IH]; [done|]. cbn [insert_member].
  destruct (String.leb kv.1 kv'.1); [done|].
  by rewrite IH, Permutation_swap.
Qed.

Lemma sort_members_perm {A} (l : list (string * A)) : sort_members l ≡ₚ l.
Proof.
  induction l as [|kv l IH]; [done|]. unfold sort_members in *.
  cbn [foldr]. by rewrite insert_member_perm, IH.
Qed.

Lemma foldl_insert {A} (gen : A → value) (l : list (string * A)) :
  ∀ acc : gmap string value,
    NoDup l.*1 →
    foldl (λ m kv, <[kv.1 := gen kv.2]> m) acc l
    = list_to_map (prod_map id gen <$> l) ∪ acc.
Proof.
  induction l as [|[k a] l IH]; intros acc Hnd.
  - by rewrite fmap_nil, list_to_map_nil, (left_id_L ∅ (∪)).
  - rewrite fmap_cons in Hnd. apply NoDup_cons in Hnd as [Hk Hnd].
    cbn [foldl fst snd]. rewrite (IH _ Hnd), fmap_cons.
    change (prod_map id gen (k, a)) with (k, gen a).
    rewrite list_to_map_cons, <-insert_union_l. symmetry.
    apply insert_union_r, not_elem_of_list_to_map_1.
    by rewrite <-list_fmap_compose.
Qed.

(** The members of a map, in the order of their keys, put into a map one
    after the other, make the map again. *)
Lemma members_of_map {A} (gen : A → value) (m : gmap string A) :
  foldl (λ acc kv, <[kv.1 := gen kv.2]> acc) ∅ (sort_members (map_to_list m))
  = gen <$> m.
Proof.
  assert (NoDup (sort_members (map_to_list m)).*1) as Hnd.
  { rewrite (sort_members_perm (map_to_list m)).
    apply NoDup_fst_map_to_list. }
  rewrite (foldl_insert gen _ ∅ Hnd), (right_id_L ∅ (∪)), list_to_map_fmap.
  rewrite (list_to_map_proper _ (map_to_list m) Hnd (sort_members_perm _)).
  by rewrite list_to_map_to_list.
Qed.

Lemma Forall_members {A} (P : string * A → Prop) (m : gmap string A) :
  map_Forall (λ k x, P (k, x)) m → Forall P (sort_members (map_to_list m)).
Proof.
  intros Hm. apply Forall_forall. intros [k x] Hin.
  rewrite (sort_members_perm (map_to_list m)) in Hin.
  apply elem_of_map_to_list in Hin. by apply Hm.
Qed.

Lemma fold_andb {A} (f : string → A → bool) (m : gmap string A) :
  map_fold (λ k x ok, f k x && ok) true m = true →
  map_Forall (λ k x, f k x = true) m.
Proof.
  apply (map_fold_weak_ind
           (λ r m, r = true → map_Forall (λ k x, f k x = true) m)).
  - intros _. apply map_Forall_empty.
  - intros k x m' r Hk IH [Hx Hr]%andb_prop.
    apply map_Forall_insert_2; auto.
Qed.

Lemma fold_max {A} (f : string → A → nat) (m : gmap string A) :
  map_Forall (λ k x, f k x ≤ map_fold (λ k x h, f k x `max` h) 0 m) m.
Proof.
  apply (map_fold_weak_ind (λ r m, map_Forall (λ k x, f k x ≤ r) m)).
  - apply map_Forall_empty.
  - intros k x m' r Hk IH. apply map_Forall_insert_2; [lia|].
    intros k' x' Hk'. specialize (IH k' x' Hk'). cbn beta in IH. lia.
Qed.

Lemma weight_lookup (m : gmap string any) k v :
  m !! k = Some v → weight v < weight (AMap m).
Proof.
  cbn [weight]. revert k v.
  apply (map_fold_weak_ind
           (λ n m, ∀ k v, m !! k = Some v → weight v < S n)).
  - intros k v. by rewrite lookup_empty.
  - intros i x m' r Hi IH k v. destruct (decide (i = k)) as [->|Hne].
    + rewrite lookup_insert_eq. intros [= ->]. lia.
    + rewrite lookup_insert_ne by done. intros Hk.
      specialize (IH _ _ Hk). lia.
Qed.

(** Induction on a value, through its maps. *)
Lemma any_map_ind (P : any → Prop) :
  (∀ s, P (AString s)) → (∀ b, P (ABool b)) → (∀ l, P (AStrings l)) →
  (∀ m, P (AStringMap m)) → (∀ m, P (ANestedMap m)) →
  (∀ m, map_Forall (λ _ v, P v) m → P (AMap m)) →
  ∀ v, P v.
Proof.
  intros Hs Hb Hl Hsm Hnm Hm v.
  remember (weight v) as n eqn:Hn. revert v Hn.
  induction n as [n IH] using lt_wf_ind. intros [s|b|l|m|m|m] Hn; auto.
  apply Hm. intros k v Hk. apply (IH (weight v)); [|done].
  rewrite Hn. by apply (weight_lookup m k).
Qed.

End members_facts.

Section encode_facts.

Import json.

Variable prefix indent : string.
Hypothesis prefix_blank : skip_space prefix = "".
Hypothesis indent_blank : skip_space indent = "".

Lemma encode_AMap d (m : gmap string any) :
  encode prefix indent d (AMap m)
  = object_text prefix indent d
      (sort_members (map_to_list (encode prefix indent (S d) <$> m))).
Proof. reflexivity. Qed.

Lemma reads_string_map d (m : gmap string string) :
  valid (AStringMap m) = true →
  reads
    (object_text prefix indent d
       (sort_members (map_to_list (appendString <$> m))))
    (Object (Str <$> m)) 1.
Proof.
  intros Hm%fold_andb.
  rewrite map_to_list_fmap, sort_members_fmap, <-(members_of_map Str).
  apply (reads_object prefix indent prefix_blank indent_blank appendString
           Str 0 d).
  apply (Forall_members
           (λ kv, utf8.ValidString kv.1 = true
                  ∧ reads (appendString kv.2) (Str kv.2) 0)).
  intros k s [Hk Hs]%Hm%andb_prop. split; [done|].
  by apply reads_string.
Qed.

(** The text of a value whose strings are valid is read as the value. *)
Lemma reads_encode (v : any) :
  valid v = true →
  ∀ d, reads (encode prefix indent d v) (generic v) (height v).
Proof.
  induction v as [s|b|l|m|m|m IH] using any_map_ind; intros Hv d.
  - by apply reads_string.
  - apply reads_bool.
  - apply (reads_array prefix indent prefix_blank indent_blank appendString
             Str 0 d).
    cbn [valid] in Hv. apply Forall_forall. intros s Hs.
    apply reads_string. rewrite forallb_forall in Hv. apply Hv.
    by apply list_elem_of_In.
  - by apply reads_string_map.
  - cbn [encode generic height].
    set (h := map_fold (λ _ _ h, 1 `max` h) 0 m).
    rewrite map_to_list_fmap, sort_members_fmap,
      <-(members_of_map (λ m', Object (Str <$> m'))).
    apply (reads_object prefix indent prefix_blank indent_blank
             (λ m', object_text prefix indent (S d)
                      (sort_members (map_to_list (appendString <$> m'))))
             (λ m', Object (Str <$> m')) h d).
    apply (Forall_members
             (λ kv, utf8.ValidString kv.1 = true
                    ∧ reads
                        (object_text prefix indent (S d)
                           (sort_members
                              (map_to_list (appendString <$> kv.2))))
                        (Object (Str <$> kv.2)) h)).
    cbn [valid] in Hv. apply fold_andb in Hv.
    intros k m' Hk. destruct (andb_prop _ _ (Hv k m' Hk)) as [Hvk Hvm].
    split; [done|]. apply (reads_mono _ _ 1).
    + by apply reads_string_map.
    + apply (fold_max (λ _ _, 1) m k m' Hk).
  - rewrite encode_AMap. cbn [generic height].
    set (h := map_fold (λ _ v' h, height v' `max` h) 0 m).
    rewrite map_to_list_fmap, sort_members_fmap, <-(members_of_map generic).
    apply (reads_object prefix indent prefix_blank indent_blank
             (encode prefix indent (S d)) generic h d).
    apply (Forall_members
             (λ kv, utf8.ValidString kv.1 = true
                    ∧ reads (encode prefix indent (S d) kv.2)
                        (generic kv.2) h)).
    cbn [valid] in Hv. apply fold_andb in Hv.
    intros k v Hk. destruct (andb_prop _ _ (Hv k v Hk)) as [Hvk Hvv].
    split; [done|]. apply (reads_mono _ _ (height v)).
    + by apply (IH k v Hk).
    + apply (fold_max (λ _ v', height v') m k v Hk).
Qed.

End encode_facts.

Section round_trip.




End round_trip.

(** ** [InstantiateProduct] *)

(** C9, as the specification states it, fails.  The chart holds the
    placeholder [@{replicaCountVar}] and the variables are empty.  Under
    "error" the call returns the nil error; under "keep" and "empty" it
    returns the same path and writes no file under it. *)
Lemma InstantiateProduct_error_policy_returns_nil :
  let run := λ action,
    chartconfigmanager.InstantiateProduct examples.mock_manager
      "/products/prod/chart" ∅ "/tmp/out" action examples.chart_world in
  let logged :=
    {| files := files examples.chart_world;
       clock := clock examples.chart_world;
       stdout :=
         ["MOCK_CHARTCONFIGMAN: Mock InstantiateProduct: "
          +:+ "productNameOrPath=/products/prod/chart, "
          +:+ "outputPath=/tmp/out, instantiatedPath=/tmp/out/chart"] |} in
  chartconfigmanager.NewFileSystemProductManager "/products" ""
  = (Some examples.mock_manager, None)
  ∧ strings.Contains "replicaCount: '@{replicaCountVar}'" "@{replicaCountVar}"
    = true
  ∧ run chartconfigmanager.UnassignedVarError
    = Some (("/tmp/out/chart", None), logged)
  ∧ run chartconfigmanager.UnassignedVarKeep
    = Some (("/tmp/out/chart", None), logged)
  ∧ run chartconfigmanager.UnassignedVarEmpty
    = Some (("/tmp/out/chart", None), logged)
  ∧ files logged !! "/tmp/out/chart/values.yaml" = None.
Proof. vm_compute. split_and!; reflexivity. Qed.

(** C9, amended.  A manager built by [NewFileSystemProductManager] ignores
    the variables and the policy: the call returns, writes no file, fails
    exactly when [outputPath] is empty, and otherwise returns the joined
    path and the nil error. *)
Theorem InstantiateProduct_ignores_policy
  (base logDirectoryPath productNameOrPath : string)
  (m : chartconfigmanager.FileSystemProductManager)
  (variables : gmap string any) (outputPath unassignedVarAction : string)
  (w : world) :
  chartconfigmanager.NewFileSystemProductManager base logDirectoryPath
  = (Some m, None) →
  ∃ r, chartconfigmanager.InstantiateProduct m productNameOrPath variables
         outputPath unassignedVarAction w = Some r
       ∧ chartconfigmanager.InstantiateProduct m productNameOrPath ∅
           outputPath chartconfigmanager.UnassignedVarKeep w = Some r
       ∧ files r.2 = files w
       ∧ r.1 = (if String.eqb outputPath ""
                then ("", Some "outputPath cannot be empty")
                else (filepath.Join
                        [outputPath; filepath.Base productNameOrPath],
                      None)).
Proof.
  unfold chartconfigmanager.NewFileSystemProductManager.
  destruct (String.eqb base ""); [done|]. intros [= <-].
  unfold chartconfigmanager.InstantiateProduct. cbn.
  destruct (String.eqb outputPath ""); eexists; done.
Qed.

Lemma InstantiateProduct_ignores_policy_witness :
  chartconfigmanager.NewFileSystemProductManager "/products" ""
  = (Some examples.mock_manager, None)
  ∧ ∃ r, chartconfigmanager.InstantiateProduct examples.mock_manager
           "/products/prod/chart" ∅ "/tmp/out"
           chartconfigmanager.UnassignedVarError examples.chart_world
         = Some r
         ∧ files r.2 = files examples.chart_world
         ∧ r.1 = ("/tmp/out/chart", None).
Proof.
  split; [reflexivity|].
  destruct (InstantiateProduct_ignores_policy "/products" ""
              "/products/prod/chart" examples.mock_manager ∅ "/tmp/out"
              chartconfigmanager.UnassignedVarError examples.chart_world
              eq_refl) as (r & Hr & _ & Hfiles & Hres).
  exists r. split_and!; [exact Hr|exact Hfiles|exact Hres].
Defined.

(** * Further properties of the packages *)

(** ** Paths *)

Section filepath_facts.

Import template pathshape.

Lemma elements_not_nil (p : string) : filepath.elements p ≠ [].
Proof.
  destruct p as [|c p]; [done|]. cbn.
  destruct (Ascii.eqb c filepath.Separator); [done|].
  by destruct (filepath.elements p).
Qed.

Lemma elements_app (a b : string) :
  filepath.elements (a +:+ "/" +:+ b)
  = filepath.elements a ++ filepath.elements b.
Proof.
  induction a as [|c a IH]; [done|].
  rewrite app_cons. cbn [filepath.elements].
  destruct (Ascii.eqb c filepath.Separator); rewrite IH; [done|].
  pose proof (elements_not_nil a).
  by destruct (filepath.elements a).
Qed.

Lemma elements_no_separator (e : string) :
  no_char filepath.Separator e = true → filepath.elements e = [e].
Proof.
  induction e as [|c e IH]; [done|]. cbn [no_char filepath.elements].
  intros [Hc He]%andb_prop. apply negb_true_iff in Hc.
  by rewrite Hc, IH.
Qed.

Lemma join_elements_snoc (l : list string) (e : string) :
  filepath.join_elements (l ++ [e])
  = match l with
    | [] => e
    | _ :: _ => filepath.join_elements l +:+ "/" +:+ e
    end.
Proof.
  induction l as [|x l IH]; [done|].
  destruct l as [|y l]; [done|].
  change (filepath.join_elements ((x :: y :: l) ++ [e]))
    with (x +:+ "/" +:+ filepath.join_elements ((y :: l) ++ [e])).
  rewrite IH.
  change (filepath.join_elements (x :: y :: l))
    with (x +:+ "/" +:+ filepath.join_elements (y :: l)).
  by rewrite !app_assoc_str.
Qed.

Lemma plain_element_facts (e : string) :
  plain_element e = true →
  e ≠ "" ∧ no_char filepath.Separator e = true
  ∧ String.eqb e "" || String.eqb e "." = false
  ∧ String.eqb e ".." = false.
Proof.
  unfold plain_element, filepath.nonempty.
  intros [[[He Hs]%andb_prop Hd]%andb_prop Hdd]%andb_prop.
  apply negb_true_iff in He, Hd, Hdd.
  split_and!; [by intros ->|done|by rewrite He, Hd|done].
Qed.

Lemma Base_plain (e : string) : plain_element e = true → filepath.Base e = e.
Proof.
  intros (Hne & Hs & _ & _)%plain_element_facts. unfold filepath.Base.
  rewrite (proj2 (String.eqb_neq _ _) Hne), elements_no_separator by done.
  cbn. rewrite decide_True; [done|].
  unfold filepath.nonempty. by rewrite (proj2 (String.eqb_neq _ _) Hne).
Qed.

Lemma Base_after_separator (p e : string) :
  plain_element e = true → filepath.Base (p +:+ "/" +:+ e) = e.
Proof.
  intros (Hne & Hs & _ & _)%plain_element_facts. unfold filepath.Base.
  assert (String.eqb (p +:+ "/" +:+ e) "" = false) as ->.
  { apply String.eqb_neq. destruct p; by rewrite ?app_empty_l, app_cons. }
  rewrite elements_app, (elements_no_separator e), filter_app by done.
  rewrite (filter_cons_True _ e []); [by rewrite filter_nil, last_snoc|].
  unfold filepath.nonempty. by rewrite (proj2 (String.eqb_neq _ _) Hne).
Qed.

Lemma clean_step_plain rooted (out : list string) (e : string) :
  plain_element e = true → filepath.clean_step rooted out e = e :: out.
Proof.
  intros (_ & _ & Hd & Hdd)%plain_element_facts.
  unfold filepath.clean_step. by rewrite Hd, Hdd.
Qed.

(** The last element of a cleaned path that ends in a plain element. *)
Lemma Base_Clean_plain (a e : string) :
  plain_element e = true →
  filepath.Base (filepath.Clean (a +:+ "/" +:+ e)) = e.
Proof.
  intros He. pose proof (plain_element_facts e He) as (_ & Hs & Hd & Hdd).
  unfold filepath.Clean.
  rewrite elements_app, (elements_no_separator e), foldl_app by done.
  cbn [foldl]. rewrite clean_step_plain by done.
  cbn [rev]. rewrite join_elements_snoc.
  set (out := rev _).
  destruct (strings.HasPrefix _ "/"), out as [|x out]; cbv beta iota.
  - exact (Base_after_separator "" e He).
  - rewrite <-app_assoc_str. by apply Base_after_separator.
  - rewrite (proj2 (String.eqb_neq e "")); [by apply Base_plain|].
    by apply plain_element_facts.
  - assert (String.eqb (filepath.join_elements (x :: out) +:+ "/" +:+ e) ""
            = false) as ->.
    { apply String.eqb_neq.
      destruct (filepath.join_elements (x :: out));
        by rewrite ?app_empty_l, app_cons. }
    by apply Base_after_separator.
Qed.

Lemma Clean_plain (e : string) :
  plain_element e = true → filepath.Clean e = e.
Proof.
  intros He. pose proof (plain_element_facts e He) as (Hne & Hs & Hd & Hdd).
  unfold filepath.Clean. rewrite elements_no_separator by done.
  cbn [foldl]. rewrite clean_step_plain by done. cbn.
  assert (strings.HasPrefix e "/" = false) as ->.
  { destruct e as [|c e]; [done|]. rewrite HasPrefix_sep.
    cbn [no_char] in Hs. apply andb_prop in Hs as [Hc _].
    by apply negb_true_iff in Hc. }
  by rewrite (proj2 (String.eqb_neq e "")).
Qed.

(** The path [filepath.Join] builds from elements of which the last is
    plain has that element as its last element. *)
Lemma Base_Join_plain (l : list string) (e : string) :
  plain_element e = true → filepath.Base (filepath.Join (l ++ [e])) = e.
Proof.
  intros He. induction l as [|x l IH].
  - cbn. pose proof (plain_element_facts e He) as (Hne & _).
    unfold filepath.nonempty. rewrite (proj2 (String.eqb_neq e "")) by done.
    cbn. rewrite Clean_plain by done. by apply Base_plain.
  - change ((x :: l) ++ [e]) with (x :: (l ++ [e])).
    cbn [filepath.Join]. destruct (filepath.nonempty x); [|done].
    change (x :: (l ++ [e])) with ((x :: l) ++ [e]).
    rewrite join_elements_snoc. by apply Base_Clean_plain.
Qed.

End filepath_facts.

Section path_shapes.

Import template pathshape.

Lemma no_char_app a (s t : string) :
  no_char a (s +:+ t) = no_char a s && no_char a t.
Proof.
  induction s as [|c s IH]; [done|].
  rewrite app_cons. cbn [no_char]. by rewrite IH, andb_assoc.
Qed.

Lemma plain_element_cons c (s : string) :
  Ascii.eqb c "/" = false → Ascii.eqb c "." = false →
  no_char filepath.Separator s = true →
  plain_element (String c s) = true.
Proof.
  intros Hs Hd Hn. unfold plain_element, filepath.nonempty.
  cbn [String.eqb no_char]. unfold filepath.Separator in *.
  by rewrite Hs, Hd, Hn.
Qed.

Lemma elements_no_separator_each (p : string) :
  Forall (λ e, no_char filepath.Separator e = true) (filepath.elements p).
Proof.
  induction p as [|c p IH]; [by repeat constructor|].
  cbn [filepath.elements].
  destruct (Ascii.eqb c filepath.Separator) eqn:Hc; [by constructor|].
  destruct (filepath.elements p) as [|e es]; [by repeat constructor; cbn; rewrite Hc|].
  inversion IH; subst. constructor; [|done]. cbn. by rewrite Hc.
Qed.

(** What [filepath.Base] returns: ".", "..", "/" or a plain element. *)
Lemma Base_shape (p : string) :
  filepath.Base p = "." ∨ filepath.Base p = ".." ∨ filepath.Base p = "/"
  ∨ plain_element (filepath.Base p) = true.
Proof.
  unfold filepath.Base. destruct (String.eqb p ""); [by left|].
  destruct (last _) as [e|] eqn:Hlast; [|by right; right; left].
  apply last_Some_elem_of, list_elem_of_filter in Hlast as [Hne Hin].
  pose proof (elements_no_separator_each p) as Hall.
  rewrite Forall_forall in Hall. specialize (Hall _ Hin).
  unfold plain_element. rewrite Hne, Hall.
  destruct (String.eqb_spec e "."); [by left|].
  destruct (String.eqb_spec e ".."); [by right; left|].
  by right; right; right.
Qed.

End path_shapes.

(** ** [DiscoverDefaultPaths] and [parseConfFile] *)

(** X1.  [DiscoverDefaultPaths] returns no error, and for an environment
    name without a separator the primary file is named [install.conf] or
    [install-ENV.conf] and the directory [conf] or [conf-ENV], whatever the
    base path. *)
Theorem DiscoverDefaultPaths_names (basePath env : string) :
  template.no_char filepath.Separator env = true →
  (DiscoverDefaultPaths basePath env).2 = None
  ∧ filepath.Base (DiscoverDefaultPaths basePath env).1.1
    = (if String.eqb env "" then "install.conf"
       else "install-" +:+ env +:+ ".conf")
  ∧ filepath.Base (DiscoverDefaultPaths basePath env).1.2
    = (if String.eqb env "" then "conf" else "conf-" +:+ env).
Proof.
  intros Henv. unfold DiscoverDefaultPaths.
  set (b := if String.eqb basePath "" then _ else _).
  destruct (String.eqb env "") eqn:He; cbn [negb fst snd].
  - split_and!; [done|..].
    + by apply (Base_Join_plain [b] "install.conf").
    + by apply (Base_Join_plain [b] "conf").
  - split_and!; [done|..].
    + apply (Base_Join_plain [b]).
      change ("install-" +:+ env +:+ ".conf")
        with (String "i" ("nstall-" +:+ env +:+ ".conf")).
      apply plain_element_cons; [done..|].
      by rewrite !no_char_app, Henv.
    + apply (Base_Join_plain [b]).
      change ("conf-" +:+ env) with (String "c" ("onf-" +:+ env)).
      apply plain_element_cons; [done..|].
      by rewrite !no_char_app, Henv.
Qed.

Lemma DiscoverDefaultPaths_names_witness :
  template.no_char filepath.Separator "dev" = true
  ∧ DiscoverDefaultPaths "" "dev"
    = ("/mock/base/install-dev.conf", "/mock/base/conf-dev", None)
  ∧ filepath.Base (DiscoverDefaultPaths "" "dev").1.1 = "install-dev.conf".
Proof.
  split_and!; [reflexivity..|].
  exact (proj1 (proj2 (DiscoverDefaultPaths_names "" "dev" eq_refl))).
Defined.

(** X2.  Whatever file is named and whatever the target map and the primary
    context hold, resolving the map [parseConfFile] has filled gives
    [another_input] the value "world_hello": the raw [input_var] the parser
    wrote overrides any [input_var] of the primary context.  Every key the
    target map had is a key of the result. *)
Theorem parseConfFile_then_resolve (filePath : string)
  (targetConfig primaryContext : gmap string string) :
  let resolved :=
    resolveConfigMap (parseConfFile filePath targetConfig).1 primaryContext in
  (parseConfFile filePath targetConfig).2 = None
  ∧ resolved !! "input_var" = Some "hello"
  ∧ resolved !! "another_input" = Some "world_hello"
  ∧ resolved !! "to_be_resolved" = Some "original_value"
  ∧ dom targetConfig ⊆ dom resolved.
Proof.
  intros resolved. unfold resolved. rewrite resolveConfigMap_fmap.
  set (raw := (parseConfFile filePath targetConfig).1).
  assert (raw !! "input_var" = Some "hello") as Hin.
  { unfold raw, parseConfFile. cbn [fst].
    rewrite !lookup_insert_ne by done. by rewrite lookup_insert_eq. }
  assert (raw !! "another_input" = Some "world_${input_var}") as Han.
  { unfold raw, parseConfFile. cbn [fst].
    rewrite !lookup_insert_ne by done. by rewrite lookup_insert_eq. }
  assert (raw !! "to_be_resolved" = Some "original_value") as Hto.
  { unfold raw, parseConfFile. cbn [fst]. by rewrite lookup_insert_eq. }
  split_and!; [done|..].
  - rewrite lookup_fmap, Hin.
    change (Some (resolveValue "hello" (raw ∪ primaryContext)) = Some "hello").
    by rewrite resolveValue_no_open.
  - rewrite lookup_fmap, Han.
    change (Some (resolveValue
                    ("world_" +:+ "${" +:+ "input_var" +:+ "}" +:+ "")
                    (raw ∪ primaryContext)) = Some "world_hello").
    rewrite resolveValue_app, resolveValue_token by done.
    rewrite (lookup_union_Some_l raw primaryContext _ _ Hin).
    by rewrite (resolveValue_no_open _ "world_").
  - rewrite lookup_fmap, Hto.
    change (Some (resolveValue "original_value" (raw ∪ primaryContext))
            = Some "original_value").
    by rewrite resolveValue_no_open.
  - rewrite dom_fmap_L. unfold raw, parseConfFile. cbn [fst].
    rewrite !dom_insert_L. set_solver.
Qed.

(** ** The product manager *)

Section product_manager.

Import chartconfigmanager.

(** X3.  [GetProduct] of a manager without replacement functions leaves the
    environment as it is and returns either a product or an error, never
    both and never neither.  It fails exactly on the name
    "non-existent-product"; the product it returns carries the name asked
    for, and its chart path ends in the element "chart" for every base path
    and every name. *)
Theorem GetProduct_result (m : FileSystemProductManager)
  (productName : string) (w : world) :
  match GetProduct m no_funcs productName w with
  | Some ((Some p, None), w') =>
      w' = w ∧ productName ≠ "non-existent-product"
      ∧ Product.Name p = productName
      ∧ filepath.Base (Product.ChartPath p) = "chart"
  | Some ((None, Some err), w') =>
      w' = w ∧ productName = "non-existent-product"
      ∧ err = "product 'non-existent-product' not found"
  | _ => False
  end.
Proof.
  unfold GetProduct. cbn [GetProductFunc no_funcs].
  destruct (String.eqb_spec productName "non-existent-product") as [->|Hne].
  - done.
  - split_and!; [done..|].
    by apply (Base_Join_plain [baseProductsPath m; productName] "chart").
Qed.

(** X4.  Every product [ListProducts] returns can be fetched: for its name
    [GetProduct] returns a product of that name and [GetChartInfo] returns
    the chart information, and [ValidateChartFiles] accepts its chart path.
    The listed names differ from one another. *)
Theorem ListProducts_fetchable (m : FileSystemProductManager) (w : world) :
  ∃ products,
    ListProducts m no_funcs w = Some ((products, None), w)
    ∧ products ≠ []
    ∧ NoDup (Product.Name <$> products)
    ∧ Forall
        (λ p, ∃ q ci,
           GetProduct m no_funcs (Product.Name p) w = Some ((Some q, None), w)
           ∧ Product.Name q = Product.Name p
           ∧ GetChartInfo m no_funcs (Product.Name p) w
             = Some ((Some ci, None), w)
           ∧ ChartInfo.Name ci = Product.Name p +:+ "-chart"
           ∧ ValidateChartFiles m no_funcs (Product.ChartPath p) w
             = Some (None, w))
        products.
Proof.
  eexists. split; [reflexivity|]. split; [done|]. split.
  - cbn. apply NoDup_cons_2; [|apply NoDup_singleton].
    by rewrite list_elem_of_singleton.
  - repeat constructor; eexists _, _; split_and!; reflexivity.
Qed.

(** X5.  [InstantiateProduct] of a manager built by
    [NewFileSystemProductManager], called with an output path that is not
    empty, returns a path whose last element is the last element of
    [productNameOrPath], unless that element is ".", ".." or "/". *)
Theorem InstantiateProduct_last_element
  (base logDirectoryPath productNameOrPath : string)
  (m : FileSystemProductManager) (variables : gmap string any)
  (outputPath unassignedVarAction : string) (w : world) :
  NewFileSystemProductManager base logDirectoryPath = (Some m, None) →
  outputPath ≠ "" →
  filepath.Base productNameOrPath ≠ "." →
  filepath.Base productNameOrPath ≠ ".." →
  filepath.Base productNameOrPath ≠ "/" →
  ∃ instantiatedPath w',
    InstantiateProduct m productNameOrPath variables outputPath
      unassignedVarAction w = Some ((instantiatedPath, None), w')
    ∧ filepath.Base instantiatedPath = filepath.Base productNameOrPath.
Proof.
  unfold NewFileSystemProductManager.
  destruct (String.eqb base ""); [done|]. intros [= <-] Hout H1 H2 H3.
  unfold InstantiateProduct. cbn.
  rewrite (proj2 (String.eqb_neq outputPath "")) by done.
  eexists _, _. split; [reflexivity|].
  apply (Base_Join_plain [outputPath]).
  by destruct (Base_shape productNameOrPath) as [?|[?|[?|?]]].
Qed.

Lemma InstantiateProduct_last_element_witness :
  NewFileSystemProductManager "/products" ""
  = (Some examples.mock_manager, None)
  ∧ "/tmp/out" ≠ ""
  ∧ filepath.Base "/products/prod/chart/" = "chart"
  ∧ ∃ instantiatedPath w',
      InstantiateProduct examples.mock_manager "/products/prod/chart/" ∅
        "/tmp/out" UnassignedVarKeep examples.chart_world
      = Some ((instantiatedPath, None), w')
      ∧ filepath.Base instantiatedPath = "chart".
Proof.
  split_and!; [reflexivity|done|reflexivity|].
  exact (InstantiateProduct_last_element "/products" ""
           "/products/prod/chart/" examples.mock_manager ∅ "/tmp/out"
           UnassignedVarKeep examples.chart_world eq_refl
           ltac:(done) ltac:(done) ltac:(done) ltac:(done)).
Defined.

End product_manager.

(** ** The backup manager *)

Section backup_manager.

Import backupmanager.

Context {ReleaseInfo cluster : Type}.

Implicit Types (m : FileSystemBackupManager ReleaseInfo cluster)
  (helmClient : HelmClient ReleaseInfo cluster) (c : cluster).

(** A manager built by the constructor has no replacement function. *)
Lemma NewFileSystemBackupManager_Some base lg m :
  NewFileSystemBackupManager base lg = (Some m, None) →
  m = mkManager base lg None None None None None None None.
Proof.
  unfold NewFileSystemBackupManager.
  destruct (String.eqb base ""); [done|]. by intros [= <-].
Qed.

Lemma backup_id_found (releaseName : string) :
  String.eqb ("mock-backup-id-" +:+ releaseName) "non-existent-backup-id"
  = false.
Proof. done. Qed.

Lemma backup_id_deletable (releaseName : string) :
  String.eqb ("mock-backup-id-" +:+ releaseName) "non-existent-id-del"
  = false.
Proof. done. Qed.

(** X6.  The identifier [BackupRelease] returns is one [GetBackupDetails]
    finds: for a release name and a chart path that are not empty, and a
    release other than "non-existent-release", the details of the backup
    just made carry its identifier, the release name and the time of the
    call, and the two paths are built from the identifier.  Neither call
    changes the state. *)
Theorem BackupRelease_then_GetBackupDetails base lg m
  (releaseName chartSourcePath : string) (values : gmap string value)
  (now : Z) c :
  NewFileSystemBackupManager base lg = (Some m, None) →
  releaseName ≠ "" →
  chartSourcePath ≠ "" →
  releaseName ≠ "non-existent-release" →
  ∃ backupID metadata,
    BackupRelease m releaseName chartSourcePath values c
    = Some ((backupID, None), c)
    ∧ GetBackupDetails m releaseName backupID now c
      = Some (("/mocked/chart/path/" +:+ backupID,
               "/mocked/values/path/" +:+ backupID +:+ ".yaml",
               metadata, None), c)
    ∧ BackupID metadata = backupID
    ∧ ReleaseName metadata = releaseName
    ∧ Timestamp metadata = now.
Proof.
  intros ->%NewFileSystemBackupManager_Some Hr Hc Hn.
  unfold BackupRelease, GetBackupDetails. cbn [BackupReleaseFunc
    GetBackupDetailsFunc].
  rewrite (proj2 (String.eqb_neq releaseName "")) by done.
  rewrite (proj2 (String.eqb_neq chartSourcePath "")) by done.
  rewrite (proj2 (String.eqb_neq releaseName "non-existent-release")) by done.
  exists ("mock-backup-id-" +:+ releaseName).
  rewrite backup_id_found. cbn [orb].
  assert (String.eqb ("mock-backup-id-" +:+ releaseName)
            "mock-restore-backup-id" = false) as -> by done.
  assert (String.eqb ("mock-backup-id-" +:+ releaseName)
            "mock-upgrade-backup-id" = false) as -> by done.
  rewrite !andb_false_r. eexists. by split_and!.
Qed.

(** X7.  A backup just made can be deleted: [DeleteBackup] accepts the
    identifier [BackupRelease] returned for every release name that is not
    empty, except "non-existent-release-del". *)
Theorem BackupRelease_then_DeleteBackup base lg m
  (releaseName chartSourcePath : string) (values : gmap string value) c :
  NewFileSystemBackupManager base lg = (Some m, None) →
  releaseName ≠ "" →
  chartSourcePath ≠ "" →
  releaseName ≠ "non-existent-release-del" →
  ∃ backupID,
    BackupRelease m releaseName chartSourcePath values c
    = Some ((backupID, None), c)
    ∧ DeleteBackup m releaseName backupID c = Some (None, c).
Proof.
  intros ->%NewFileSystemBackupManager_Some Hr Hc Hn.
  unfold BackupRelease, DeleteBackup. cbn [BackupReleaseFunc DeleteBackupFunc].
  rewrite (proj2 (String.eqb_neq releaseName "")) by done.
  rewrite (proj2 (String.eqb_neq chartSourcePath "")) by done.
  rewrite (proj2 (String.eqb_neq releaseName "non-existent-release-del"))
    by done.
  eexists. split; [reflexivity|]. by rewrite backup_id_deletable.
Qed.

(** X8.  [ListBackups] returns, for every release name, a list that is not
    empty, whose entries all carry the release name asked for, have
    identifiers that differ from one another, are not later than the time
    of the call and stand from the newest to the oldest. *)
Theorem ListBackups_newest_first base lg m (releaseName : string) (now : Z)
  c :
  NewFileSystemBackupManager base lg = (Some m, None) →
  ∃ backups,
    ListBackups m releaseName now c = Some ((backups, None), c)
    ∧ backups ≠ []
    ∧ Forall (λ b, ReleaseName b = releaseName ∧ (Timestamp b ≤ now)%Z)
        backups
    ∧ NoDup (BackupID <$> backups)
    ∧ StronglySorted (λ a b, (Timestamp b < Timestamp a)%Z) backups.
Proof.
  intros ->%NewFileSystemBackupManager_Some.
  unfold ListBackups. cbn [ListBackupsFunc].
  destruct (String.eqb releaseName "list-test-release");
    (eexists; split; [reflexivity|]); (split; [done|]); split_and!.
  - repeat constructor; cbn; unfold Millisecond; lia.
  - cbn. repeat (apply NoDup_cons_2; [rewrite ?elem_of_cons, ?elem_of_nil;
      intuition congruence|]). apply NoDup_nil_2.
  - repeat constructor; cbn; unfold Millisecond; lia.
  - by repeat constructor.
  - cbn. apply NoDup_singleton.
  - repeat constructor.
Qed.

End backup_manager.

Section backup_manager_witnesses.

Import backupmanager.

Lemma BackupRelease_then_GetBackupDetails_witness :
  NewFileSystemBackupManager "/backups" (Some examples.recording_logger)
  = (Some examples.backup_manager, None)
  ∧ ∃ metadata,
      BackupRelease examples.backup_manager "web" "./charts/web" ∅ []
      = Some (("mock-backup-id-web", None), [])
      ∧ GetBackupDetails examples.backup_manager "web" "mock-backup-id-web"
          1700000000000000000 []
        = Some (("/mocked/chart/path/mock-backup-id-web",
                 "/mocked/values/path/mock-backup-id-web.yaml",
                 metadata, None), [])
      ∧ ReleaseName metadata = "web".
Proof.
  split; [reflexivity|].
  destruct (BackupRelease_then_GetBackupDetails "/backups"
              (Some examples.recording_logger) examples.backup_manager
              "web" "./charts/web" ∅ 1700000000000000000 [] eq_refl
              ltac:(done) ltac:(done) ltac:(done))
    as (backupID & metadata & Hb & Hg & _ & Hr & _).
  injection Hb as <-. exists metadata. split_and!; [reflexivity|exact Hg|exact Hr].
Defined.

Lemma BackupRelease_then_DeleteBackup_witness :
  NewFileSystemBackupManager "/backups" (Some examples.recording_logger)
  = (Some examples.backup_manager, None)
  ∧ DeleteBackup examples.backup_manager "web" "mock-backup-id-web" []
    = Some (None, []).
Proof.
  split; [reflexivity|].
  destruct (BackupRelease_then_DeleteBackup "/backups"
              (Some examples.recording_logger) examples.backup_manager
              "web" "./charts/web" ∅ [] eq_refl
              ltac:(done) ltac:(done) ltac:(done)) as (backupID & Hb & Hd).
  injection Hb as <-. exact Hd.
Defined.

Lemma ListBackups_newest_first_witness :
  NewFileSystemBackupManager "/backups" (Some examples.recording_logger)
  = (Some examples.backup_manager, None)
  ∧ ∃ backups,
      ListBackups examples.backup_manager "list-test-release" 50000000 []
      = Some ((backups, None), [])
      ∧ Timestamp <$> backups = [50000000; 40000000; 30000000]%Z.
Proof.
  split; [reflexivity|].
  destruct (ListBackups_newest_first "/backups"
              (Some examples.recording_logger) examples.backup_manager
              "list-test-release" 50000000 [] eq_refl)
    as (backups & Hl & _).
  exists backups. split; [exact Hl|].
  injection Hl as <-. reflexivity.
Defined.

End backup_manager_witnesses.

Section restore_and_upgrade.

Import backupmanager.

Context {ReleaseInfo cluster : Type}.

Implicit Types (m : FileSystemBackupManager ReleaseInfo cluster)
  (helmClient : HelmClient ReleaseInfo cluster) (c : cluster).

(** The details of a backup that is found. *)
Lemma GetBackupDetails_found base lg (releaseName backupID : string)
  (now : Z) c :
  String.eqb releaseName "non-existent-release"
  || String.eqb backupID "non-existent-backup-id" = false →
  ∃ metadata,
    GetBackupDetails
      (mkManager (ReleaseInfo:=ReleaseInfo) base lg None None None None None
         None None) releaseName backupID now c
    = Some (("/mocked/chart/path/" +:+ backupID,
             "/mocked/values/path/" +:+ backupID +:+ ".yaml",
             metadata, None), c)
    ∧ ChartVersion metadata = "0.2.0"
    ∧ BackupID metadata = backupID
    ∧ ReleaseName metadata = releaseName.
Proof.
  intros Hfound. unfold GetBackupDetails. cbn [GetBackupDetailsFunc].
  rewrite Hfound.
  destruct (_ && _); [by eexists|].
  destruct (_ && _); by eexists.
Qed.

(** X9.  When the backup is not found, that is for the release
    "non-existent-release" or the identifier "non-existent-backup-id",
    [RestoreRelease] and [UpgradeToBackup] return an error that names the
    release and the identifier, and leave the state as it was: the Helm
    client is not called. *)
Theorem restore_and_upgrade_need_the_backup base lg m helmClient
  (namespace releaseName backupID : string) (createNamespace wait force : bool)
  (timeout now : Z) c :
  NewFileSystemBackupManager base lg = (Some m, None) →
  String.eqb releaseName "non-existent-release"
  || String.eqb backupID "non-existent-backup-id" = true →
  RestoreRelease m helmClient namespace releaseName backupID createNamespace
    wait timeout now c
  = Some ((None,
           Some ("failed to get backup details for restore: backup "
                 +:+ releaseName +:+ "/" +:+ backupID +:+ " not found")), c)
  ∧ UpgradeToBackup m helmClient namespace releaseName backupID wait timeout
      force now c
    = Some ((None,
             Some ("failed to get backup details for upgrade: backup "
                   +:+ releaseName +:+ "/" +:+ backupID +:+ " not found")),
            c).
Proof.
  intros ->%NewFileSystemBackupManager_Some Hmissing.
  unfold RestoreRelease, UpgradeToBackup, GetBackupDetails.
  cbn [RestoreReleaseFunc UpgradeToBackupFunc GetBackupDetailsFunc].
  by rewrite Hmissing.
Qed.

(** X10.  When the backup is found, [RestoreRelease] uninstalls the release
    without keeping its history and then installs the chart of the backup,
    at version "0.2.0" with the values of the backup, on the state the
    uninstall left.  A failed uninstall does not stop the restore: it is
    reported to the logger and the install follows; without a logger the
    report panics. *)
Theorem RestoreRelease_uninstalls_then_installs base lg m helmClient
  (namespace releaseName backupID : string) (createNamespace wait : bool)
  (timeout now : Z) c :
  NewFileSystemBackupManager base lg = (Some m, None) →
  String.eqb releaseName "non-existent-release"
  || String.eqb backupID "non-existent-backup-id" = false →
  ∃ valuesPath metadata,
    GetBackupDetails m releaseName backupID now c
    = Some (("/mocked/chart/path/" +:+ backupID, valuesPath, metadata, None),
            c)
    ∧ RestoreRelease m helmClient namespace releaseName backupID
        createNamespace wait timeout now c
      = match
          UninstallRelease helmClient namespace releaseName false timeout c
        with
        | ((_, None), c1) =>
            Some (InstallChart helmClient namespace releaseName
                    ("/mocked/chart/path/" +:+ backupID) "0.2.0"
                    (Values metadata) createNamespace wait timeout c1)
        | ((_, Some err), c1) =>
            match lg with
            | Some log =>
                Some (InstallChart helmClient namespace releaseName
                        ("/mocked/chart/path/" +:+ backupID) "0.2.0"
                        (Values metadata) createNamespace wait timeout
                        (log "Mock Restore: UninstallRelease failed (continuing for mock): %v"
                           [err] c1))
            | None => None
            end
        end.
Proof.
  intros ->%NewFileSystemBackupManager_Some Hfound.
  destruct (GetBackupDetails_found base lg releaseName backupID now c Hfound)
    as (metadata & Hd & Hv & _).
  eexists _, metadata. split; [exact Hd|].
  unfold RestoreRelease. cbn [RestoreReleaseFunc]. rewrite Hd, Hv.
  destruct (UninstallRelease _ _ _ _ _ _) as [[removed [err|]] c1]; [|done].
  unfold call_logger. cbn [logger]. by destruct lg.
Qed.

(** X11.  When the backup is found, [UpgradeToBackup] makes one call of the
    Helm client: an upgrade to the chart of the backup, at version "0.2.0"
    with the values of the backup, that installs the release when it is
    missing, whatever the arguments are; [force] is passed on. *)
Theorem UpgradeToBackup_installs_if_missing base lg m helmClient
  (namespace releaseName backupID : string) (wait force : bool)
  (timeout now : Z) c :
  NewFileSystemBackupManager base lg = (Some m, None) →
  String.eqb releaseName "non-existent-release"
  || String.eqb backupID "non-existent-backup-id" = false →
  ∃ valuesPath metadata,
    GetBackupDetails m releaseName backupID now c
    = Some (("/mocked/chart/path/" +:+ backupID, valuesPath, metadata, None),
            c)
    ∧ UpgradeToBackup m helmClient namespace releaseName backupID wait
        timeout force now c
      = Some (UpgradeRelease helmClient namespace releaseName
                ("/mocked/chart/path/" +:+ backupID) "0.2.0"
                (Values metadata) wait timeout true force c).
Proof.
  intros ->%NewFileSystemBackupManager_Some Hfound.
  destruct (GetBackupDetails_found base lg releaseName backupID now c Hfound)
    as (metadata & Hd & Hv & _).
  eexists _, metadata. split; [exact Hd|].
  unfold UpgradeToBackup. cbn [UpgradeToBackupFunc]. by rewrite Hd, Hv.
Qed.

End restore_and_upgrade.

Section restore_and_upgrade_witnesses.

Import backupmanager.

Lemma restore_and_upgrade_need_the_backup_witness :
  NewFileSystemBackupManager "/backups" (Some examples.recording_logger)
  = (Some examples.backup_manager, None)
  ∧ RestoreRelease examples.backup_manager examples.recording_client
      "default" "non-existent-release" "b1" true false 0 0 []
    = Some ((None,
             Some "failed to get backup details for restore: backup non-existent-release/b1 not found"),
            []).
Proof.
  split; [reflexivity|].
  exact (proj1 (restore_and_upgrade_need_the_backup "/backups"
                  (Some examples.recording_logger) examples.backup_manager
                  examples.recording_client "default" "non-existent-release"
                  "b1" true false false 0 0 [] eq_refl eq_refl)).
Defined.

Lemma RestoreRelease_uninstalls_then_installs_witness :
  NewFileSystemBackupManager "/backups" (Some examples.recording_logger)
  = (Some examples.backup_manager, None)
  ∧ RestoreRelease examples.backup_manager examples.recording_client
      "default" "web" "b1" true false 0 0 []
    = Some ((Some "/mocked/chart/path/b1", None),
            ["uninstall web";
             "log Mock Restore: UninstallRelease failed (continuing for mock): %v";
             "install web"]).
Proof.
  split; [reflexivity|].
  destruct (RestoreRelease_uninstalls_then_installs "/backups"
              (Some examples.recording_logger) examples.backup_manager
              examples.recording_client "default" "web" "b1" true false 0 0
              [] eq_refl eq_refl) as (valuesPath & metadata & _ & Hr).
  rewrite Hr. reflexivity.
Defined.

Lemma UpgradeToBackup_installs_if_missing_witness :
  NewFileSystemBackupManager "/backups" (Some examples.recording_logger)
  = (Some examples.backup_manager, None)
  ∧ UpgradeToBackup examples.backup_manager examples.recording_client
      "default" "web" "b1" false 0 true 0 []
    = Some ((Some "/mocked/chart/path/b1", None), ["upgrade web"]).
Proof.
  split; [reflexivity|].
  destruct (UpgradeToBackup_installs_if_missing "/backups"
              (Some examples.recording_logger) examples.backup_manager
              examples.recording_client "default" "web" "b1" false true 0 0
              [] eq_refl eq_refl) as (valuesPath & metadata & _ & Hr).
  rewrite Hr. reflexivity.
Defined.

End restore_and_upgrade_witnesses.

(** ** The [--set] flag and the arguments of the commands *)

Section split_facts.

Import template.

Lemma Split_not_nil s sep : strings.Split s sep ≠ [].
Proof.
  destruct s as [|c s]; [done|]. cbn [strings.Split].
  destruct (Ascii.eqb c sep); [done|]. by destruct (strings.Split s sep).
Qed.

Lemma Split_no_sep s sep : no_char sep s = true → strings.Split s sep = [s].
Proof.
  induction s as [|c s IH]; [done|]. cbn [no_char strings.Split].
  intros [Hc Hs]%andb_prop. apply negb_true_iff in Hc. rewrite Hc.
  by rewrite (IH Hs).
Qed.

Lemma Split_app_head k t sep :
  no_char sep k = true →
  strings.Split (k +:+ t) sep
  = match strings.Split t sep with
    | e :: es => (k +:+ e) :: es
    | [] => []
    end.
Proof.
  induction k as [|c k IH]; intros Hk.
  - rewrite app_empty_l. by destruct (strings.Split t sep).
  - cbn [no_char] in Hk. apply andb_prop in Hk as [Hc Hk].
    apply negb_true_iff in Hc. rewrite app_cons. cbn [strings.Split].
    rewrite Hc, (IH Hk).
    pose proof (Split_not_nil t sep). by destruct (strings.Split t sep).
Qed.

Lemma Split_app k t sep :
  no_char sep k = true →
  strings.Split (k +:+ String sep t) sep = k :: strings.Split t sep.
Proof.
  intros Hk. rewrite (Split_app_head _ _ _ Hk). cbn [strings.Split].
  by rewrite Ascii.eqb_refl, app_empty_r.
Qed.

Lemma Split_Join l sep :
  l ≠ [] → forallb (no_char sep) l = true →
  strings.Split (strings.Join l (String sep "")) sep = l.
Proof.
  induction l as [|e l IH]; [done|]. intros _ [He Hl]%andb_prop.
  destruct l as [|e' l].
  - by apply Split_no_sep.
  - change (strings.Join (e :: e' :: l) (String sep ""))
      with (e +:+ String sep "" +:+ strings.Join (e' :: l) (String sep "")).
    rewrite app_cons, app_empty_l, (Split_app _ _ _ He).
    by rewrite IH.
Qed.

Lemma cut_app k v sep :
  no_char sep k = true → strings.cut (k +:+ String sep v) sep = Some (k, v).
Proof.
  induction k as [|c k IH]; intros Hk.
  - rewrite app_empty_l. cbn [strings.cut]. by rewrite Ascii.eqb_refl.
  - cbn [no_char] in Hk. apply andb_prop in Hk as [Hc Hk].
    apply negb_true_iff in Hc. rewrite app_cons. cbn [strings.cut].
    by rewrite Hc, (IH Hk).
Qed.

Lemma cut_no_sep s sep : no_char sep s = true → strings.cut s sep = None.
Proof.
  induction s as [|c s IH]; [done|]. cbn [no_char strings.cut].
  intros [Hc Hs]%andb_prop. apply negb_true_iff in Hc.
  by rewrite Hc, (IH Hs).
Qed.

Lemma SplitN_pair k v sep :
  no_char sep k = true → strings.SplitN (k +:+ String sep v) sep 2 = [k; v].
Proof. intros Hk. cbn [strings.SplitN]. by rewrite (cut_app _ _ _ Hk). Qed.

Lemma SplitN_no_sep s sep :
  no_char sep s = true → strings.SplitN s sep 2 = [s].
Proof. intros Hs. cbn [strings.SplitN]. by rewrite (cut_no_sep _ _ Hs). Qed.

Lemma eqb_app_nonempty (a : string) c (b : string) :
  String.eqb (a +:+ String c b) "" = false.
Proof. by destruct a. Qed.

End split_facts.

Section set_keys_facts.

Import template setflag valuepath flagshape.

Variable malformed : string → error.
Variable conflict : string → string → error.

Lemma set_keys_one kv0 k v (m : gmap string any) :
  set_keys conflict kv0 [k] v m = inl (<[k := AString v]> m).
Proof. reflexivity. Qed.

Lemma set_keys_more kv0 k k' ks v (m : gmap string any) :
  set_keys conflict kv0 (k :: k' :: ks) v m
  = match
      match m !! k with None => <[k := AMap ∅]> m | Some _ => m end !! k
    with
    | Some (AMap child) =>
        match set_keys conflict kv0 (k' :: ks) v child with
        | inl child' =>
            inl (<[k := AMap child']>
                   match m !! k with
                   | None => <[k := AMap ∅]> m
                   | Some _ => m
                   end)
        | inr err => inr err
        end
    | _ => inr (conflict kv0 k)
    end.
Proof. reflexivity. Qed.

(** The step of the walk: the child the walk enters and the map it
    returns. *)
Lemma set_keys_step kv0 k k' ks v (m m' : gmap string any) :
  set_keys conflict kv0 (k :: k' :: ks) v m = inl m' →
  ∃ child child',
    (m !! k = Some (AMap child) ∨ m !! k = None ∧ child = ∅)
    ∧ set_keys conflict kv0 (k' :: ks) v child = inl child'
    ∧ m' !! k = Some (AMap child')
    ∧ ∀ j, j ≠ k → m' !! j = m !! j.
Proof.
  rewrite set_keys_more. destruct (m !! k) as [x|] eqn:Hk.
  - rewrite Hk. destruct x as [| | | | |child]; try done.
    destruct (set_keys conflict kv0 (k' :: ks) v child) as [child'|err]
      eqn:Hs; [|done].
    intros [= <-]. exists child, child'. split_and!; [by left|done|..].
    + by rewrite lookup_insert_eq.
    + intros j Hj. by rewrite lookup_insert_ne.
  - rewrite lookup_insert_eq.
    destruct (set_keys conflict kv0 (k' :: ks) v ∅) as [child'|err]
      eqn:Hs; [|done].
    intros [= <-]. exists ∅, child'. split_and!; [by right|done|..].
    + by rewrite lookup_insert_eq.
    + intros j Hj. by rewrite !lookup_insert_ne.
Qed.

Lemma get_cons k ks (m : gmap string any) :
  ks ≠ [] →
  get (k :: ks) m
  = match m !! k with Some (AMap child) => get ks child | _ => None end.
Proof. by destruct ks. Qed.

Lemma get_empty q : get q ∅ = None.
Proof.
  destruct q as [|k [|k' q]]; [done|..]; cbn [get]; by rewrite lookup_empty.
Qed.

Lemma get_head_ext j q (m m' : gmap string any) :
  m' !! j = m !! j → get (j :: q) m' = get (j :: q) m.
Proof. intros Hj. destruct q; cbn [get]; by rewrite Hj. Qed.

Lemma set_keys_get kv0 keys v :
  ∀ m m' : gmap string any,
    keys ≠ [] → set_keys conflict kv0 keys v m = inl m' →
    get keys m' = Some (AString v).
Proof.
  induction keys as [|k keys IH]; [done|]. intros m m' _.
  destruct keys as [|k' ks].
  - rewrite set_keys_one. intros [= <-]. cbn [get].
    by rewrite lookup_insert_eq.
  - intros (child & child' & _ & Hs & Hk & _)%set_keys_step.
    rewrite get_cons, Hk by done. by apply (IH child).
Qed.

Lemma set_keys_frame kv0 keys v :
  ∀ (m m' : gmap string any) q,
    set_keys conflict kv0 keys v m = inl m' → diverge keys q = true →
    get q m' = get q m.
Proof.
  induction keys as [|k keys IH]; [done|]. intros m m' [|j q]; [done|].
  cbn [diverge]. destruct (String.eqb_spec k j) as [<-|Hne].
  - intros Hs Hd. destruct keys as [|k' ks]; [done|].
    destruct q as [|j' q]; [done|].
    apply set_keys_step in Hs
      as (child & child' & Hchild & Hs & Hk & _).
    rewrite !get_cons, Hk by done. rewrite (IH _ _ _ Hs Hd).
    destruct Hchild as [->|[-> ->]]; [done|]. apply get_empty.
  - intros Hs _. apply get_head_ext. destruct keys as [|k' ks].
    + rewrite set_keys_one in Hs. injection Hs as <-.
      by rewrite lookup_insert_ne.
    + apply set_keys_step in Hs as (child & child' & _ & _ & _ & Hj).
      apply Hj. congruence.
Qed.

(** The walk fails only at a key that is not the last one and holds
    something other than a map. *)
Lemma set_keys_error kv0 keys v :
  ∀ (m : gmap string any) err,
    set_keys conflict kv0 keys v m = inr err →
    ∃ p k rest x,
      keys = p ++ k :: rest ∧ rest ≠ []
      ∧ get (p ++ [k]) m = Some x ∧ (∀ child, x ≠ AMap child)
      ∧ err = conflict kv0 k.
Proof.
  induction keys as [|k keys IH]; [done|]. intros m err.
  destruct keys as [|k' ks]; [done|]. rewrite set_keys_more.
  destruct (m !! k) as [x|] eqn:Hk.
  - rewrite Hk.
    destruct x as [| | | | |child];
      try (intros [= <-]; exists [], k, (k' :: ks); eexists;
           split_and!; [done|done|exact Hk|done|done]).
    destruct (set_keys conflict kv0 (k' :: ks) v child) as [child'|err']
      eqn:Hs; [done|].
    intros [= <-].
    destruct (IH _ _ Hs) as (p & k0 & rest & x & Hkeys & Hrest & Hx & Hm & ->).
    exists (k :: p), k0, rest, x. split_and!; [by rewrite Hkeys|done|..|done|done].
    change ((k :: p) ++ [k0]) with (k :: (p ++ [k0])).
    rewrite get_cons, Hk; [done|]. by destruct p.
  - rewrite lookup_insert_eq.
    destruct (set_keys conflict kv0 (k' :: ks) v ∅) as [child'|err']
      eqn:Hs; [done|].
    intros [= <-].
    destruct (IH _ _ Hs) as (p & k0 & rest & x & _ & _ & Hx & _).
    by rewrite get_empty in Hx.
Qed.

Lemma plain_key_parts path :
  forallb plain_key path = true →
  forallb (no_char ","%char) path = true
  ∧ forallb (no_char "="%char) path = true
  ∧ forallb (no_char "."%char) path = true.
Proof.
  induction path as [|k path IH]; [done|]. cbn [forallb].
  intros [Hk Hp]%andb_prop. destruct (IH Hp) as (-> & -> & ->).
  unfold plain_key in Hk.
  apply andb_prop in Hk as [[-> ->]%andb_prop ->]. done.
Qed.

Lemma no_char_Join a l sep :
  forallb (no_char a) l = true → no_char a sep = true →
  no_char a (strings.Join l sep) = true.
Proof.
  intros Hl Hsep. induction l as [|e l IH]; [done|].
  cbn [forallb] in Hl. apply andb_prop in Hl as [He Hl].
  destruct l as [|e' l]; [done|].
  change (strings.Join (e :: e' :: l) sep)
    with (e +:+ sep +:+ strings.Join (e' :: l) sep).
  by rewrite !no_char_app, He, Hsep, (IH Hl).
Qed.

Lemma encode_String kv : encode kv = kv.1 +:+ String "=" kv.2.
Proof. reflexivity. Qed.

Lemma encode_no_comma kv :
  plain_pair kv = true → no_char ","%char (encode kv) = true.
Proof.
  unfold plain_pair, plain_key, plain_value.
  intros [[[Hc _]%andb_prop _]%andb_prop Hv]%andb_prop.
  by rewrite encode_String, no_char_app, Hc; cbn [no_char]; rewrite Hv.
Qed.

Lemma set_pair_flat kv (m : gmap string any) :
  plain_pair kv = true →
  set_pair malformed conflict (encode kv) (Some m)
  = Some (inl (Some (assign m kv))).
Proof.
  unfold plain_pair, plain_key.
  intros [[[_ He]%andb_prop Hd]%andb_prop _]%andb_prop.
  unfold set_pair. rewrite encode_String, (SplitN_pair _ _ _ He).
  by rewrite (Split_no_sep _ _ Hd).
Qed.

Lemma set_pairs_flat kvs pairs :
  ∀ m : gmap string any,
    forallb plain_pair kvs = true →
    set_pairs malformed conflict (map encode kvs ++ pairs) (Some m)
    = set_pairs malformed conflict pairs (Some (foldl assign m kvs)).
Proof.
  induction kvs as [|kv kvs IH]; [done|]. intros m [Hkv Hkvs]%andb_prop.
  cbn [map app set_pairs foldl]. rewrite (set_pair_flat _ _ Hkv).
  by apply IH.
Qed.

Lemma set_pair_malformed bad (base : option (gmap string any)) :
  no_char "="%char bad = true →
  set_pair malformed conflict bad base = Some (inr (malformed bad)).
Proof. intros Hb. unfold set_pair. by rewrite (SplitN_no_sep _ _ Hb). Qed.

Lemma encoded_no_comma kvs :
  forallb plain_pair kvs = true →
  forallb (no_char ","%char) (map encode kvs) = true.
Proof.
  induction kvs as [|kv kvs IH]; [done|]. intros [Hkv Hkvs]%andb_prop.
  cbn [map forallb]. by rewrite (encode_no_comma _ Hkv), (IH Hkvs).
Qed.

Lemma Join_encoded_nonempty kv l sep :
  String.eqb (strings.Join (encode kv :: l) sep) "" = false.
Proof.
  destruct l as [|e l].
  - cbn [strings.Join]. rewrite encode_String. apply eqb_app_nonempty.
  - change (strings.Join (encode kv :: e :: l) sep)
      with (encode kv +:+ sep +:+ strings.Join (e :: l) sep).
    rewrite encode_String, app_assoc_str, app_cons.
    apply eqb_app_nonempty.
Qed.

Lemma fold_insert_union_any (vals base : gmap string any) :
  map_fold (λ k v b, <[k := v]> b) base vals = vals ∪ base.
Proof.
  apply (map_fold_weak_ind (λ r m, r = m ∪ base)).
  - by rewrite (left_id_L ∅ (∪)).
  - intros k v m' r _ ->. by rewrite insert_union_l.
Qed.

End set_keys_facts.

Section set_flags.

Import template setflag valuepath flagshape.

Variable os_ReadFile : string → string * option error.
Variable yaml_Unmarshal json_Unmarshal :
  string → option (gmap string any)
  → option (gmap string any) * option error.

(** [loadValuesForInstantiation] on a file that YAML decodes. *)
Lemma loadValuesForInstantiation_decoded valuesFile bytes base setValues :
  String.eqb valuesFile "" = false →
  os_ReadFile valuesFile = (bytes, None) →
  yaml_Unmarshal bytes (Some ∅) = (base, None) →
  String.eqb setValues "" = false →
  productctl.loadValuesForInstantiation os_ReadFile yaml_Unmarshal
    json_Unmarshal valuesFile setValues
  = match
      set_pairs productctl.malformed productctl.conflict
        (strings.Split setValues ","%char) base
    with
    | Some (inl base) => Some (base, None)
    | Some (inr err) => Some (None, Some err)
    | None => None
    end.
Proof.
  intros Hfile Hread Hyaml Hset. unfold productctl.loadValuesForInstantiation.
  by rewrite Hfile, Hread, Hyaml, Hset.
Qed.

Lemma loadValuesForInstantiation_no_file setValues :
  String.eqb setValues "" = false →
  productctl.loadValuesForInstantiation os_ReadFile yaml_Unmarshal
    json_Unmarshal "" setValues
  = match
      set_pairs productctl.malformed productctl.conflict
        (strings.Split setValues ","%char) (Some ∅)
    with
    | Some (inl base) => Some (base, None)
    | Some (inr err) => Some (None, Some err)
    | None => None
    end.
Proof.
  intros Hset. unfold productctl.loadValuesForInstantiation.
  change (String.eqb "" "") with true. cbv beta iota zeta. cbn [negb].
  by rewrite Hset.
Qed.

Lemma loadValues_no_file setValues :
  String.eqb setValues "" = false →
  backupctl.loadValues os_ReadFile yaml_Unmarshal "" setValues
  = match
      set_pairs backupctl.malformed backupctl.conflict
        (strings.Split setValues ","%char) (Some ∅)
    with
    | Some (inl vals) => Some (Some (default ∅ vals), None)
    | Some (inr err) => Some (None, Some err)
    | None => None
    end.
Proof.
  intros Hset. unfold backupctl.loadValues.
  change (String.eqb "" "") with true. cbv beta iota zeta. cbn [negb].
  rewrite Hset. cbn [negb].
  destruct (set_pairs _ _ _ _) as [[vals|err]|]; [|done..].
  by rewrite fold_insert_union_any, (right_id_L ∅ (∪)).
Qed.

(** From the empty map the pairs never panic: the map stays a map. *)
Lemma set_pairs_Some malformed conflict pairs :
  ∀ base : gmap string any,
    match set_pairs malformed conflict pairs (Some base) with
    | Some (inl (Some _)) | Some (inr _) => True
    | _ => False
    end.
Proof.
  induction pairs as [|kv pairs IH]; [done|]. intros base.
  cbn [set_pairs]. unfold set_pair.
  destruct (strings.SplitN kv "="%char 2) as [|kv0 [|kv1 [|]]]; [done..| |done].
  destruct (set_keys _ _ _ _ _) as [m|err]; [|done]. apply IH.
Qed.

(** X12.  Without a values file, a [--set] text of pairs [key=value] whose
    keys hold no comma, equals sign or dot and whose values hold no comma
    gives, in productctl and in backupctl, the map that assigns the pairs
    from left to right: each value is a string, a later pair for a key
    replaces an earlier one, and an equals sign inside a value is kept. *)
Theorem set_pairs_without_file (kvs : list (string * string)) :
  forallb plain_pair kvs = true →
  productctl.loadValuesForInstantiation os_ReadFile yaml_Unmarshal
    json_Unmarshal "" (strings.Join (map encode kvs) ",")
  = Some (Some (foldl assign ∅ kvs), None)
  ∧ backupctl.loadValues os_ReadFile yaml_Unmarshal ""
      (strings.Join (map encode kvs) ",")
    = Some (Some (foldl assign ∅ kvs), None).
Proof.
  intros Hkvs. destruct kvs as [|kv kvs]; [done|].
  pose proof (Join_encoded_nonempty kv (map encode kvs) ",") as Hne.
  change (encode kv :: map encode kvs) with (map encode (kv :: kvs)) in Hne.
  rewrite (loadValuesForInstantiation_no_file _ Hne),
    (loadValues_no_file _ Hne).
  rewrite (Split_Join _ ","%char) by (done || by apply encoded_no_comma).
  rewrite <-(app_nil_r (map encode (kv :: kvs))).
  by rewrite !set_pairs_flat.
Qed.

(** X13.  A piece of the [--set] text without an equals sign, an empty
    piece after a trailing comma included, makes both programs return no map
    and the format error that quotes the piece, when the pieces before it
    are well formed; the pieces after it are not looked at. *)
Theorem set_pair_without_equals_sign
  (kvs : list (string * string)) (bad : string) (rest : list string) :
  forallb plain_pair kvs = true →
  no_char "="%char bad = true →
  forallb (no_char ","%char) (bad :: rest) = true →
  String.eqb (strings.Join (map encode kvs ++ bad :: rest) ",") "" = false →
  productctl.loadValuesForInstantiation os_ReadFile yaml_Unmarshal
    json_Unmarshal "" (strings.Join (map encode kvs ++ bad :: rest) ",")
  = Some (None, Some ("invalid --set format: '" +:+ bad
                      +:+ "'. Expected key=value"))
  ∧ backupctl.loadValues os_ReadFile yaml_Unmarshal ""
      (strings.Join (map encode kvs ++ bad :: rest) ",")
    = Some (None, Some ("invalid --set format: " +:+ bad
                        +:+ ". Expected key=value")).
Proof.
  intros Hkvs Hbad Hrest Hne.
  rewrite (loadValuesForInstantiation_no_file _ Hne),
    (loadValues_no_file _ Hne).
  rewrite (Split_Join _ ","%char).
  - rewrite !set_pairs_flat by done. cbn [set_pairs].
    by rewrite !set_pair_malformed.
  - by destruct (map encode kvs).
  - by rewrite forallb_app, encoded_no_comma.
Qed.

(** X14.  In productctl a pair with a dotted key over the map of a values
    file either sets the value at that path, leaving every path that parts
    ways with it as the file has it, or fails because a key of the path
    other than the last holds something that is not a map in the file; the
    error then prints the value as <nil>.  It never panics. *)
Theorem set_path_over_file (valuesFile bytes : string)
  (base : gmap string any) (path : list string) (v : string) :
  String.eqb valuesFile "" = false →
  os_ReadFile valuesFile = (bytes, None) →
  yaml_Unmarshal bytes (Some ∅) = (Some base, None) →
  path ≠ [] →
  forallb plain_key path = true →
  plain_value v = true →
  match
    productctl.loadValuesForInstantiation os_ReadFile yaml_Unmarshal
      json_Unmarshal valuesFile (strings.Join path "." +:+ "=" +:+ v)
  with
  | Some (Some m, None) =>
      get path m = Some (AString v)
      ∧ ∀ q, diverge path q = true → get q m = get q base
  | Some (None, Some err) =>
      ∃ p k rest x,
        path = p ++ k :: rest ∧ rest ≠ []
        ∧ get (p ++ [k]) base = Some x ∧ (∀ child, x ≠ AMap child)
        ∧ err = "invalid key structure in --set '" +:+ strings.Join path "."
                +:+ "': '" +:+ k +:+ "' is not a map, but holds value '<nil>'"
  | _ => False
  end.
Proof.
  intros Hfile Hread Hyaml Hpath Hkeys Hv. unfold plain_value in Hv.
  destruct (plain_key_parts _ Hkeys) as (Hcomma & Hequals & Hdot).
  assert (strings.Join path "." +:+ "=" +:+ v
          = strings.Join path "." +:+ String "=" v) as -> by done.
  rewrite (loadValuesForInstantiation_decoded _ _ _ _ Hfile Hread Hyaml)
    by apply eqb_app_nonempty.
  rewrite Split_no_sep.
  2:{ rewrite no_char_app, (no_char_Join _ _ _ Hcomma) by done.
      cbn [no_char]. by rewrite Hv. }
  cbn [set_pairs]. unfold set_pair.
  rewrite SplitN_pair by by apply no_char_Join.
  rewrite (Split_Join _ "."%char) by done.
  destruct (set_keys _ _ _ _ _) as [m|err] eqn:Hs.
  - split.
    + by apply (set_keys_get _ _ _ _ _ _ Hpath Hs).
    + intros q Hq. by apply (set_keys_frame _ _ _ _ _ _ _ Hs Hq).
  - exact (set_keys_error _ _ _ _ _ _ Hs).
Qed.

(** X15.  In backupctl the pairs are collected on their own and then
    assigned over the map of the values file one top-level key at a time:
    the result with a file is the result without it, completed by the
    top-level keys of the file it does not have.  A nested map of the file
    under a key the pairs set is replaced as a whole. *)
Theorem loadValues_replaces_top_level (valuesFile bytes setValues : string)
  (base vals : gmap string any) :
  String.eqb valuesFile "" = false →
  os_ReadFile valuesFile = (bytes, None) →
  yaml_Unmarshal bytes (Some ∅) = (Some base, None) →
  backupctl.loadValues os_ReadFile yaml_Unmarshal "" setValues
  = Some (Some vals, None) →
  backupctl.loadValues os_ReadFile yaml_Unmarshal valuesFile setValues
  = Some (Some (vals ∪ base), None).
Proof.
  intros Hfile Hread Hyaml.
  destruct (String.eqb setValues "") eqn:Hset.
  - unfold backupctl.loadValues. rewrite Hfile, Hread, Hyaml, Hset.
    change (String.eqb "" "") with true. cbv beta iota zeta. cbn [negb].
    intros [= <-]. by rewrite (left_id_L ∅ (∪)).
  - rewrite (loadValues_no_file _ Hset).
    unfold backupctl.loadValues. rewrite Hfile, Hread, Hyaml, Hset.
    cbv beta iota zeta. cbn [negb].
    destruct (set_pairs _ _ _ _) as [[v|err]|]; [|done..].
    intros [= <-]. by rewrite fold_insert_union_any.
Qed.


(** X17.  Without a values file neither program panics, whatever the
    [--set] text is, and each returns either a map that is not nil with a
    nil error or a nil map with an error. *)
Theorem set_flags_without_file_return (setValues : string) :
  match
    productctl.loadValuesForInstantiation os_ReadFile yaml_Unmarshal
      json_Unmarshal "" setValues
  with
  | Some (Some _, None) | Some (None, Some _) => True
  | _ => False
  end
  ∧ match backupctl.loadValues os_ReadFile yaml_Unmarshal "" setValues with
    | Some (Some _, None) | Some (None, Some _) => True
    | _ => False
    end.
Proof.
  destruct (String.eqb setValues "") eqn:Hset.
  - unfold productctl.loadValuesForInstantiation, backupctl.loadValues.
    change (String.eqb "" "") with true. cbv beta iota zeta. cbn [negb].
    by rewrite Hset.
  - rewrite (loadValuesForInstantiation_no_file _ Hset),
      (loadValues_no_file _ Hset).
    pose proof (set_pairs_Some productctl.malformed productctl.conflict
                  (strings.Split setValues ","%char) ∅) as Hp.
    pose proof (set_pairs_Some backupctl.malformed backupctl.conflict
                  (strings.Split setValues ","%char) ∅) as Hb.
    split.
    + by destruct (set_pairs productctl.malformed _ _ _) as [[[m|]|err]|].
    + by destruct (set_pairs backupctl.malformed _ _ _) as [[[m|]|err]|].
Qed.

End set_flags.

Section scan.

Lemma scan_args_partition_upto (n : nat) :
  ∀ inputArgs, length inputArgs ≤ n →
    match productctl.scan_args inputArgs with
    | (globalArgs, command, commandArgs) =>
        inputArgs = globalArgs ∧ command = "" ∧ commandArgs = []
        ∨ inputArgs = globalArgs ++ command :: commandArgs
          ∧ strings.HasPrefix command "-" = false
    end.
Proof.
  induction n as [|n IH]; intros [|arg rest] Hn; cbn [length] in Hn;
    try lia; [by left|by left|].
  cbn [productctl.scan_args].
  destruct (strings.HasPrefix arg "-") eqn:Hflag; [|by right].
  assert (∀ l, length l ≤ n →
            match
              (let '(globalArgs, command, commandArgs) :=
                 productctl.scan_args l in
               (arg :: globalArgs, command, commandArgs))
            with
            | (globalArgs, command, commandArgs) =>
                arg :: l = globalArgs ∧ command = "" ∧ commandArgs = []
                ∨ arg :: l = globalArgs ++ command :: commandArgs
                  ∧ strings.HasPrefix command "-" = false
            end) as Hskip.
  { intros l Hl. specialize (IH l Hl).
    destruct (productctl.scan_args l) as [[g c] ca].
    destruct IH as [(-> & -> & ->)|[-> Hc]]; [by left|by right]. }
  destruct (negb (strings.Contains arg "=") && _); [|apply Hskip; lia].
  destruct rest as [|next rest']; [by left|].
  destruct (negb (strings.HasPrefix next "-")); [|apply Hskip; lia].
  cbn [length] in Hn. specialize (IH rest' ltac:(lia)).
  destruct (productctl.scan_args rest') as [[g c] ca].
  destruct IH as [(-> & -> & ->)|[-> Hc]]; [by left|by right].
Qed.

(** X18.  The scan of the arguments in productctl's [main] cuts the
    arguments in two without losing or reordering any: either all of them
    are global arguments and there is no command, or they are the global
    arguments, then the command, which does not start with a dash, then the
    arguments of the command.  A flag after the command is an argument of
    the command. *)
Theorem scan_args_partition (inputArgs : list string) :
  match productctl.scan_args inputArgs with
  | (globalArgs, command, commandArgs) =>
      inputArgs = globalArgs ∧ command = "" ∧ commandArgs = []
      ∨ inputArgs = globalArgs ++ command :: commandArgs
        ∧ strings.HasPrefix command "-" = false
  end.
Proof. by apply (scan_args_partition_upto (length inputArgs)). Qed.

End scan.

Section set_flags_witnesses.

Import template setflag valuepath flagshape.

Lemma set_pairs_without_file_witness :
  forallb plain_pair [("tag", "a=b"); ("replicas", "2"); ("tag", "v2")] = true
  ∧ productctl.loadValuesForInstantiation examples.values_reader
      examples.values_decoder examples.values_decoder ""
      "tag=a=b,replicas=2,tag=v2"
    = Some (Some (<["tag" := AString "v2"]>
                    (<["replicas" := AString "2"]>
                       (<["tag" := AString "a=b"]> ∅))), None).
Proof.
  split; [reflexivity|].
  exact (proj1 (set_pairs_without_file examples.values_reader
                  examples.values_decoder examples.values_decoder
                  [("tag", "a=b"); ("replicas", "2"); ("tag", "v2")]
                  eq_refl)).
Defined.

Lemma set_pair_without_equals_sign_witness :
  productctl.loadValuesForInstantiation examples.values_reader
    examples.values_decoder examples.values_decoder "" "tag=v2,"
  = Some (None, Some "invalid --set format: ''. Expected key=value")
  ∧ backupctl.loadValues examples.values_reader examples.values_decoder ""
      "tag=v2,"
    = Some (None, Some "invalid --set format: . Expected key=value").
Proof.
  exact (set_pair_without_equals_sign examples.values_reader
           examples.values_decoder examples.values_decoder
           [("tag", "v2")] "" [] eq_refl eq_refl eq_refl eq_refl).
Defined.

Lemma set_path_over_file_witness :
  match
    productctl.loadValuesForInstantiation examples.values_reader
      examples.values_decoder examples.values_decoder "values.yaml"
      "image.tag=new"
  with
  | Some (Some m, None) =>
      get ["image"; "tag"] m = Some (AString "new")
      ∧ get ["image"; "pull"] m = Some (AString "always")
  | _ => False
  end.
Proof.
  pose proof (set_path_over_file examples.values_reader
                examples.values_decoder examples.values_decoder
                "values.yaml" "image: {tag: old, pull: always}"
                examples.values_map ["image"; "tag"] "new"
                eq_refl eq_refl eq_refl ltac:(discriminate) eq_refl eq_refl)
    as Hset.
  change (strings.Join ["image"; "tag"] "." +:+ "=" +:+ "new")
    with "image.tag=new" in Hset.
  destruct (productctl.loadValuesForInstantiation _ _ _ _ _)
    as [[[m|] [err|]]|]; try exact Hset.
  - destruct Hset as [Htag Hframe]. split; [exact Htag|].
    rewrite (Hframe ["image"; "pull"] eq_refl). reflexivity.
  - destruct Hset as (p & k & rest & x & Hpath & Hrest & Hx & Hmap & _).
    destruct p as [|k1 [|k2 [|k3 p]]]; try discriminate Hpath.
    + injection Hpath as <- <-. vm_compute in Hx. injection Hx as <-.
      by destruct (Hmap (<["tag" := AString "old"]>
                   (<["pull" := AString "always"]> ∅))).
    + injection Hpath as <- <- <-. by destruct Hrest.
Defined.

Lemma loadValues_replaces_top_level_witness :
  backupctl.loadValues examples.values_reader examples.values_decoder
    "values.yaml" "image.tag=new"
  = Some (Some (<["image" := AMap (<["tag" := AString "new"]> ∅)]> ∅
                ∪ examples.values_map), None).
Proof.
  apply (loadValues_replaces_top_level examples.values_reader
           examples.values_decoder "values.yaml"
           "image: {tag: old, pull: always}" "image.tag=new"
           examples.values_map
           (<["image" := AMap (<["tag" := AString "new"]> ∅)]> ∅));
    reflexivity.
Defined.


End set_flags_witnesses.

(** ** The mock of [k8sutils] *)

Section auth_facts.

Import k8sutils.

Context {cluster : Type}.

Variable fake_NewSimpleClientset : Clientset cluster.

Implicit Types (u : AuthUtil cluster) (cs : Clientset cluster) (c : cluster).

(** X19.  Unless [GetCurrentNamespaceFunc] replaces it,
    [GetCurrentNamespace] never returns the empty namespace, with or
    without an error, whatever the environment, the home directory and the
    kubeconfig are. *)
Theorem GetCurrentNamespace_not_empty u (e : env) :
  GetCurrentNamespaceFunc u = None →
  String.eqb (GetCurrentNamespace u e).1 "" = false.
Proof.
  intros Hf. unfold GetCurrentNamespace. rewrite Hf.
  destruct (_ && _); [done|]. cbv zeta.
  destruct (String.eqb (Getenv e "KUBECONFIG") "").
  - destruct (UserHomeDir e) as [home [err|]]; [done|].
    destruct (IsNotExist e _); [done|].
    destruct (LoadRawConfig e _) as [kcfg [err|]]; [done|].
    destruct (String.eqb (RawConfig.CurrentContext kcfg) ""); [done|].
    destruct (_ !! _) as [[namespace|]|]; [|done..].
    by destruct (String.eqb namespace "") eqn:Hn.
  - destruct (IsNotExist e _); [done|].
    destruct (LoadRawConfig e _) as [kcfg [err|]]; [done|].
    destruct (String.eqb (RawConfig.CurrentContext kcfg) ""); [done|].
    destruct (_ !! _) as [[namespace|]|]; [|done..].
    by destruct (String.eqb namespace "") eqn:Hn.
Qed.

(** The loop over the verbs: the keys it adds are the verbs, and a verb it
    reports as allowed was allowed before or by a review without error. *)
Lemma review_loop cs (namespace : string) (resourceGV : GroupVersionResource.t)
  (verbs : list string) :
  ∀ (results : gmap string bool) c,
    dom (foldl (review_verb cs namespace resourceGV) (results, c) verbs).1
    = dom results ∪ list_to_set verbs
    ∧ ∀ verb,
        (foldl (review_verb cs namespace resourceGV) (results, c) verbs).1
          !! verb = Some true →
        results !! verb = Some true
        ∨ ∃ c1 c2,
            Create cs
              (ResourceAttributes.mk namespace verb
                 (GroupVersionResource.Group resourceGV)
                 (GroupVersionResource.Version resourceGV)
                 (GroupVersionResource.Resource resourceGV)) c1
            = ((true, None), c2).
Proof.
  induction verbs as [|v verbs IH]; intros results c.
  - cbn [foldl fst list_to_set]. split; [|by left].
    by rewrite (right_id_L ∅ (∪)).
  - cbn [foldl list_to_set].
    destruct (review_verb cs namespace resourceGV (results, c) v)
      as [results1 c1] eqn:Hstep.
    destruct (IH results1 c1) as [Hdom Htrue].
    assert (∃ b, results1 = <[v := b]> results
                 ∧ (b = true → ∃ c0 c2,
                      Create cs
                        (ResourceAttributes.mk namespace v
                           (GroupVersionResource.Group resourceGV)
                           (GroupVersionResource.Version resourceGV)
                           (GroupVersionResource.Resource resourceGV)) c0
                      = ((true, None), c2))) as (b & -> & Hb).
    { unfold review_verb in Hstep.
      destruct (Create cs _ c) as [[allowed [err|]] c2] eqn:Hc;
        injection Hstep as <- <-.
      - by exists false.
      - exists allowed. split; [done|]. intros ->. by exists c, c2. }
    split.
    + rewrite Hdom, dom_insert_L, (assoc_L (∪)).
      by rewrite (comm_L (∪) (dom results)).
    + intros verb Hverb. destruct (Htrue verb Hverb) as [Hin|Hrev]; [|by right].
      destruct (decide (v = verb)) as [->|Hne].
      * rewrite lookup_insert_eq in Hin. injection Hin as ->. right. by apply Hb.
      * rewrite lookup_insert_ne in Hin by done. by left.
Qed.

(** The answer the loop stores for a review. *)
Lemma review_verb_answer cs (namespace : string)
  (resourceGV : GroupVersionResource.t) (results : gmap string bool) c
  (verb : string) :
  review_verb cs namespace resourceGV (results, c) verb
  = (<[verb :=
         match
           Create cs
             (ResourceAttributes.mk namespace verb
                (GroupVersionResource.Group resourceGV)
                (GroupVersionResource.Version resourceGV)
                (GroupVersionResource.Resource resourceGV)) c
         with
         | ((allowed, None), _) => allowed
         | ((_, Some _), _) => false
         end]> results,
     (Create cs
        (ResourceAttributes.mk namespace verb
           (GroupVersionResource.Group resourceGV)
           (GroupVersionResource.Version resourceGV)
           (GroupVersionResource.Resource resourceGV)) c).2).
Proof.
  unfold review_verb. by destruct (Create cs _ c) as [[allowed [err|]] c1].
Qed.

(** The reviews of other verbs leave the entry of a verb as it is. *)
Lemma review_loop_other cs (namespace : string)
  (resourceGV : GroupVersionResource.t) (verbs : list string) (verb : string) :
  verb ∉ verbs →
  ∀ acc,
    (foldl (review_verb cs namespace resourceGV) acc verbs).1 !! verb
    = acc.1 !! verb.
Proof.
  induction verbs as [|v verbs IH]; intros Hverb [results c]; [done|].
  apply not_elem_of_cons in Hverb as [Hne Hverb].
  cbn [foldl]. rewrite (IH Hverb), review_verb_answer.
  cbn [fst]. by rewrite lookup_insert_ne.
Qed.


(** X21.  [CanPerformClusterAction] for a verb makes the review that
    [CheckNamespacePermissions] makes for that verb alone in the empty
    namespace, and both leave the state that review leaves.  When the review
    returns no error both give its answer.  When it fails the first returns
    false with an error that wraps the error of the review, and the second
    returns no error and a refusal. *)
Theorem CanPerformClusterAction_is_a_namespace_check u cs
  (resourceGV : GroupVersionResource.t) (verb : string) c :
  CheckNamespacePermissionsFunc u = None →
  CanPerformClusterActionFunc u = None →
  GetClientset fake_NewSimpleClientset u = (Some cs, None) →
  ∃ allowed errAuth c',
    Create cs
      (ResourceAttributes.mk "" verb
         (GroupVersionResource.Group resourceGV)
         (GroupVersionResource.Version resourceGV)
         (GroupVersionResource.Resource resourceGV)) c
    = ((allowed, errAuth), c')
    ∧ CanPerformClusterAction fake_NewSimpleClientset u resourceGV verb c
      = (match errAuth with
         | None => (allowed, None)
         | Some err =>
             (false,
              Some ("mock: failed to perform SelfSubjectAccessReview for verb 	"
                    +:+ verb +:+ " on cluster resource 	"
                    +:+ GroupVersionResource.Resource resourceGV
                    +:+ ": " +:+ err))
         end, c')
    ∧ CheckNamespacePermissions fake_NewSimpleClientset u "" resourceGV
        [verb] c
      = ((Some {[verb := match errAuth with
                         | None => allowed
                         | Some _ => false
                         end]}, None), c').
Proof.
  intros Hcheck Hcan Hcs.
  unfold CanPerformClusterAction, CheckNamespacePermissions.
  rewrite Hcheck, Hcan, Hcs. cbn [foldl]. unfold review_verb. cbv zeta.
  destruct (Create cs _ c) as [[allowed [errAuth|]] c'];
    by eexists _, _, _.
Qed.

End auth_facts.

Section auth_witnesses.

Import k8sutils.

Lemma GetCurrentNamespace_not_empty_witness :
  GetCurrentNamespaceFunc examples.auth_util = None
  ∧ String.eqb (GetCurrentNamespace examples.auth_util examples.kube_env).1 ""
    = false.
Proof.
  split; [reflexivity|].
  exact (GetCurrentNamespace_not_empty examples.auth_util examples.kube_env
           eq_refl).
Defined.


Lemma CanPerformClusterAction_is_a_namespace_check_witness :
  CanPerformClusterAction examples.review_client examples.auth_util
    examples.pods "delete" []
  = ((false,
      Some "mock: failed to perform SelfSubjectAccessReview for verb 	delete on cluster resource 	pods: the server is unavailable"),
     ["delete"])
  ∧ CheckNamespacePermissions examples.review_client examples.auth_util ""
      examples.pods ["delete"] []
    = ((Some {["delete" := false]}, None), ["delete"]).
Proof.
  destruct (CanPerformClusterAction_is_a_namespace_check
              examples.review_client examples.auth_util
              examples.review_client examples.pods "delete" []
              eq_refl eq_refl eq_refl)
    as (allowed & errAuth & c' & Hreview & -> & ->).
  vm_compute in Hreview. by injection Hreview as <- <- <-.
Defined.

End auth_witnesses.

(** ** [indentString] of helmctl *)

Section indent_facts.

Import template.

Lemma Split_pieces s sep : forallb (no_char sep) (strings.Split s sep) = true.
Proof.
  induction s as [|c s IH]; [done|]. cbn [strings.Split].
  destruct (Ascii.eqb c sep) eqn:Hc; [done|].
  pose proof (Split_not_nil s sep).
  destruct (strings.Split s sep) as [|e es]; [done|].
  cbn [forallb no_char] in *. by rewrite Hc.
Qed.

Lemma TrimRight_app_cutset s c :
  strings.TrimRight (s +:+ String c "") c = strings.TrimRight s c.
Proof.
  induction s as [|a s IH].
  - rewrite app_empty_l. cbn [strings.TrimRight]. by rewrite Ascii.eqb_refl.
  - rewrite app_cons. cbn [strings.TrimRight]. by rewrite IH.
Qed.

(** X22.  For an indent without line break, the lines of
    [indentString s indent] are the lines of [s], its trailing line breaks
    apart, each with the indent before it: no line is added, lost or
    joined.  One more trailing line break in [s] changes nothing. *)
Theorem indentString_lines (s indent : string) :
  no_char "010"%char indent = true →
  strings.Split (helmctl.indentString s indent) "010"%char
  = map (λ line, indent +:+ line)
      (strings.Split (strings.TrimRight s "010"%char) "010"%char)
  ∧ helmctl.indentString (s +:+ String "010"%char "") indent
    = helmctl.indentString s indent.
Proof.
  intros Hindent. split.
  - unfold helmctl.indentString. cbv zeta. apply Split_Join.
    + pose proof (Split_not_nil (strings.TrimRight s "010"%char) "010"%char).
      by destruct (strings.Split _ _).
    + pose proof (Split_pieces (strings.TrimRight s "010"%char) "010"%char)
        as Hpieces.
      induction (strings.Split _ _) as [|e es IH]; [done|].
      cbn [map forallb] in *. apply andb_prop in Hpieces as [He Hes].
      by rewrite no_char_app, Hindent, He, (IH Hes).
  - unfold helmctl.indentString. by rewrite TrimRight_app_cutset.
Qed.

Lemma indentString_lines_witness :
  no_char "010"%char "  " = true
  ∧ strings.Split (helmctl.indentString examples.two_lines "  ") "010"%char
    = ["  name: web"; "  tag: v2"].
Proof.
  split; [reflexivity|].
  exact (proj1 (indentString_lines examples.two_lines "  " eq_refl)).
Defined.

End indent_facts.

(** ** [LoadWithDefaults] *)

Section defaults.

(** X23.  [LoadWithDefaults] returns no error and a configuration whose main
    map is empty: the raw main map is empty when the values are resolved,
    so the entries written into the main map before are dropped.  The map
    [ToMap] exports is the same for every base path and every environment
    name. *)
Theorem LoadWithDefaults_ignores_location (w : world) (basePath env : string)
  (enableDBGrouping : bool) :
  ∃ lc,
    LoadWithDefaults w basePath env enableDBGrouping = (Some lc, None)
    ∧ Main lc = ∅
    ∧ ∀ basePath' env',
        ∃ lc',
          LoadWithDefaults w basePath' env' enableDBGrouping
          = (Some lc', None)
          ∧ ToMap lc' = ToMap lc.
Proof.
  unfold LoadWithDefaults. cbv zeta. rewrite Load_result.
  eexists. split; [reflexivity|]. split; [reflexivity|].
  intros basePath' env'. rewrite Load_result.
  eexists. split; [reflexivity|].
  cbv [ToMap Main DatabaseConfigs Metadata opts EnableDatabaseGrouping].
  reflexivity.
Qed.

End defaults.
